(** * FocusFlow: timer, break-length editor, game loop, page, storage and chat

    A shallow embedding of the parts of the application that carry logic:

    - [src/components/PlatformerGame.tsx]: the animation-frame game loop
      ([runGameLoop], [renderGame]), [handleReturn] and the effects of the
      component;
    - [src/utils/gameRenderUtils/collectibleRenderer.ts] and the second
      copy of that module, which loads its images from [/assets]:
      [drawCollectibles];
    - [src/hooks/useTimer.tsx]: the countdown timer hook;
    - [src/components/BreakDurationDialog.tsx]: the break-length editor;
    - the page component [Index] and the installation listener of the
      background script;
    - [chromeUtils]: [debounce], [saveToLocalStorage], [playSingleAudio];
    - [ChatInterface]: the conversations of the chat;
    - [openaiUtils] and [ApiKeyDialog]: which API key is used and stored.

    JavaScript numbers are binary64 values.  The millisecond timestamps of
    the game loop are held as the rationals they denote ([Q]) and computed
    with rounding ([JS.sub], [JS.div]); canvas coordinates are taken as exact
    rationals; the timer's whole seconds and the clock's milliseconds are
    integers ([Z]); the break length, which the dialog receives as a number
    of any kind, is a [JS.Number].

    Handlers that mutate refs and call into the browser are written in a
    small state monad whose state contains the refs, the browser's queues
    and a log of the calls made, so that the order of calls can be stated.
    A function that React creates anew in a render closes over the state of
    that render; such a function takes the state it closes over as an
    argument. *)

From Stdlib Require Import ZArith QArith Qround Qreduction Qabs Lia Lqa List String Ascii DecimalString DecimalPos.
From stdpp Require Import gmap strings list fin_maps.

(** ** JavaScript numbers, as far as the code uses them *)

(** A finite number is a binary64 value, held as the rational it denotes.
    The comparisons and [%] are exact on such values; [+], [-] and [/] round
    their exact result to the nearest binary64 value.  Overflow to an
    infinity and the sign of zero are not part of the model. *)

Module JS.

(** [a > b] on numbers. *)
Definition gt (a b : Q) : bool := negb (Qle_bool a b).

(** [a < b] on numbers. *)
Definition lt (a b : Q) : bool := negb (Qle_bool b a).

(** Truthiness of a number: [!x] holds exactly for [0] (and [NaN], which the
    model does not contain). *)
Definition truthy (x : Q) : bool := negb (Qeq_bool x 0).

(** Rounding towards zero. *)
Definition trunc (x : Q) : Z := Z.quot (Qnum x) (Zpos (Qden x)).

(** [floor (log2 (n / d))] for [n > 0]. *)
Definition ilog2 (n : Z) (d : positive) : Z :=
  let g := (Z.log2 n - Z.log2 (Zpos d))%Z in
  let below :=
    if (0 <=? g)%Z then (n <? Zpos d * 2 ^ g)%Z else (n * 2 ^ (- g) <? Zpos d)%Z in
  if below then (g - 1)%Z else g.

(** The integer nearest to [n / d], a tie going to the even one. *)
Definition nearestEven (n d : Z) : Z :=
  let f := (n / d)%Z in
  match (2 * (n mod d) ?= d)%Z with
  | Lt => f
  | Gt => (f + 1)%Z
  | Eq => if Z.even f then f else (f + 1)%Z
  end.

(** The binary64 value nearest to [x], ties to even: 53 significant bits,
    the last of them of weight [2 ^ e] with [e >= -1074]. *)
Definition round (x : Q) : Q :=
  let x' := Qred x in
  let n := Qnum x' in
  let d := Qden x' in
  if (n =? 0)%Z then 0
  else
    let a := Z.abs n in
    let e := Z.max (ilog2 a d - 52) (-1074) in
    let v :=
      if (0 <=? e)%Z
      then inject_Z (nearestEven a (Zpos d * 2 ^ e) * 2 ^ e)
      else Qmake (nearestEven (a * 2 ^ (- e)) (Zpos d)) (Z.to_pos (2 ^ (- e))) in
    Qred (if (n <? 0)%Z then - v else v).

(** [a + b], [a - b] and [a / b]. *)
Definition add (a b : Q) : Q := round (a + b).

Definition sub (a b : Q) : Q := round (a - b).

Definition div (a b : Q) : Q := round (a / b).

(** The remainder operator [a % b]: the result has the sign of the dividend
    and is [a - b * trunc (a / b)] with the quotient taken exactly; the
    result is itself a binary64 value, so nothing is rounded. *)
Definition rem (a b : Q) : Q := (a - b * inject_Z (trunc (a / b)))%Q.

(** *** Numbers of any kind *)

(** A number: [NaN], an infinity, or a finite value. *)
Inductive Number : Type :=
| NaN
| Infinity (negative : bool)
| Finite (q : Q).

Definition isNaN (x : Number) : bool :=
  match x with NaN => true | _ => false end.

(** [a < b]; a comparison with [NaN] is false. *)
Definition ltNumber (a b : Number) : bool :=
  match a, b with
  | NaN, _ | _, NaN => false
  | Infinity true, Infinity true => false
  | Infinity true, _ => true
  | _, Infinity true => false
  | Infinity false, _ => false
  | _, Infinity false => true
  | Finite x, Finite y => lt x y
  end.

(** [a > b], [a <= b] and [a >= b] *)
Definition gtNumber (a b : Number) : bool := ltNumber b a.

Definition leNumber (a b : Number) : bool :=
  negb (isNaN a) && negb (isNaN b) && negb (ltNumber b a).

Definition geNumber (a b : Number) : bool := leNumber b a.

(** [a !== b] *)
Definition strictNe (a b : Number) : bool :=
  match a, b with
  | Finite x, Finite y => negb (Qeq_bool x y)
  | Infinity s, Infinity t => negb (Bool.eqb s t)
  | _, _ => true
  end.

(** [a + b] and [a - b].  A finite sum beyond the largest binary64 value is
    an infinity in JavaScript; here it stays finite.  The code adds and
    subtracts [1] only, which cannot leave the finite values. *)
Definition addNumber (a b : Number) : Number :=
  match a, b with
  | NaN, _ | _, NaN => NaN
  | Infinity s, Infinity t => if Bool.eqb s t then Infinity s else NaN
  | Infinity s, _ | _, Infinity s => Infinity s
  | Finite x, Finite y => Finite (add x y)
  end.

Definition negate (a : Number) : Number :=
  match a with
  | NaN => NaN
  | Infinity s => Infinity (negb s)
  | Finite x => Finite (- x)
  end.

Definition subNumber (a b : Number) : Number := addNumber a (negate b).

(** [Math.max(a, b)] and [Math.min(a, b)]: [NaN] when an argument is. *)
Definition maxNumber (a b : Number) : Number :=
  if isNaN a || isNaN b then NaN else if ltNumber a b then b else a.

Definition minNumber (a b : Number) : Number :=
  if isNaN a || isNaN b then NaN else if ltNumber b a then b else a.

(** [Number.isInteger(a)] *)
Definition isInteger (a : Number) : bool :=
  match a with
  | Finite x => Pos.eqb (Qden (Qred x)) 1
  | _ => false
  end.

(** The number value of a mathematical integer, as [parseInt] yields it:
    the nearest binary64 value, an infinity from [2^1024 - 2^970] on. *)
Definition ofInteger (z : Z) : Number :=
  if (2 ^ 1024 - 2 ^ 970 <=? Z.abs z)%Z then Infinity (z <? 0)%Z
  else Finite (round (inject_Z z)).

(** *** [x.toString()] *)

(** The digits of a natural number. *)
Definition decimal (z : Z) : string :=
  DecimalString.NilZero.string_of_uint (N.to_uint (Z.to_N z)).

(** [x * 10 ^ p] *)
Definition scale10 (x : Q) (p : Z) : Q :=
  if (0 <=? p)%Z then (x * inject_Z (10 ^ p))%Q else (x / inject_Z (10 ^ (- p)))%Q.

(** The [n] with [10 ^ (n - 1) <= x < 10 ^ n], for [x > 0]. *)
Definition decimalExponent (x : Q) : Z :=
  let est := (ilog2 (Qnum x) (Qden x) * 30103 / 100000)%Z in
  let reaches (e : Z) := Qle_bool (scale10 1 e) x in
  if reaches (est + 2)%Z then (est + 3)%Z
  else if reaches (est + 1)%Z then (est + 2)%Z
  else if reaches est then (est + 1)%Z
  else est.

(** Removal of the zeros at the end of [s], counted into the exponent. *)
Fixpoint stripZeros (fuel : nat) (s e : Z) : Z * Z :=
  match fuel with
  | O => (s, e)
  | S fuel' =>
      if ((0 <? s) && (s mod 10 =? 0))%Z then stripZeros fuel' (s / 10)%Z (e + 1)%Z
      else (s, e)
  end.

(** The shortest decimal [s * 10 ^ e] whose binary64 value is [x], for
    [x > 0] with decimal exponent [n]: with [k] digits, then [k + 1], and so
    on; of two decimals of the same length the one nearer to [x], of two
    equally near the even one.  Seventeen digits tell any two binary64
    values apart. *)
Fixpoint shortest (fuel : nat) (x : Q) (n k : Z) : Z * Z :=
  let y := scale10 x (k - n) in
  let lo := Qfloor y in
  let hi := (lo + 1)%Z in
  let hits (s : Z) := Qeq_bool (round (scale10 (inject_Z s) (n - k))) x in
  let pick :=
    match (y - inject_Z lo ?= inject_Z hi - y)%Q with
    | Lt => lo
    | Gt => hi
    | Eq => if Z.even lo then lo else hi
    end in
  match fuel with
  | O => (pick, (n - k)%Z)
  | S fuel' =>
      if hits lo && hits hi then (pick, (n - k)%Z)
      else if hits lo then (lo, (n - k)%Z)
      else if hits hi then (hi, (n - k)%Z)
      else shortest fuel' x n (k + 1)%Z
  end.

Definition zeros (n : Z) : string := string_of_list_ascii (repeat "0"%char (Z.to_nat n)).

(** [Number::toString(x)] for a finite [x > 0]. *)
Definition positiveToString (x : Q) : string :=
  let '(s0, e0) := shortest 16 x (decimalExponent x) 1 in
  let '(s, e) := stripZeros 17 s0 e0 in
  let ds := decimal s in
  let k := Z.of_nat (String.length ds) in
  let n := (e + k)%Z in
  if ((k <=? n) && (n <=? 21))%Z then (ds ++ zeros (n - k))%string
  else if ((0 <? n) && (n <=? 21))%Z then
    (substring 0 (Z.to_nat n) ds ++ "." ++ substring (Z.to_nat n) (Z.to_nat (k - n)) ds)%string
  else if ((-6 <? n) && (n <=? 0))%Z then ("0." ++ zeros (- n) ++ ds)%string
  else
    let exponent :=
      ((if (n - 1 <? 0)%Z then "-" else "+") ++ decimal (Z.abs (n - 1)))%string in
    if (k =? 1)%Z then (ds ++ "e" ++ exponent)%string
    else (substring 0 1 ds ++ "." ++ substring 1 (Z.to_nat (k - 1)) ds ++ "e" ++ exponent)%string.

(** [x.toString()], which is also how a template literal renders [x]. *)
Definition toString (x : Number) : string :=
  match x with
  | NaN => "NaN"
  | Infinity s => if s then "-Infinity" else "Infinity"
  | Finite q =>
      let r := Qred q in
      if (Qnum r =? 0)%Z then "0"
      else if (Qnum r <? 0)%Z then ("-" ++ positiveToString (- r))%string
      else positiveToString r
  end.

End JS.

(** ** A state monad for handlers *)

Definition Eff (S A : Type) : Type := S -> A * S.

#[global] Instance Eff_ret {S : Type} : MRet (Eff S) :=
  fun A (a : A) (s : S) => (a, s).

#[global] Instance Eff_bind {S : Type} : MBind (Eff S) :=
  fun A B (f : A -> Eff S B) (m : Eff S A) (s : S) =>
    let (a, s') := m s in f a s'.

Definition gets {S A : Type} (f : S -> A) : Eff S A := fun s => (f s, s).

Definition modify {S : Type} (f : S -> S) : Eff S unit := fun s => (tt, f s).

(** [if (b) { m }] *)
Definition when {S : Type} (b : bool) (m : Eff S unit) : Eff S unit :=
  if b then m else mret tt.

(** [xs.forEach(f)] *)
Fixpoint forEach {S A : Type} (f : A -> Eff S unit) (xs : list A) : Eff S unit :=
  match xs with
  | [] => mret tt
  | x :: xs' => f x;; forEach f xs'
  end.

Definition exec {S A : Type} (m : Eff S A) (s : S) : S := snd (m s).

(** ** Types shared by the timer and the game ([@/types]) *)

Inductive TimerMode : Type := Focus | Break.

#[global] Instance TimerMode_eq_dec : EqDecision TimerMode.
Proof. solve_decision. Defined.

(** [BreakActivity] is a string tag or [null]. *)
Definition BreakActivity : Type := option string.

Record TimerState : Type := mkTimerState {
  mode : TimerMode;
  timeRemaining : Z;
  isRunning : bool;
  breakActivity : BreakActivity;
  completed : bool
}.

Record TimerSettings : Type := mkTimerSettings {
  focusDuration : Z;
  breakDuration : Z
}.

(** ** The platformer component ([PlatformerGame.tsx]) *)

Module PlatformerGame.

(** [gameState] as the component reads it from [useGameEngine]. *)
Record GameState : Type := mkGameState {
  score : Z;
  gameOver : bool;
  cameraOffsetX : Q
}.

(** The calls [renderGame] makes on the drawing context, in order. *)
Inductive DrawCall : Type :=
| ClearRect
| DrawBackground (cameraOffset : Q)
| DrawPlatforms (cameraOffset : Q)
| DrawObstacles (cameraOffset : Q)
| DrawCollectibles (cameraOffset : Q)
| DrawCharacter
| DrawUI (gs : GameState) (timeRemaining : Z) (mode : TimerMode)
| DrawGameOver (score : Z).

(** Calls that leave the component: into the engine, the browser, the audio
    element, React state setters and the callbacks received as props. *)
Inductive Event : Type :=
| UpdateGame
| RenderGame (calls : list DrawCall)
| RequestAnimationFrame (id : positive)
| CancelAnimationFrame (id : positive)
| AudioPause
| AudioSetCurrentTime (t : Q)
| AudioSetSrc (src : string)
| SetAudioPlaying (b : bool)
| SetGameStarted (b : bool)
| ResetGame
| OnStart
| OnPause
| OnReturn.

(** The audio element, as far as the handlers touch it. *)
Record Audio : Type := mkAudio {
  paused : bool;
  currentTime : Q;
  src : string
}.

(** What a render of the component closes over: the props and the values
    returned by [useGameEngine] in that render. *)
Record Render : Type := mkRender {
  onStart : bool;          (* was an [onStart] callback provided? *)
  onPause : bool;          (* was an [onPause] callback provided? *)
  timerState : TimerState;
  gameStarted : bool;
  gameState : GameState
}.

(** Mutable state: the refs of the component, the closure variable
    [lastTimestamp] of the running game-loop effect, the browser's list of
    pending animation-frame callbacks with its handle counter, the engine's
    world, and the log of calls. *)
Record State (World : Type) : Type := mkState {
  audioRef : option Audio;
  gameLoopRef : option positive;
  lastTimestamp : Q;
  pendingFrames : list positive;
  nextFrameId : positive;
  world : World;
  log : list Event
}.

Arguments mkState {World} _ _ _ _ _ _ _.
Arguments audioRef {World} _.
Arguments gameLoopRef {World} _.
Arguments lastTimestamp {World} _.
Arguments pendingFrames {World} _.
Arguments nextFrameId {World} _.
Arguments world {World} _.
Arguments log {World} _.

Section Component.

(** The entities owned by [useGameEngine] (character, platforms, obstacles,
    coins, score) and its [updateGame]; the hook is not among the sources
    modelled here, so both are parameters. *)
Context {World : Type} (updateGame : World -> World).

Definition set_audioRef (a : option Audio) (s : State World) : State World :=
  mkState a (gameLoopRef s) (lastTimestamp s) (pendingFrames s) (nextFrameId s) (world s) (log s).

Definition set_gameLoopRef (r : option positive) (s : State World) : State World :=
  mkState (audioRef s) r (lastTimestamp s) (pendingFrames s) (nextFrameId s) (world s) (log s).

Definition set_lastTimestamp (t : Q) (s : State World) : State World :=
  mkState (audioRef s) (gameLoopRef s) t (pendingFrames s) (nextFrameId s) (world s) (log s).

Definition set_pendingFrames (p : list positive) (s : State World) : State World :=
  mkState (audioRef s) (gameLoopRef s) (lastTimestamp s) p (nextFrameId s) (world s) (log s).

Definition set_nextFrameId (n : positive) (s : State World) : State World :=
  mkState (audioRef s) (gameLoopRef s) (lastTimestamp s) (pendingFrames s) n (world s) (log s).

Definition set_world (w : World) (s : State World) : State World :=
  mkState (audioRef s) (gameLoopRef s) (lastTimestamp s) (pendingFrames s) (nextFrameId s) w (log s).

Definition emit (e : Event) : Eff (State World) unit :=
  modify (fun s => mkState (audioRef s) (gameLoopRef s) (lastTimestamp s) (pendingFrames s) (nextFrameId s) (world s) (log s ++ [e])).

(** *** The browser's animation-frame interface *)

(** [requestAnimationFrame(cb)]: the callback is appended to the list of
    pending callbacks and a fresh non-zero handle is returned. *)
Definition requestAnimationFrame : Eff (State World) positive :=
  id ← gets nextFrameId;
  modify (fun s => set_pendingFrames (pendingFrames s ++ [id]) s);;
  modify (set_nextFrameId (Pos.succ id));;
  emit (RequestAnimationFrame id);;
  mret id.

(** [cancelAnimationFrame(id)]: the callback with that handle is removed. *)
Definition cancelAnimationFrame (id : positive) : Eff (State World) unit :=
  modify (fun s => set_pendingFrames (List.filter (fun j => negb (Pos.eqb j id)) (pendingFrames s)) s);;
  emit (CancelAnimationFrame id).

(** *** The audio element *)

(** [audioRef.current.pause()] *)
Definition audioPause : Eff (State World) unit :=
  modify (fun s => set_audioRef ((fun a => mkAudio true (currentTime a) (src a)) <$> audioRef s) s);;
  emit AudioPause.

(** [audioRef.current.currentTime = t] *)
Definition audioSetCurrentTime (t : Q) : Eff (State World) unit :=
  modify (fun s => set_audioRef ((fun a => mkAudio (paused a) t (src a)) <$> audioRef s) s);;
  emit (AudioSetCurrentTime t).

(** [audioRef.current.src = u] *)
Definition audioSetSrc (u : string) : Eff (State World) unit :=
  modify (fun s => set_audioRef ((fun a => mkAudio (paused a) (currentTime a) u) <$> audioRef s) s);;
  emit (AudioSetSrc u).

(** *** The game loop (lines 131-190) *)

Definition targetFPS : Q := 60.

Definition frameInterval : Q := JS.div 1000 targetFPS.

(** The statements of [renderGame(ctx)], as seen by the render [p] that
    created the function. *)
Definition drawCalls (p : Render) : list DrawCall :=
  let gs := gameState p in
  [ClearRect;
   DrawBackground (cameraOffsetX gs);
   DrawPlatforms (cameraOffsetX gs);
   DrawObstacles (cameraOffsetX gs);
   DrawCollectibles (cameraOffsetX gs);
   DrawCharacter;
   DrawUI gs (timeRemaining (timerState p)) (mode (timerState p))]
  ++ (if gameOver gs then [DrawGameOver (score gs)] else []).

(** The call [renderGame(ctx)]. *)
Definition renderGame (p : Render) : Eff (State World) unit :=
  emit (RenderGame (drawCalls p)).

(** The call [updateGame()]. *)
Definition callUpdateGame : Eff (State World) unit :=
  modify (fun s => set_world (updateGame (world s)) s);;
  emit UpdateGame.

(** [runGameLoop(timestamp)], the callback handed to
    [requestAnimationFrame] by the effect of render [p]. *)
Definition runGameLoop (p : Render) (timestamp : Q) : Eff (State World) unit :=
  last0 ← gets lastTimestamp;
  when (negb (JS.truthy last0)) (modify (set_lastTimestamp timestamp));;
  last ← gets lastTimestamp;
  let elapsed := JS.sub timestamp last in
  when (JS.gt elapsed frameInterval)
    (modify (set_lastTimestamp (JS.sub timestamp (JS.rem elapsed frameInterval)));;
     when (negb (gameOver (gameState p))) callUpdateGame;;
     renderGame p);;
  when (gameStarted p)
    (id ← requestAnimationFrame;
     modify (set_gameLoopRef (Some id))).

(** The body of the game-loop effect of render [p]; [ctxReady] says that the
    canvas and its 2d context exist. *)
Definition gameLoopEffect (p : Render) (ctxReady : bool) : Eff (State World) unit :=
  when (gameStarted p && ctxReady)
    (modify (set_lastTimestamp 0);;
     id ← requestAnimationFrame;
     modify (set_gameLoopRef (Some id))).

(** [if (gameLoopRef.current) { cancelAnimationFrame(gameLoopRef.current);
    gameLoopRef.current = null; }]: the cleanup of the game-loop effect; the
    same lines end the audio effect's cleanup and precede [onReturn()] in
    [handleReturn]. *)
Definition cancelGameLoop : Eff (State World) unit :=
  r ← gets gameLoopRef;
  match r with
  | Some id => cancelAnimationFrame id;; modify (set_gameLoopRef None)
  | None => mret tt
  end.

(** A display refresh: the browser takes the list of pending callbacks,
    empties it, and runs each callback with the frame's timestamp.  Every
    pending callback of this component is the [runGameLoop] of the current
    effect. *)
Definition animationFrame (p : Render) (timestamp : Q) : Eff (State World) unit :=
  ids ← gets pendingFrames;
  modify (set_pendingFrames []);;
  forEach (fun _ : positive => runGameLoop p timestamp) ids.

(** *** [handleReturn] (lines 192-206) *)

Definition handleReturn : Eff (State World) unit :=
  a ← gets audioRef;
  match a with
  | Some _ => audioPause;; audioSetCurrentTime 0;; emit (SetAudioPlaying false)
  | None => mret tt
  end;;
  cancelGameLoop;;
  emit OnReturn.

(** *** The audio effect's cleanup (lines 84-96) *)

Definition audioCleanup : Eff (State World) unit :=
  a ← gets audioRef;
  match a with
  | Some _ => audioPause;; audioSetSrc "";; modify (set_audioRef None)
  | None => mret tt
  end;;
  cancelGameLoop.

(** The body of the audio effect (lines 50-82): [created] is the element
    that [new Audio(path)] yields, or [None] when the constructor throws and
    the error is caught. *)
Definition loadAudio (created : option Audio) : Eff (State World) unit :=
  a ← gets audioRef;
  match a with
  | None => modify (set_audioRef created)
  | Some _ => mret tt
  end.

(** *** The mount effect (lines 117-129) *)

(** The body of the effect, run once, with the props of the first render. *)
Definition mountEffect (p : Render) : Eff (State World) unit :=
  emit (SetGameStarted true);;
  emit ResetGame;;
  when (onStart p && negb (isRunning (timerState p))) (emit OnStart).

(** The cleanup the effect returns.  It is a closure created by the effect
    body, so [onPause] and [timerState] are those of the render [p] in which
    the effect ran. *)
Definition mountCleanup (p : Render) : Eff (State World) unit :=
  when (onPause p && isRunning (timerState p)) (emit OnPause).

(** *** Life cycle *)

(** A mounted component: the first render, whose effects with an empty
    dependency list ran, and the latest render. *)
Record Mounted : Type := mkMounted {
  firstRender : Render;
  currentRender : Render
}.

(** Mounting with props [p]: the effects run in the order they are declared.
    At that point [gameStarted] is still [false] in the render's closure, so
    the game-loop effect returns at once; it runs again after the re-render
    caused by [setGameStarted(true)]. *)
Definition mount (p : Render) (created : option Audio) (ctxReady : bool) : Eff (State World) Mounted :=
  loadAudio created;;
  mountEffect p;;
  gameLoopEffect p ctxReady;;
  mret (mkMounted p p).

(** A later render with props [p]. *)
Definition rerender (p : Render) (c : Mounted) : Mounted :=
  mkMounted (firstRender c) p.

(** Teardown: every effect's cleanup runs, in declaration order. *)
Definition unmount (c : Mounted) : Eff (State World) unit :=
  audioCleanup;;
  mountCleanup (firstRender c);;
  cancelGameLoop.

(** *** Observations on the log *)

Definition isUpdateGame (e : Event) : bool :=
  match e with UpdateGame => true | _ => false end.

Definition isRenderGame (e : Event) : bool :=
  match e with RenderGame _ => true | _ => false end.

Definition isOnPause (e : Event) : bool :=
  match e with OnPause => true | _ => false end.

Definition isOnStart (e : Event) : bool :=
  match e with OnStart => true | _ => false end.

(** The calls made by [m] when started in [s]. *)
Definition calls {A : Type} (m : Eff (State World) A) (s : State World) : list Event :=
  drop (length (log s)) (log (exec m s)).

(** Number of simulation ticks, i.e. calls of [updateGame], made by [m]. *)
Definition ticks {A : Type} (m : Eff (State World) A) (s : State World) : nat :=
  length (List.filter isUpdateGame (calls m s)).

(** Number of calls of [renderGame] made by [m]. *)
Definition renders {A : Type} (m : Eff (State World) A) (s : State World) : nat :=
  length (List.filter isRenderGame (calls m s)).

(** [m] only appends to the log. *)
Definition appends {A : Type} (m : Eff (State World) A) : Prop :=
  forall s, log (exec m s) = log s ++ calls m s.

(** The timestamp against which [runGameLoop] measures [elapsed]: the stored
    one, or the current one when nothing is stored yet. *)
Definition lastTick (s : State World) (timestamp : Q) : Q :=
  if JS.truthy (lastTimestamp s) then lastTimestamp s else timestamp.

(** The browser holds at most one frame request of the component, and
    [gameLoopRef] holds its handle. *)
Definition loopTracked (s : State World) : Prop :=
  match pendingFrames s with
  | [] => True
  | [id] => gameLoopRef s = Some id
  | _ :: _ :: _ => False
  end.

End Component.

(** *** Sample inputs *)

(** A break timer that is not running, and the same timer once started. *)
Definition idleTimer : TimerState := mkTimerState Break 300 false (Some "game") false.

Definition runningTimer : TimerState := mkTimerState Break 290 true (Some "game") false.

Definition playing : GameState := mkGameState 30 false 120.

Definition lost : GameState := mkGameState 30 true 120.

(** A render with both callbacks provided and the game started. *)
Definition sampleRender (t : TimerState) (g : GameState) : Render :=
  mkRender true true t true g.

(** Before the first frame: nothing scheduled, no timestamp stored. *)
Definition freshState : State unit :=
  mkState (Some (mkAudio false 5 "/assets/office-ambience.mp3")) None 0 [] 1 tt [].

(** In the middle of a game: the last tick was at 1000 ms and request 7 is
    pending. *)
Definition sampleState : State unit :=
  mkState (Some (mkAudio false 5 "/assets/office-ambience.mp3")) (Some 7%positive) 1000 [7%positive] 8 tt [].

End PlatformerGame.

(** ** Drawing the coins ([drawCollectibles]) *)

Module Canvas.

(** A coin ([@/types/gameTypes]), as far as the renderer reads it. *)
Record Coin : Type := mkCoin {
  x : Q;
  y : Q;
  width : Q;
  height : Q;
  collected : bool
}.

(** An image element of the module-level array [coinImages]. *)
Record Image : Type := mkImage {
  src : string;
  complete : bool
}.

(** Operations on the 2d context.  [Arc cx cy r] is the full circle
    [ctx.arc(cx, cy, r, 0, Math.PI * 2)]; [DrawImage k ...] draws
    [coinImages[k]]. *)
Inductive Op : Type :=
| SetFillStyle (colour : string)
| SetStrokeStyle (colour : string)
| SetLineWidth (w : Q)
| SetImageSmoothingEnabled (b : bool)
| SetImageSmoothingQuality (q : string)
| BeginPath
| Arc (cx cy r : Q)
| Fill
| Stroke
| Clip
| Save
| Restore
| DrawImage (imageIndex : nat) (dx dy dw dh : Q).

(** The indices of the images drawn by a list of operations. *)
Definition imagesDrawn (ops : list Op) : list nat :=
  omap (fun o => match o with DrawImage k _ _ _ _ => Some k | _ => None end) ops.

(** The width of the [<canvas>] element of [PlatformerGame]. *)
Definition canvasWidth : Q := 700.

(** [coins.forEach((coin, i) => ...)]: the callback receives every element
    with its array position; what the callback does to its own parameter
    [i] (second component of its result) is not seen by the iteration. *)
Definition forEachIndexed {A : Type} (f : A -> nat -> list Op * nat) (xs : list A) : list Op :=
  concat (imap (fun i a => fst (f a i)) xs).

(** The two tests a coin has to pass to be drawn: [!coin.collected], and
    [adjustedX < 700 && adjustedX + coin.width > -20] for
    [adjustedX = coin.x - cameraOffsetX]. *)
Definition shown (cameraOffsetX : Q) (coin : Coin) : bool :=
  negb (collected coin)
  && (JS.lt (x coin - cameraOffsetX) 700 && JS.gt (x coin - cameraOffsetX + width coin) (-20)).

(** Whether a call of the per-coin callback drew anything. *)
Definition draws (r : list Op * nat) : bool :=
  match fst r with [] => false | _ :: _ => true end.

(** The culling rule in the words of the specification: a coin is shown
    when it is not collected and its horizontal extent on screen,
    from [x - cameraOffsetX] to [x - cameraOffsetX + width], meets the
    viewport [0 .. canvasWidth] widened by [margin] on each side. *)
Definition specVisible (margin : Q) (cameraOffsetX : Q) (coin : Coin) : Prop :=
  collected coin = false /\
  (x coin - cameraOffsetX < canvasWidth + margin)%Q /\
  (- margin < x coin - cameraOffsetX + width coin)%Q.

(** *** Sample inputs *)

(** A coin left of the canvas but within 20 px of it, a coin in the middle,
    a coin that has been collected, and a coin that starts at the right edge
    of the canvas. *)
Definition sampleCoins : list Coin :=
  [mkCoin (-25) 300 10 10 false;
   mkCoin 300 250 20 20 false;
   mkCoin 320 250 20 20 true;
   mkCoin 700 250 20 20 false].

End Canvas.

(** *** [src/utils/gameRenderUtils/collectibleRenderer.ts] *)

Module CollectibleRenderer.
Import Canvas.

Definition imageUrls : list string :=
  ["/lovable-uploads/d5931b60-291a-4967-acb2-049519d47f35.png";
   "/lovable-uploads/d693ce1c-58d1-408f-a910-ba27104f2c60.png";
   "/lovable-uploads/fc039335-e6e1-4cc5-b0ed-fd8592e45e65.png";
   "/lovable-uploads/edb454cb-c8f0-4c8f-8841-bcba6bd5fa15.png"].

(** [coinImages] after the module has been loaded; [loaded k] tells whether
    the browser has finished loading image [k]. *)
Definition coinImages (loaded : nat -> bool) : list Image :=
  imap (fun i url => mkImage url (loaded i)) imageUrls.

(** [const imageIndex = i % coinImages.length] *)
Definition imageIndex (images : list Image) (i : nat) : nat :=
  i mod length images.

(** The callback of [coins.forEach]; it returns the context operations and
    the final value of its parameter [i] (the body ends with [i++]). *)
Definition drawCoin (images : list Image) (cameraOffsetX : Q) (coin : Coin) (i : nat) : list Op * nat :=
  if negb (collected coin) then
    let adjustedX := (x coin - cameraOffsetX)%Q in
    if JS.lt adjustedX 700 && JS.gt (adjustedX + width coin)%Q (-20) then
      let scaleFactor : Q := 3 # 2 in
      let centerX := (adjustedX + width coin / 2)%Q in
      let centerY := (y coin + height coin / 2)%Q in
      let renderWidth := (width coin * scaleFactor)%Q in
      let renderHeight := (height coin * scaleFactor)%Q in
      ([SetFillStyle "#FFD746"; BeginPath; Arc centerX centerY (renderWidth / 2); Fill;
        Save;
        SetImageSmoothingEnabled true; SetImageSmoothingQuality "high";
        BeginPath; Arc centerX centerY (renderWidth / 2 - 1); Clip]
       ++ (let k := imageIndex images i in
           match images !! k with
           | Some img =>
               if complete img
               then [DrawImage k (centerX - renderWidth / 2) (centerY - renderHeight / 2) renderWidth renderHeight]
               else []
           | None => []
           end)
       ++ [Restore;
           SetStrokeStyle "#FFD746"; SetLineWidth 2; BeginPath;
           Arc centerX centerY (renderWidth / 2); Stroke],
       S i)
    else ([], i)
  else ([], i).

Definition drawCollectibles (loaded : nat -> bool) (coins : list Coin) (cameraOffsetX : Q) : list Op :=
  forEachIndexed (drawCoin (coinImages loaded) cameraOffsetX) coins.

End CollectibleRenderer.

(** *** The second renderer ([src/unnamed/part_003]) *)

Module CollectibleRendererAssets.
Import Canvas.

Section Renderer.

(** [getExtensionURL] of [chromeUtils]: resolves an asset path against the
    base URL of the extension, which depends on where the page runs. *)
Variable getExtensionURL : string -> string.

(** Decimal digit of a loop counter between 1 and 4. *)
Definition digit (i : nat) : string :=
  String (ascii_of_nat (48 + i)) "".

(** [for (let i = 1; i <= 4; i++) { ...; coinImages.push(img); }];
    [loaded k] tells whether the browser has finished loading image [k]. *)
Definition coinImages (loaded : nat -> bool) : list Image :=
  imap (fun k i => mkImage (getExtensionURL ("/assets/coin-" ++ digit i ++ ".png")) (loaded k)) (seq 1 4).

Definition imageIndex (images : list Image) (i : nat) : nat :=
  i mod length images.

Definition drawCoin (images : list Image) (cameraOffsetX : Q) (coin : Coin) (i : nat) : list Op * nat :=
  if negb (collected coin) then
    let adjustedX := (x coin - cameraOffsetX)%Q in
    if JS.lt adjustedX 700 && JS.gt (adjustedX + width coin)%Q (-20) then
      let scaleFactor : Q := 3 # 2 in
      let centerX := (adjustedX + width coin / 2)%Q in
      let centerY := (y coin + height coin / 2)%Q in
      let renderWidth := (width coin * scaleFactor)%Q in
      let renderHeight := (height coin * scaleFactor)%Q in
      ([SetFillStyle "#FFD746"; BeginPath; Arc centerX centerY (renderWidth / 2); Fill;
        Save;
        BeginPath; Arc centerX centerY (renderWidth / 2 - 1); Clip]
       ++ (let k := imageIndex images i in
           match images !! k with
           | Some _ =>
               [DrawImage k (centerX - renderWidth / 2) (centerY - renderHeight / 2) renderWidth renderHeight]
           | None => []
           end)
       ++ [Restore;
           SetStrokeStyle "#FFD746"; SetLineWidth 2; BeginPath;
           Arc centerX centerY (renderWidth / 2); Stroke],
       S i)
    else ([], i)
  else ([], i).

Definition drawCollectibles (loaded : nat -> bool) (coins : list Coin) (cameraOffsetX : Q) : list Op :=
  forEachIndexed (drawCoin (coinImages loaded) cameraOffsetX) coins.

End Renderer.

End CollectibleRendererAssets.

(** ** The countdown timer ([useTimer.tsx]) *)

Module UseTimer.

Definition TIMER_STATE_KEY : string := "focusflow_timer_state".
Definition TIMER_LAST_UPDATE_KEY : string := "focusflow_timer_last_update".
Definition SETTINGS_KEY : string := "focusflow_settings".

(** Values kept in the extension's local storage under the three keys. *)
Inductive StorageValue : Type :=
| StoredTimerState (s : TimerState)
| StoredNumber (n : Z)
| StoredSettings (s : TimerSettings).

(** What the hook lets the user hear and see. *)
Inductive Notice : Type :=
| PlayBreakStart
| PlayFocusStart
| Toast (message : string).

(** The hook's state: the React state [timerState], its refs, the handle
    counter of [window.setInterval], the local storage, the notices given,
    and the callbacks handed to [setTimeout] that have not fired yet.  The
    only such callback is [() => startTimer()]; it is held as the
    [timerState] of the render that created that [startTimer], which is all
    the function closes over besides refs. *)
Record Hook : Type := mkHook {
  timerState : TimerState;
  settingsRef : TimerSettings;
  intervalRef : option positive;
  lastUpdateRef : Z;
  nextHandle : positive;
  storage : gmap string StorageValue;
  notices : list Notice;
  timeouts : list TimerState
}.

Definition set_timerState (t : TimerState) (h : Hook) : Hook :=
  mkHook t (settingsRef h) (intervalRef h) (lastUpdateRef h) (nextHandle h) (storage h) (notices h) (timeouts h).

Definition set_settingsRef (c : TimerSettings) (h : Hook) : Hook :=
  mkHook (timerState h) c (intervalRef h) (lastUpdateRef h) (nextHandle h) (storage h) (notices h) (timeouts h).

Definition set_intervalRef (r : option positive) (h : Hook) : Hook :=
  mkHook (timerState h) (settingsRef h) r (lastUpdateRef h) (nextHandle h) (storage h) (notices h) (timeouts h).

Definition set_lastUpdateRef (n : Z) (h : Hook) : Hook :=
  mkHook (timerState h) (settingsRef h) (intervalRef h) n (nextHandle h) (storage h) (notices h) (timeouts h).

Definition set_nextHandle (n : positive) (h : Hook) : Hook :=
  mkHook (timerState h) (settingsRef h) (intervalRef h) (lastUpdateRef h) n (storage h) (notices h) (timeouts h).

Definition set_storage (m : gmap string StorageValue) (h : Hook) : Hook :=
  mkHook (timerState h) (settingsRef h) (intervalRef h) (lastUpdateRef h) (nextHandle h) m (notices h) (timeouts h).

Definition set_timeouts (q : list TimerState) (h : Hook) : Hook :=
  mkHook (timerState h) (settingsRef h) (intervalRef h) (lastUpdateRef h) (nextHandle h) (storage h) (notices h) q.

Definition notify (n : Notice) : Eff Hook unit :=
  modify (fun h => mkHook (timerState h) (settingsRef h) (intervalRef h) (lastUpdateRef h) (nextHandle h) (storage h) (notices h ++ [n]) (timeouts h)).

(** Record updates [{ ...s, field: v }]. *)
Definition with_timeRemaining (v : Z) (s : TimerState) : TimerState :=
  mkTimerState (mode s) v (isRunning s) (breakActivity s) (completed s).

Definition with_isRunning (v : bool) (s : TimerState) : TimerState :=
  mkTimerState (mode s) (timeRemaining s) v (breakActivity s) (completed s).

Definition with_completed (v : bool) (s : TimerState) : TimerState :=
  mkTimerState (mode s) (timeRemaining s) (isRunning s) (breakActivity s) v.

Definition with_breakActivity (v : BreakActivity) (s : TimerState) : TimerState :=
  mkTimerState (mode s) (timeRemaining s) (isRunning s) v (completed s).

(** Truthiness of [activity]: neither [null] nor the empty string. *)
Definition truthyActivity (a : BreakActivity) : bool :=
  match a with
  | Some (String _ _) => true
  | _ => false
  end.

Section Hook.

(** [minutesToSeconds] of [@/utils/timerUtils] and the result of
    [isExtensionContext()]; neither is defined in the hook's file. *)
Variable minutesToSeconds : Z -> Z.
Variable extensionContext : bool.

(** [saveToLocalStorage(key, value)]: a write, outside the extension
    nothing. *)
Definition saveToLocalStorage (key : string) (v : StorageValue) : Eff Hook unit :=
  when extensionContext (modify (fun h => set_storage (<[key := v]> (storage h)) h)).

(** [getFromLocalStorage<T>(key)]: the value under [key], or [null]. *)
Definition getFromLocalStorage (key : string) : Eff Hook (option StorageValue) :=
  if extensionContext then gets (fun h => storage h !! key) else mret None.

(** [if (intervalRef.current) { clearInterval(intervalRef.current);
    intervalRef.current = null; }] *)
Definition clearIntervalRef : Eff Hook unit :=
  modify (set_intervalRef None).

(** The initial state of the hook for the [settings] of the first render. *)
Definition initial (settings : TimerSettings) (store : gmap string StorageValue) (now : Z) : Hook :=
  mkHook (mkTimerState Focus (minutesToSeconds (focusDuration settings)) false None false)
         settings None now 1%positive store [] [].

(** The effect [settingsRef.current = settings]. *)
Definition settingsChanged (settings : TimerSettings) : Eff Hook unit :=
  modify (set_settingsRef settings).

(** [handleTimerCompletion(currentMode)] (lines 157-190) *)
Definition handleTimerCompletion (now : Z) (currentMode : TimerMode) : Eff Hook TimerState :=
  clearIntervalRef;;
  settings ← gets settingsRef;
  let nextMode := match currentMode with Focus => Break | Break => Focus end in
  let nextDuration :=
    match nextMode with
    | Focus => minutesToSeconds (focusDuration settings)
    | Break => minutesToSeconds (breakDuration settings)
    end in
  match currentMode with
  | Focus => notify PlayBreakStart;; notify (Toast "Focus session complete! Time for a break.")
  | Break => notify PlayFocusStart;; notify (Toast "Break complete! Ready to focus again?")
  end;;
  let newState := mkTimerState nextMode nextDuration false None true in
  saveToLocalStorage TIMER_STATE_KEY (StoredTimerState newState);;
  saveToLocalStorage TIMER_LAST_UPDATE_KEY (StoredNumber now);;
  mret newState.

(** [startTimerInterval()] (lines 130-154): replaces the running interval,
    if any, by a new one. *)
Definition startTimerInterval : Eff Hook unit :=
  id ← gets nextHandle;
  modify (set_nextHandle (Pos.succ id));;
  modify (set_intervalRef (Some id)).

(** One firing of the interval: the updater given to [setTimerState]. *)
Definition intervalTick (now : Z) : Eff Hook unit :=
  r ← gets intervalRef;
  match r with
  | None => mret tt
  | Some _ =>
      prev ← gets timerState;
      if (timeRemaining prev <=? 1)%Z then
        s ← handleTimerCompletion now (mode prev);
        modify (set_timerState s)
      else
        let newState := with_completed false (with_timeRemaining (timeRemaining prev - 1) prev) in
        saveToLocalStorage TIMER_STATE_KEY (StoredTimerState newState);;
        saveToLocalStorage TIMER_LAST_UPDATE_KEY (StoredNumber now);;
        modify (set_timerState newState)
  end.

(** [resetTimer(mode)] (lines 192-213) *)
Definition resetTimer (m : TimerMode) : Eff Hook unit :=
  clearIntervalRef;;
  settings ← gets settingsRef;
  let newState :=
    mkTimerState m
      (match m with
       | Focus => minutesToSeconds (focusDuration settings)
       | Break => minutesToSeconds (breakDuration settings)
       end)
      false None false in
  modify (set_timerState newState).

(** The functions below are created by [useCallback] with [timerState], or
    fields of it, among their dependencies: every render in which that value
    has changed creates them anew, and each of them reads the [timerState]
    of the render that created it.  They take that state as [ts]; state
    updaters [setTimerState((prev) => ...)] and refs read what is current
    when the function runs. *)

(** [startTimer()] (lines 215-231), as created by the render with
    [timerState = ts]. *)
Definition startTimer (ts : TimerState) (now : Z) : Eff Hook unit :=
  if isRunning ts then mret tt
  else if (timeRemaining ts <=? 0)%Z then resetTimer (mode ts)
  else
    let newState := with_completed false (with_isRunning true ts) in
    modify (set_timerState newState);;
    saveToLocalStorage TIMER_STATE_KEY (StoredTimerState newState);;
    saveToLocalStorage TIMER_LAST_UPDATE_KEY (StoredNumber now);;
    startTimerInterval.

(** [pauseTimer()] (lines 233-242), as created by the render with
    [timerState = ts]. *)
Definition pauseTimer (ts : TimerState) : Eff Hook unit :=
  if negb (isRunning ts) then mret tt
  else
    clearIntervalRef;;
    modify (fun h => set_timerState (with_isRunning false (timerState h)) h).

(** [setTimeout(() => startTimer(), 100)] for the [startTimer] of the render
    with [timerState = ts]. *)
Definition setTimeoutStartTimer (ts : TimerState) : Eff Hook unit :=
  modify (fun h => set_timeouts (timeouts h ++ [ts]) h).

(** [selectBreakActivity(activity)] (lines 244-253), as created by the
    render with [timerState = ts]; the [startTimer] it schedules is the one
    of the same render. *)
Definition selectBreakActivity (ts : TimerState) (activity : BreakActivity) : Eff Hook unit :=
  modify (fun h => set_timerState (with_breakActivity activity (timerState h)) h);;
  when (truthyActivity activity && negb (isRunning ts))
    (setTimeoutStartTimer ts).

(** The browser runs the oldest callback scheduled by [setTimeout]; [now] is
    the value of [Date.now()] by then.  All callbacks are scheduled with the
    same delay, so they fire in the order they were scheduled; how much time
    has passed is not part of the model, so that the callback may fire at
    any point after it was scheduled. *)
Definition timeoutFires (now : Z) : Eff Hook unit :=
  q ← gets timeouts;
  match q with
  | [] => mret tt
  | ts :: rest => modify (set_timeouts rest);; startTimer ts now
  end.

(** [updateFocusDuration(minutes)] (lines 255-265), as created by the render
    with [timerState = ts]. *)
Definition updateFocusDuration (ts : TimerState) (minutes : Z) : Eff Hook unit :=
  when (negb (isRunning ts) && bool_decide (mode ts = Focus))
    (modify (fun h => set_timerState (with_timeRemaining (minutesToSeconds minutes) (timerState h)) h)).

(** [updateBreakDuration(minutes)] (lines 267-277), as created by the render
    with [timerState = ts]. *)
Definition updateBreakDuration (ts : TimerState) (minutes : Z) : Eff Hook unit :=
  when (negb (isRunning ts) && bool_decide (mode ts = Break))
    (modify (fun h => set_timerState (with_timeRemaining (minutesToSeconds minutes) (timerState h)) h)).

(** [loadStoredTimerState()] (lines 74-112), run on mount and whenever the
    tab becomes visible; [now] is the value of [Date.now()]. *)
Definition loadStoredTimerState (now : Z) : Eff Hook unit :=
  if negb extensionContext then mret tt
  else
    storedState ← getFromLocalStorage TIMER_STATE_KEY;
    lastUpdate ← getFromLocalStorage TIMER_LAST_UPDATE_KEY;
    storedSettings ← getFromLocalStorage SETTINGS_KEY;
    match storedSettings with
    | Some (StoredSettings c) => modify (set_settingsRef c)
    | _ => mret tt
    end;;
    match storedState, lastUpdate with
    | Some (StoredTimerState st), Some (StoredNumber lu) =>
        if (lu =? 0)%Z then mret tt
        else
          let elapsedSeconds := ((now - lu) / 1000)%Z in
          (if isRunning st then
             let st' := with_timeRemaining (Z.max 0 (timeRemaining st - elapsedSeconds)) st in
             if (timeRemaining st' <=? 0)%Z then
               handleTimerCompletion now (mode st');; mret tt
             else
               modify (set_timerState st');;
               r ← gets intervalRef;
               match r with
               | None => startTimerInterval
               | Some _ => mret tt
               end
           else modify (set_timerState st));;
          modify (set_lastUpdateRef now)
    | _, _ => mret tt
    end.

(** *** Sequences of operations *)

(** The functions that close over [timerState]. *)
Inductive Callback : Type :=
| CallStartTimer (now : Z)
| CallPauseTimer
| CallSelectBreakActivity (activity : BreakActivity)
| CallUpdateFocusDuration (minutes : Z)
| CallUpdateBreakDuration (minutes : Z).

(** A call of such a function, as created by the render with
    [timerState = ts]. *)
Definition callback (ts : TimerState) (c : Callback) : Eff Hook unit :=
  match c with
  | CallStartTimer now => startTimer ts now
  | CallPauseTimer => pauseTimer ts
  | CallSelectBreakActivity a => selectBreakActivity ts a
  | CallUpdateFocusDuration m => updateFocusDuration ts m
  | CallUpdateBreakDuration m => updateBreakDuration ts m
  end.

(** What can happen to the hook: the interval fires, a scheduled callback
    fires, a function the hook returns is called, the stored state is loaded
    again, or the component that uses the hook passes new settings.  A
    component that uses the hook is re-rendered after every change of
    [timerState], so the functions it calls from its handlers are those of
    the latest render: they close over the current [timerState].  [Held]
    stands for the call of a function that some component has kept from an
    earlier render, with whatever [timerState] that render had. *)
Inductive Operation : Type :=
| Tick (now : Z)
| Reset (m : TimerMode)
| Start (now : Z)
| Pause
| Restore (now : Z)
| SelectBreakActivity (activity : BreakActivity)
| UpdateFocusDuration (minutes : Z)
| UpdateBreakDuration (minutes : Z)
| SettingsChanged (settings : TimerSettings)
| Timeout (now : Z)
| Held (ts : TimerState) (c : Callback).

Definition perform (o : Operation) : Eff Hook unit :=
  match o with
  | Tick now => intervalTick now
  | Reset m => resetTimer m
  | Start now => ts ← gets timerState; callback ts (CallStartTimer now)
  | Pause => ts ← gets timerState; callback ts CallPauseTimer
  | Restore now => loadStoredTimerState now
  | SelectBreakActivity a => ts ← gets timerState; callback ts (CallSelectBreakActivity a)
  | UpdateFocusDuration m => ts ← gets timerState; callback ts (CallUpdateFocusDuration m)
  | UpdateBreakDuration m => ts ← gets timerState; callback ts (CallUpdateBreakDuration m)
  | SettingsChanged c => settingsChanged c
  | Timeout now => timeoutFires now
  | Held ts c => callback ts c
  end.

Definition run (ops : list Operation) (h : Hook) : Hook :=
  exec (forEach perform ops) h.

End Hook.

(** Durations are configured as non-negative numbers of minutes. *)
Definition settingsOk (c : TimerSettings) : Prop :=
  (0 <= focusDuration c)%Z /\ (0 <= breakDuration c)%Z.

Definition operationOk (o : Operation) : Prop :=
  match o with
  | UpdateFocusDuration m | UpdateBreakDuration m => (0 <= m)%Z
  | Held _ (CallUpdateFocusDuration m) | Held _ (CallUpdateBreakDuration m) => (0 <= m)%Z
  | SettingsChanged c => settingsOk c
  | _ => True
  end.

(** What the storage may hold under the hook's keys: timer states the hook
    wrote, and settings with non-negative durations. *)
Definition storageOk (m : gmap string StorageValue) : Prop :=
  (forall st, m !! TIMER_STATE_KEY = Some (StoredTimerState st) -> (0 <= timeRemaining st)%Z) /\
  (forall c, m !! SETTINGS_KEY = Some (StoredSettings c) -> settingsOk c).

(** The invariant of the hook: the remaining time is not negative, and
    neither are the durations and stored values it may be reset from. *)
Definition hookOk (h : Hook) : Prop :=
  (0 <= timeRemaining (timerState h))%Z /\
  settingsOk (settingsRef h) /\
  storageOk (storage h).

(** *** Sample inputs *)

Definition sampleSettings : TimerSettings := mkTimerSettings 25 5.

(** A focus timer with 90 s left, running and paused. *)
Definition runningHook : Hook :=
  mkHook (mkTimerState Focus 90 true None false) sampleSettings (Some 1%positive) 0 2 ∅ [] [].

Definition pausedHook : Hook :=
  mkHook (mkTimerState Focus 90 false None false) sampleSettings None 0 2 ∅ [] [].

(** A break of five minutes that has just begun: the focus session is
    complete, no activity is chosen and the timer is not running. *)
Definition breakHook : Hook :=
  mkHook (mkTimerState Break 300 false None true) sampleSettings None 0 1 ∅ [] [].

(** What a tab finds in storage when another one left a break running with
    40 s to go at time 1000000 ms. *)
Definition sampleStore : gmap string StorageValue :=
  <[TIMER_STATE_KEY := StoredTimerState (mkTimerState Break 40 true None false)]>
    (<[TIMER_LAST_UPDATE_KEY := StoredNumber 1000000]>
       (<[SETTINGS_KEY := StoredSettings (mkTimerSettings 1 2)]> ∅)).

End UseTimer.

(** ** The break-length editor ([BreakDurationDialog.tsx]) *)

Module BreakDurationDialog.

Local Open Scope Z_scope.

(** *** [parseInt(text)] *)

Definition code (c : ascii) : Z := Z.of_N (N_of_ascii c).

(** White space and line terminators of one byte: TAB, LF, VT, FF, CR, SP. *)
Definition white1 (c : ascii) : bool :=
  ((9 <=? code c) && (code c <=? 13)) || (code c =? 32).

(** U+00A0 in UTF-8. *)
Definition white2 (c1 c2 : ascii) : bool :=
  (code c1 =? 194) && (code c2 =? 160).

(** U+1680, U+2000..U+200A, U+2028, U+2029, U+202F, U+205F, U+3000 and
    U+FEFF in UTF-8. *)
Definition white3 (c1 c2 c3 : ascii) : bool :=
  let a := code c1 in
  let b := code c2 in
  let c := code c3 in
  ((a =? 225) && (b =? 154) && (c =? 128))
  || ((a =? 226) && (b =? 128) && (((128 <=? c) && (c <=? 138)) || (c =? 168) || (c =? 169) || (c =? 175)))
  || ((a =? 226) && (b =? 129) && (c =? 159))
  || ((a =? 227) && (b =? 128) && (c =? 128))
  || ((a =? 239) && (b =? 187) && (c =? 191)).

(** Removal of leading white space. *)
Fixpoint trimStart (s : string) : string :=
  match s with
  | EmptyString => s
  | String c1 r1 =>
      if white1 c1 then trimStart r1
      else
        match r1 with
        | EmptyString => s
        | String c2 r2 =>
            if white2 c1 c2 then trimStart r2
            else
              match r2 with
              | EmptyString => s
              | String c3 r3 => if white3 c1 c2 c3 then trimStart r3 else s
              end
        end
  end.

(** The value of a digit or letter as a digit. *)
Definition digitValue (c : ascii) : option Z :=
  let n := code c in
  if (48 <=? n) && (n <=? 57) then Some (n - 48)
  else if (97 <=? n) && (n <=? 122) then Some (n - 87)
  else if (65 <=? n) && (n <=? 90) then Some (n - 55)
  else None.

(** The number written by the longest prefix of digits of the radix; [acc]
    is [None] until a digit has been read. *)
Fixpoint digits (radix : Z) (s : string) (acc : option Z) : option Z :=
  match s with
  | EmptyString => acc
  | String c r =>
      match digitValue c with
      | Some d => if d <? radix then digits radix r (Some (radix * default 0 acc + d)) else acc
      | None => acc
      end
  end.

(** The integer that [parseInt(text)], without a radix argument, reads from
    [text]; [None] when it reads none. *)
Definition parseInteger (text : string) : option Z :=
  let s1 := trimStart text in
  let '(sign, s2) :=
    match s1 with
    | String "-" r => (-1, r)
    | String "+" r => (1, r)
    | _ => (1, s1)
    end in
  let '(radix, s3) :=
    match s2 with
    | String "0" (String "x" r) => (16, r)
    | String "0" (String "X" r) => (16, r)
    | _ => (10, s2)
    end in
  Z.mul sign <$> digits radix s3 None.

(** [parseInt(text)]: the number value of that integer, or [NaN]. *)
Definition parseInt (text : string) : JS.Number :=
  match parseInteger text with
  | Some z => JS.ofInteger z
  | None => JS.NaN
  end.

(** *** The component *)

Inductive Call : Type :=
| OnChangeBreakDuration (newDuration : JS.Number)
| ConsoleLog (message : string)
| ToastError (message : string)
| ToastSuccess (message : string).

(** The prop [breakDuration], the three pieces of React state, and the calls
    made so far.  The prop is declared as [number]: it may be any number. *)
Record Dialog : Type := mkDialog {
  breakDuration : JS.Number;
  tempDuration : JS.Number;
  inputValue : string;
  isOpen : bool;
  calls : list Call
}.

Definition setTempDuration (v : JS.Number) : Eff Dialog unit :=
  modify (fun d => mkDialog (breakDuration d) v (inputValue d) (isOpen d) (calls d)).

Definition setInputValue (v : string) : Eff Dialog unit :=
  modify (fun d => mkDialog (breakDuration d) (tempDuration d) v (isOpen d) (calls d)).

Definition setIsOpen (v : bool) : Eff Dialog unit :=
  modify (fun d => mkDialog (breakDuration d) (tempDuration d) (inputValue d) v (calls d)).

Definition call (c : Call) : Eff Dialog unit :=
  modify (fun d => mkDialog (breakDuration d) (tempDuration d) (inputValue d) (isOpen d) (calls d ++ [c])).

(** First render with the prop [b]. *)
Definition initial (b : JS.Number) : Dialog :=
  mkDialog b b (JS.toString b) false [].

(** The prop changes: the effect on [breakDuration] runs. *)
Definition propChanged (b : JS.Number) : Eff Dialog unit :=
  modify (fun d => mkDialog b (tempDuration d) (inputValue d) (isOpen d) (calls d));;
  setTempDuration b;;
  setInputValue (JS.toString b).

Definition decreaseDuration : Eff Dialog unit :=
  t ← gets tempDuration;
  when (JS.gtNumber t (JS.Finite 1))
    (let newValue := JS.subNumber t (JS.Finite 1) in
     setTempDuration newValue;;
     setInputValue (JS.toString newValue)).

Definition increaseDuration : Eff Dialog unit :=
  t ← gets tempDuration;
  when (JS.ltNumber t (JS.Finite 15))
    (let newValue := JS.addNumber t (JS.Finite 1) in
     setTempDuration newValue;;
     setInputValue (JS.toString newValue)).

(** [!isNaN(v) && v >= 1 && v <= 15] *)
Definition valid (v : JS.Number) : bool :=
  negb (JS.isNaN v) && JS.geNumber v (JS.Finite 1) && JS.leNumber v (JS.Finite 15).

Definition handleInputChange (value : string) : Eff Dialog unit :=
  setInputValue value;;
  let parsedValue := parseInt value in
  when (valid parsedValue) (setTempDuration parsedValue).

Definition handleInputBlur : Eff Dialog unit :=
  text ← gets inputValue;
  let newValue := parseInt text in
  if valid newValue then setTempDuration newValue
  else
    t ← gets tempDuration;
    setInputValue (JS.toString t);;
    call (ToastError "Please enter a number between 1 and 15 minutes").

(** [Enter] takes the focus from the input, which runs [handleInputBlur]. *)
Definition handleKeyDown (key : string) : Eff Dialog unit :=
  when (bool_decide (key = "Enter")) handleInputBlur.

(** [Number(tempDuration)] is [tempDuration], which is a number already. *)
Definition handleSave : Eff Dialog unit :=
  t ← gets tempDuration;
  let valueToSave := JS.minNumber (JS.maxNumber (JS.Finite 1) t) (JS.Finite 15) in
  call (ConsoleLog ("Saving break duration: " ++ JS.toString valueToSave ++ " minutes"));;
  call (OnChangeBreakDuration valueToSave);;
  setIsOpen false;;
  call (ToastSuccess ("Break duration set to " ++ JS.toString valueToSave ++ " minute"
                      ++ (if JS.strictNe valueToSave (JS.Finite 1) then "s" else ""))).

Definition resetToProp : Eff Dialog unit :=
  b ← gets breakDuration;
  setTempDuration b;;
  setInputValue (JS.toString b).

Definition handleCancel : Eff Dialog unit :=
  resetToProp;;
  setIsOpen false.

Definition handleOpenChange (open : bool) : Eff Dialog unit :=
  setIsOpen open;;
  when open resetToProp.

(** *** Sequences of interactions *)

Inductive Interaction : Type :=
| Decrease
| Increase
| InputChange (value : string)
| InputBlur
| KeyDown (key : string)
| Save
| Cancel
| OpenChange (open : bool)
| PropChanged (b : JS.Number).

Definition interact (i : Interaction) : Eff Dialog unit :=
  match i with
  | Decrease => decreaseDuration
  | Increase => increaseDuration
  | InputChange v => handleInputChange v
  | InputBlur => handleInputBlur
  | KeyDown k => handleKeyDown k
  | Save => handleSave
  | Cancel => handleCancel
  | OpenChange o => handleOpenChange o
  | PropChanged b => propChanged b
  end.

Definition run (steps : list Interaction) (d : Dialog) : Dialog :=
  exec (forEach interact steps) d.

(** The values passed to [onChangeBreakDuration]. *)
Definition saved (d : Dialog) : list JS.Number :=
  omap (fun c => match c with OnChangeBreakDuration v => Some v | _ => None end) (calls d).

(** The number of times [Save] is pressed. *)
Definition saveCount (steps : list Interaction) : nat :=
  length (List.filter (fun i => match i with Save => true | _ => false end) steps).

(** A whole number of minutes from 1 to 15. *)
Definition wholeInRange (v : JS.Number) : Prop :=
  match v with
  | JS.Finite q => exists z : Z, (1 <= z <= 15)%Z /\ (q == inject_Z z)%Q
  | _ => False
  end.

(** A number from 1 to 15, whole or not. *)
Definition inRange (v : JS.Number) : Prop :=
  match v with
  | JS.Finite q => (1 <= q <= 15)%Q
  | _ => False
  end.

(** A number without a fractional part: a whole number or an infinity. *)
Definition noFraction (v : JS.Number) : Prop :=
  match v with
  | JS.NaN => False
  | JS.Infinity _ => True
  | JS.Finite q => exists z : Z, (q == inject_Z z)%Q
  end.

(** What holds of the prop and of [tempDuration] together. *)
Definition kept (P : JS.Number -> Prop) (d : Dialog) : Prop :=
  P (breakDuration d) /\ P (tempDuration d).

(** The values of the prop [breakDuration] over a sequence of interactions
    that starts with the prop [b]. *)
Definition props (b : JS.Number) (steps : list Interaction) : list JS.Number :=
  b :: omap (fun i => match i with PropChanged b' => Some b' | _ => None end) steps.

End BreakDurationDialog.

(** ** Further definitions

    *** The countdown timer *)

Module UseTimerNotions.
Import UseTimer.

(** The state in which [handleTimerCompletion] leaves a session of mode [m]
    under the settings [c]: the other mode, at its full length, not
    running. *)
Definition nextSession (minutesToSeconds : Z -> Z) (m : TimerMode) (c : TimerSettings) : TimerState :=
  mkTimerState
    (match m with Focus => Break | Break => Focus end)
    (minutesToSeconds (match m with Focus => breakDuration c | Break => focusDuration c end))
    false None true.

(** What [handleTimerCompletion] lets the user hear and see. *)
Definition completionNotices (m : TimerMode) : list Notice :=
  match m with
  | Focus => [PlayBreakStart; Toast "Focus session complete! Time for a break."]
  | Break => [PlayFocusStart; Toast "Break complete! Ready to focus again?"]
  end.

(** The operations whose code contains a call of [saveToLocalStorage]. *)
Definition saves (o : Operation) : bool :=
  match o with
  | Tick _ | Start _ | Restore _ | Timeout _ | Held _ (CallStartTimer _) => true
  | _ => false
  end.

End UseTimerNotions.

(** *** The break-length editor *)

Module BreakDurationDialogNotions.
Import BreakDurationDialog.

Local Open Scope Z_scope.

(** A whole number of minutes, as a number. *)
Definition minutes (z : Z) : JS.Number := JS.Finite (inject_Z z).

(** The lengths the dialog is made for: 1, 2, ..., 15 minutes. *)
Definition wholeMinutes (v : JS.Number) : Prop :=
  exists z : Z, 1 <= z <= 15 /\ v = minutes z.

(** Every value the parent passes as [breakDuration] is one of them. *)
Definition propsInRange (steps : list Interaction) : Prop :=
  Forall (fun i => match i with PropChanged b => wholeMinutes b | _ => True end) steps.

(** Whether a text begins with a decimal digit. *)
Definition startsWithDigit (r : string) : bool :=
  match r with
  | String c _ => match digitValue c with Some v => v <? 10 | None => false end
  | EmptyString => false
  end.

End BreakDurationDialogNotions.

(** *** The platformer component *)

Module PlatformerGameEffects.
Import PlatformerGame.

Section Component.

Context {World : Type} (updateGame : World -> World).

(** The game-loop effect runs again, for the render [p], when one of its
    dependencies [gameStarted], [gameState.gameOver] or [updateGame] has
    changed: first the cleanup of the previous run, then the body. *)
Definition rerunGameLoopEffect (p : Render) (ctxReady : bool) : Eff (State World) unit :=
  cancelGameLoop;;
  gameLoopEffect p ctxReady.

End Component.

End PlatformerGameEffects.
(** *** The 2d context of the canvas *)

Module CanvasState.
Import Canvas.

(** A full circle: centre and radius. *)
Definition Circle : Type := (Q * Q * Q)%type.

(** The part of the drawing state that the coin renderer touches; it is
    what [ctx.save()] pushes and [ctx.restore()] pops.  The clipping region
    is the intersection of the listed circles. *)
Record Drawing : Type := mkDrawing {
  fillStyle : string;
  strokeStyle : string;
  lineWidth : Q;
  imageSmoothingEnabled : bool;
  imageSmoothingQuality : string;
  clipRegion : list Circle
}.

(** What reaches the bitmap. *)
Inductive Paint : Type :=
| Filled (path : list Circle) (style : string)
| Stroked (path : list Circle) (style : string) (w : Q)
| Painted (imageIndex : nat) (dx dy dw dh : Q) (clip : list Circle) (smoothing : bool) (quality : string).

(** The context: drawing state, stack of saved states, current path (not
    part of the drawing state), and what has been painted. *)
Record Context : Type := mkContext {
  drawing : Drawing;
  stack : list Drawing;
  path : list Circle;
  painted : list Paint
}.

Definition set_drawing (d : Drawing) (c : Context) : Context :=
  mkContext d (stack c) (path c) (painted c).

Definition paint (p : Paint) (c : Context) : Context :=
  mkContext (drawing c) (stack c) (path c) (painted c ++ [p]).

(** One operation on the context.  [restore()] with nothing saved does
    nothing. *)
Definition perform (o : Op) (c : Context) : Context :=
  let d := drawing c in
  match o with
  | SetFillStyle colour =>
      set_drawing (mkDrawing colour (strokeStyle d) (lineWidth d) (imageSmoothingEnabled d)
                     (imageSmoothingQuality d) (clipRegion d)) c
  | SetStrokeStyle colour =>
      set_drawing (mkDrawing (fillStyle d) colour (lineWidth d) (imageSmoothingEnabled d)
                     (imageSmoothingQuality d) (clipRegion d)) c
  | SetLineWidth w =>
      set_drawing (mkDrawing (fillStyle d) (strokeStyle d) w (imageSmoothingEnabled d)
                     (imageSmoothingQuality d) (clipRegion d)) c
  | SetImageSmoothingEnabled b =>
      set_drawing (mkDrawing (fillStyle d) (strokeStyle d) (lineWidth d) b
                     (imageSmoothingQuality d) (clipRegion d)) c
  | SetImageSmoothingQuality q =>
      set_drawing (mkDrawing (fillStyle d) (strokeStyle d) (lineWidth d) (imageSmoothingEnabled d)
                     q (clipRegion d)) c
  | BeginPath => mkContext d (stack c) [] (painted c)
  | Arc cx cy r => mkContext d (stack c) (path c ++ [(cx, cy, r)]) (painted c)
  | Fill => paint (Filled (path c) (fillStyle d)) c
  | Stroke => paint (Stroked (path c) (strokeStyle d) (lineWidth d)) c
  | Clip =>
      set_drawing (mkDrawing (fillStyle d) (strokeStyle d) (lineWidth d) (imageSmoothingEnabled d)
                     (imageSmoothingQuality d) (clipRegion d ++ path c)) c
  | Save => mkContext d (d :: stack c) (path c) (painted c)
  | Restore =>
      match stack c with
      | d' :: rest => mkContext d' rest (path c) (painted c)
      | [] => c
      end
  | DrawImage k dx dy dw dh =>
      paint (Painted k dx dy dw dh (clipRegion d) (imageSmoothingEnabled d) (imageSmoothingQuality d)) c
  end.

Definition run (ops : list Op) (c : Context) : Context :=
  fold_left (fun c o => perform o c) ops c.

(** The disc of a coin on screen: its centre, and half of its width
    enlarged by [scaleFactor]. *)
Definition disc (cameraOffsetX : Q) (coin : Coin) : Circle :=
  ((x coin - cameraOffsetX + width coin / 2)%Q,
   (y coin + height coin / 2)%Q,
   (width coin * (3 # 2) / 2)%Q).

(** The same disc, 1 px smaller. *)
Definition innerDisc (cameraOffsetX : Q) (coin : Coin) : Circle :=
  ((x coin - cameraOffsetX + width coin / 2)%Q,
   (y coin + height coin / 2)%Q,
   (width coin * (3 # 2) / 2 - 1)%Q).

(** The drawing state with the colours and the line width of a coin. *)
Definition coinStyle (d : Drawing) : Drawing :=
  mkDrawing "#FFD746" "#FFD746" 2 (imageSmoothingEnabled d) (imageSmoothingQuality d) (clipRegion d).

(** A coin on the bitmap: a filled disc, image [k] (when [image] holds) in
    the coin's enlarged box, cut to the inner disc, and an outline. *)
Definition coinPaints (d : Drawing) (smoothing : bool) (quality : string) (image : bool)
    (k : nat) (cameraOffsetX : Q) (coin : Coin) : list Paint :=
  let '(cx, cy, _) := disc cameraOffsetX coin in
  let w := (width coin * (3 # 2))%Q in
  let h := (height coin * (3 # 2))%Q in
  [Filled [disc cameraOffsetX coin] "#FFD746"]
  ++ (if image
      then [Painted k (cx - w / 2) (cy - h / 2) w h
              (clipRegion d ++ [innerDisc cameraOffsetX coin]) smoothing quality]
      else [])
  ++ [Stroked [disc cameraOffsetX coin] "#FFD746" 2].

(** The two properties [imageSmoothingEnabled] and [imageSmoothingQuality]. *)
Definition isSmoothing (o : Op) : bool :=
  match o with
  | SetImageSmoothingEnabled _ | SetImageSmoothingQuality _ => true
  | _ => false
  end.


End CanvasState.

(** *** The page ([Index]) and the background script *)

Module Index.
Import UseTimer.

(** Messages to the background script ([chrome.runtime.sendMessage]). *)
Inductive Message : Type :=
| UpdateSettings (settings : TimerSettings).

(** The state of the page: its three React states, the timer hook it
    uses, and the messages sent. *)
Record Page : Type := mkPage {
  settings : TimerSettings;
  isTimerOpen : bool;
  isChatOpen : bool;
  timer : Hook;
  sent : list Message
}.

Definition set_settings (c : TimerSettings) (p : Page) : Page :=
  mkPage c (isTimerOpen p) (isChatOpen p) (timer p) (sent p).

Definition set_isTimerOpen (b : bool) (p : Page) : Page :=
  mkPage (settings p) b (isChatOpen p) (timer p) (sent p).

Definition set_isChatOpen (b : bool) (p : Page) : Page :=
  mkPage (settings p) (isTimerOpen p) b (timer p) (sent p).

Definition set_timer (h : Hook) (p : Page) : Page :=
  mkPage (settings p) (isTimerOpen p) (isChatOpen p) h (sent p).

Definition sendMessage (m : Message) : Eff Page unit :=
  modify (fun p => mkPage (settings p) (isTimerOpen p) (isChatOpen p) (timer p) (sent p ++ [m])).

(** A computation of the hook, run on the hook of the page. *)
Definition useTimer {A : Type} (m : Eff Hook A) : Eff Page A :=
  fun p => let (a, h) := m (timer p) in (a, set_timer h p).

(** What the component returns: the game alone, or the page with the chat
    bubble, the floating timer and, when open, the timer popup with the
    panel of the current mode. *)
Inductive View : Type :=
| GameView
| PageView (chat : bool) (timerPopup : bool) (panel : TimerMode).

Definition view (p : Page) : View :=
  let ts := timerState (timer p) in
  if bool_decide (mode ts = Break) && bool_decide (breakActivity ts = Some "game")
  then GameView
  else PageView (isChatOpen p) (isTimerOpen p) (mode ts).

Section Component.

Variable minutesToSeconds : Z -> Z.
Variable extensionContext : bool.

Definition openTimerPopup : Eff Page unit :=
  modify (set_isTimerOpen true);;
  modify (set_isChatOpen false).

Definition closeTimerPopup : Eff Page unit :=
  modify (set_isTimerOpen false).

Definition handleOpenChat : Eff Page unit :=
  modify (set_isChatOpen true);;
  modify (set_isTimerOpen false).

Definition handleCloseChat : Eff Page unit :=
  modify (set_isChatOpen false).

(** The effect with dependencies [timerState.mode] and
    [timerState.completed]: after a render in which one of the two differs
    from the render [before], its body runs. *)
Definition completionEffect (before : TimerState) : Eff Page unit :=
  ts ← gets (fun p => timerState (timer p));
  when (negb (bool_decide (mode ts = mode before) && Bool.eqb (completed ts) (completed before)))
    (when (bool_decide (mode ts = Break) && completed ts) openTimerPopup).

(** Whether the body of that effect opens the popup. *)
Definition opens (before after : TimerState) : bool :=
  negb (bool_decide (mode after = mode before) && Bool.eqb (completed after) (completed before))
  && (bool_decide (mode after = Break) && completed after).

(** An operation of the hook, and the render that follows it. *)
Definition withTimer (m : Eff Hook unit) : Eff Page unit :=
  before ← gets (fun p => timerState (timer p));
  useTimer m;;
  completionEffect before.

(** [handleFocusDurationChange] and [handleBreakDurationChange]: the new
    settings object makes the hook's effect [settingsRef.current = settings]
    run in the render that follows; the settings are then saved and the
    background script is told. *)
Definition changeSettings (newSettings : TimerSettings) (update : Eff Hook unit) : Eff Page unit :=
  modify (set_settings newSettings);;
  withTimer update;;
  useTimer (settingsChanged newSettings);;
  when extensionContext
    (useTimer (saveToLocalStorage extensionContext SETTINGS_KEY (StoredSettings newSettings));;
     sendMessage (UpdateSettings newSettings)).

Definition handleFocusDurationChange (newDuration : Z) : Eff Page unit :=
  c ← gets settings;
  changeSettings (mkTimerSettings newDuration (breakDuration c))
                 (perform minutesToSeconds extensionContext (UpdateFocusDuration newDuration)).

Definition handleBreakDurationChange (newDuration : Z) : Eff Page unit :=
  c ← gets settings;
  changeSettings (mkTimerSettings (focusDuration c) newDuration)
                 (perform minutesToSeconds extensionContext (UpdateBreakDuration newDuration)).

(** [handleStartTimer]: the popup is closed in focus mode. *)
Definition handleStartTimer (now : Z) : Eff Page unit :=
  before ← gets (fun p => timerState (timer p));
  useTimer (perform minutesToSeconds extensionContext (Start now));;
  when (bool_decide (mode before = Focus)) closeTimerPopup;;
  completionEffect before.

Definition handleReturnFromGame : Eff Page unit :=
  withTimer (perform minutesToSeconds extensionContext (SelectBreakActivity None)).

(** [loadSettings], the effect run on mount. *)
Definition loadSettings : Eff Page unit :=
  when extensionContext
    (stored ← useTimer (getFromLocalStorage extensionContext SETTINGS_KEY);
     match stored with
     | Some (StoredSettings c) =>
         modify (set_settings c);;
         useTimer (settingsChanged c)
     | _ => mret tt
     end).

(** What happens on the page: clicks, and the events of the timer.  The
    handlers call the functions that the hook returned in the latest
    render.  [ScheduledStart now] is the firing of a call of [startTimer]
    that [selectBreakActivity] has scheduled. *)
Inductive Action : Type :=
| OpenTimerPopup
| CloseTimerPopup
| OpenChat
| CloseChat
| StartTimer (now : Z)
| PauseTimer
| ResetTimer
| SelectActivity (activity : BreakActivity)
| ScheduledStart (now : Z)
| ReturnFromGame
| ChangeFocusDuration (minutes : Z)
| ChangeBreakDuration (minutes : Z)
| IntervalFires (now : Z)
| TabVisible (now : Z).

Definition act (a : Action) : Eff Page unit :=
  match a with
  | OpenTimerPopup => openTimerPopup
  | CloseTimerPopup => closeTimerPopup
  | OpenChat => handleOpenChat
  | CloseChat => handleCloseChat
  | StartTimer now => handleStartTimer now
  | PauseTimer => withTimer (perform minutesToSeconds extensionContext Pause)
  | ResetTimer =>
      m ← gets (fun p => mode (timerState (timer p)));
      withTimer (resetTimer minutesToSeconds m)
  | SelectActivity activity =>
      withTimer (perform minutesToSeconds extensionContext (SelectBreakActivity activity))
  | ScheduledStart now => withTimer (perform minutesToSeconds extensionContext (Timeout now))
  | ReturnFromGame => handleReturnFromGame
  | ChangeFocusDuration minutes => handleFocusDurationChange minutes
  | ChangeBreakDuration minutes => handleBreakDurationChange minutes
  | IntervalFires now => withTimer (intervalTick minutesToSeconds extensionContext now)
  | TabVisible now => withTimer (loadStoredTimerState minutesToSeconds extensionContext now)
  end.

Definition run (actions : list Action) (p : Page) : Page :=
  exec (forEach act actions) p.

End Component.

(** The timer popup and the chat are not both open. *)
Definition exclusive (p : Page) : Prop := isTimerOpen p && isChatOpen p = false.

(** A page in focus mode, 2 s before the session ends, with the chat open. *)
Definition samplePage : Page :=
  mkPage sampleSettings false true
    (mkHook (mkTimerState Focus 2 true None false) sampleSettings (Some 1%positive) 0 2 ∅ [] [])
    [].

End Index.

(** The background script, as far as it writes the settings. *)
Module Background.
Import UseTimer.

(** The listener of [chrome.runtime.onInstalled]: default settings and a
    default timer state are stored unless present. *)
Definition onInstalled (store : gmap string StorageValue) : gmap string StorageValue :=
  let store1 :=
    match store !! "focusflow_settings" with
    | Some _ => store
    | None => <["focusflow_settings" := StoredSettings (mkTimerSettings (25 * 60) (5 * 60))]> store
    end in
  match store1 !! "focusflow_timer_state" with
  | Some _ => store1
  | None =>
      <["focusflow_timer_state" := StoredTimerState (mkTimerState Focus (25 * 60) false None false)]>
        store1
  end.

End Background.

(** *** Storage, broadcasts and sounds ([chromeUtils]) *)

Module ChromeUtils.

Local Open Scope Z_scope.

(** **** [debounce(func, wait)] *)

Section Debounce.

(** The arguments of [func]. *)
Context {A : Type}.

(** One debounced function: its closure variable [timeout], the timers it
    has pending in the browser (handle, time due, arguments of the call that
    set it), the handle counter, and the invocations of [func] so far with
    their times. *)
Record Debounced : Type := mkDebounced {
  timeout : option positive;
  timers : list (positive * Z * A);
  nextTimeout : positive;
  invoked : list (Z * A)
}.

Definition clearTimeout (id : positive) : Eff Debounced unit :=
  modify (fun d => mkDebounced (timeout d)
                     (List.filter (fun t => negb (Pos.eqb t.1.1 id)) (timers d))
                     (nextTimeout d) (invoked d)).

Definition setTimeout (due : Z) (args : A) : Eff Debounced positive :=
  id ← gets nextTimeout;
  modify (fun d => mkDebounced (timeout d) (timers d ++ [(id, due, args)]) (Pos.succ id) (invoked d));;
  mret id.

(** The function that [debounce] returns, called at time [now]. *)
Definition debounced (wait : Z) (now : Z) (args : A) : Eff Debounced unit :=
  t ← gets timeout;
  match t with
  | Some id => clearTimeout id
  | None => mret tt
  end;;
  id ← setTimeout (now + wait) args;
  modify (fun d => mkDebounced (Some id) (timers d) (nextTimeout d) (invoked d)).

(** The browser at time [now]: the timers that are due run, in the order in
    which they were set, and are gone. *)
Definition runTimers (now : Z) : Eff Debounced unit :=
  modify (fun d => mkDebounced (timeout d)
                     (List.filter (fun t => negb (t.1.2 <=? now)) (timers d))
                     (nextTimeout d)
                     (invoked d ++ ((fun t => (now, t.2)) <$> List.filter (fun t => t.1.2 <=? now) (timers d)))).

(** A call at time [now]: timers due by then have run. *)
Definition callAt (wait : Z) (c : Z * A) : Eff Debounced unit :=
  runTimers c.1;;
  debounced wait c.1 c.2.

(** The calls none of which is followed by another one before its timer is
    due. *)
Fixpoint survivors (wait : Z) (calls : list (Z * A)) : list A :=
  match calls with
  | [] => []
  | c :: rest =>
      match rest with
      | [] => [c.2]
      | c' :: _ => if c.1 + wait <=? c'.1 then c.2 :: survivors wait rest else survivors wait rest
      end
  end.

(** Consecutive calls are less than [wait] apart. *)
Fixpoint burst (wait : Z) (calls : list (Z * A)) : Prop :=
  match calls with
  | [] => True
  | c :: rest =>
      match rest with
      | [] => True
      | c' :: _ => c'.1 < c.1 + wait /\ burst wait rest
      end
  end.

(** One timer is pending, set by the call [c], and [timeout] holds its
    handle. *)
Definition armed (wait : Z) (c : Z * A) (d : Debounced) : Prop :=
  exists id, timers d = [(id, c.1 + wait, c.2)] /\ timeout d = Some id.

End Debounce.

Arguments Debounced : clear implicits.

(** **** [saveToLocalStorage] and the broadcast *)

Section Tab.

(** The values that are stored. *)
Context {V : Type}.

(** The message of [debouncedBroadcast]; its action is ['stateChange']. *)
Record Message : Type := mkMessage {
  key : string;
  value : V;
  timestamp : Z;
  sender : string
}.

(** A tab: [globalThis.tabId], the extension's local storage, and the
    module's one [debouncedBroadcast]. *)
Record Tab : Type := mkTab {
  tabId : string;
  local : gmap string V;
  broadcast : Debounced (string * V)
}.

(** The result of [isExtensionContext()]. *)
Variable extensionContext : bool.

Definition onBroadcast {B : Type} (m : Eff (Debounced (string * V)) B) : Eff Tab B :=
  fun t => let (b, d) := m (broadcast t) in (b, mkTab (tabId t) (local t) d).

(** [saveToLocalStorage(key, value)], [now] being the time at which the
    storage reports that the value has been written.  A storage that
    reports an error is not part of the model. *)
Definition saveToLocalStorage (s : Z * (string * V)) : Eff Tab unit :=
  when extensionContext
    (modify (fun t => mkTab (tabId t) (<[s.2.1 := s.2.2]> (local t)) (broadcast t));;
     onBroadcast (callAt 250 s)).

(** Time passes until [now]. *)
Definition elapse (now : Z) : Eff Tab unit :=
  onBroadcast (runTimers now).

(** The messages sent by the function that [debouncedBroadcast] wraps: one
    for each invocation, inside the extension. *)
Definition sentMessages (t : Tab) : list Message :=
  if extensionContext
  then (fun i => mkMessage i.2.1 i.2.2 i.1 (tabId t)) <$> invoked (broadcast t)
  else [].

End Tab.

Arguments Message : clear implicits.
Arguments Tab : clear implicits.

(** **** [playSingleAudio] *)

(** The flag stored under [audio_playing_<id>]. *)
Record AudioFlag : Type := mkAudioFlag {
  playing : bool;
  flagTimestamp : Z;
  flagTabId : string
}.

(** What [playSingleAudio] works on: the tab's id and its map
    [audioPlayTimes], the flags in the storage shared by all tabs ([None] is
    a stored [null]), the sounds started with their times, and the flags to
    be cleared with the times at which that is due. *)
Record Player : Type := mkPlayer {
  playerTabId : string;
  audioPlayTimes : gmap string Z;
  flags : gmap string (option AudioFlag);
  played : list (string * Z);
  cleanups : list (string * Z)
}.

Definition AUDIO_THROTTLE_MS : Z := 3000.

(** [audioPlayTimes.get(audioId) || 0] *)
Definition lastPlayTime (audioId : string) (p : Player) : Z :=
  default 0 (audioPlayTimes p !! audioId).

(** [playSingleAudio(audioElement, audioId)] called at time [now], run to
    its end before anything else happens.  [element] tells whether
    [audioElement] is not [null], [plays] whether [audioElement.play()]
    succeeds, [extensionContext] the result of [isExtensionContext()]. *)
Definition playSingleAudio (extensionContext : bool) (element plays : bool)
    (audioId : string) (now : Z) (p : Player) : Player :=
  if negb element then p
  else if now - lastPlayTime audioId p <? AUDIO_THROTTLE_MS then p
  else if negb extensionContext then
    mkPlayer (playerTabId p) (<[audioId := now]> (audioPlayTimes p)) (flags p)
      (if plays then played p ++ [(audioId, now)] else played p) (cleanups p)
  else
    let audioFlagKey := ("audio_playing_" ++ audioId)%string in
    let p1 := mkPlayer (playerTabId p) (audioPlayTimes p)
                (<[audioFlagKey := Some (mkAudioFlag true now (playerTabId p))]> (flags p))
                (played p) (cleanups p) in
    match flags p1 !! audioFlagKey with
    | Some (Some currentState) =>
        if bool_decide (flagTabId currentState = playerTabId p1) then
          if plays then
            mkPlayer (playerTabId p1) (<[audioId := now]> (audioPlayTimes p1)) (flags p1)
              (played p1 ++ [(audioId, now)]) (cleanups p1 ++ [(audioFlagKey, now + 1000)])
          else p1
        else p1
    | _ => p1
    end.

(** A call of [playSingleAudio]. *)
Record PlayCall : Type := mkPlayCall {
  callElement : bool;
  callPlays : bool;
  callAudioId : string;
  callNow : Z
}.

Definition playAll (extensionContext : bool) (calls : list PlayCall) (p : Player) : Player :=
  fold_left (fun q c => playSingleAudio extensionContext (callElement c) (callPlays c)
                          (callAudioId c) (callNow c) q) calls p.

(** Every sound started is at least 3000 ms after the one before it with
    the same id. *)
Definition throttled (log : list (string * Z)) : Prop :=
  forall (i j : nat) (audioId : string) (t t' : Z),
    (i < j)%nat ->
    log !! i = Some (audioId, t) ->
    log !! j = Some (audioId, t') ->
    t + AUDIO_THROTTLE_MS <= t'.

(** A tab that has played nothing yet. *)
Definition freshPlayer (id : string) (shared : gmap string (option AudioFlag)) : Player :=
  mkPlayer id ∅ shared [] [].

End ChromeUtils.

(** *** The chat ([ChatInterface]) *)

Module ChatInterface.

(** A JavaScript string: its UTF-16 code units. *)
Definition Text : Type := list N.

(** A literal of ASCII characters. *)
Definition text (s : string) : Text :=
  N_of_ascii <$> list_ascii_of_string s.

(** White space and line terminators, which [trim()] removes. *)
Definition isWhiteSpace (u : N) : bool :=
  ((9 <=? u) && (u <=? 13) || (u =? 32) || (u =? 160) || (u =? 5760)
   || (8192 <=? u) && (u <=? 8202) || (u =? 8232) || (u =? 8233) || (u =? 8239)
   || (u =? 8287) || (u =? 12288) || (u =? 65279))%N.

Fixpoint trimStart (s : Text) : Text :=
  match s with
  | u :: rest => if isWhiteSpace u then trimStart rest else s
  | [] => []
  end.

(** [s.trim()] *)
Definition trim (s : Text) : Text :=
  rev (trimStart (rev (trimStart s))).

Inductive Role : Type := User | Assistant.

Record ChatMessage : Type := mkChatMessage {
  role : Role;
  content : Text;
  timestamp : Z
}.

Record ChatConversation : Type := mkChatConversation {
  id : string;
  title : Text;
  messages : list ChatMessage;
  createdAt : Z
}.

(** The React state of the component, as far as the conversations go. *)
Record Chat : Type := mkChat {
  input : Text;
  conversations : list ChatConversation;
  activeConversationId : option string;
  isLoading : bool;
  errorCount : nat
}.

Definition set_input (v : Text) (s : Chat) : Chat :=
  mkChat v (conversations s) (activeConversationId s) (isLoading s) (errorCount s).

Definition set_conversations (v : list ChatConversation) (s : Chat) : Chat :=
  mkChat (input s) v (activeConversationId s) (isLoading s) (errorCount s).

Definition set_activeConversationId (v : option string) (s : Chat) : Chat :=
  mkChat (input s) (conversations s) v (isLoading s) (errorCount s).

Definition set_isLoading (v : bool) (s : Chat) : Chat :=
  mkChat (input s) (conversations s) (activeConversationId s) v (errorCount s).

Definition set_errorCount (v : nat) (s : Chat) : Chat :=
  mkChat (input s) (conversations s) (activeConversationId s) (isLoading s) v.

Definition getInitialWelcomeMessage (now : Z) : ChatMessage :=
  mkChatMessage Assistant (text "Hi there! I'm your AI assistant. How can I help you today?") now.

(** [getChatTitle(content)] *)
Definition getChatTitle (content : Text) : Text :=
  let maxLength := 30%nat in
  if (maxLength <? length content)%nat
  then take maxLength content ++ text "..."
  else content.

(** Truthiness of [activeConversationId]: neither [null] nor the empty
    string. *)
Definition truthyId (v : option string) : bool :=
  match v with
  | Some (String _ _) => true
  | _ => false
  end.

(** [conversations.find(c => c.id === activeConversationId)] *)
Definition activeConversation (s : Chat) : option ChatConversation :=
  List.find (fun c => bool_decide (Some (id c) = activeConversationId s)) (conversations s).

(** [createNewConversation()]; [newId] is the value of [uuidv4()] and [now]
    the time. *)
Definition createNewConversation (newId : string) (now : Z) : Eff Chat unit :=
  let newConversation :=
    mkChatConversation newId (text "New Conversation") [getInitialWelcomeMessage now] now in
  modify (fun s => set_conversations (newConversation :: conversations s) s);;
  modify (set_activeConversationId (Some newId));;
  modify (set_input []).

Definition handleSelectConversation (target : string) : Eff Chat unit :=
  modify (set_activeConversationId (Some target)).

(** [handleDeleteConversation(id)]: the updater filters the list that is
    current when it runs; the test and [remaining] use the values of the
    render, which is the latest one. *)
Definition handleDeleteConversation (target : string) (newId : string) (now : Z) : Eff Chat unit :=
  rendered ← gets (fun s => s);
  modify (fun s => set_conversations
                     (List.filter (fun c => negb (bool_decide (id c = target))) (conversations s)) s);;
  when (bool_decide (Some target = activeConversationId rendered))
    (let remaining :=
       List.filter (fun c => negb (bool_decide (id c = target))) (conversations rendered) in
     match remaining with
     | c :: _ => modify (set_activeConversationId (Some (id c)))
     | [] => createNewConversation newId now
     end).

(** The effect with dependency [conversations.length]: it runs after a
    render in which the length differs from that of the render [before]. *)
Definition ensureConversation (before : Chat) (newId : string) (now : Z) : Eff Chat unit :=
  s ← gets (fun s => s);
  when (negb (length (conversations s) =? length (conversations before))%nat)
    (when (length (conversations s) =? 0)%nat (createNewConversation newId now)).

(** [updateConversationTitle(id, content)]; the id may be [null]. *)
Definition updateConversationTitle (target : option string) (c : Text) : Eff Chat unit :=
  modify (fun s => set_conversations
    ((fun conv =>
        if bool_decide (Some (id conv) = target)
        then mkChatConversation (id conv) (getChatTitle c) (messages conv) (createdAt conv)
        else conv) <$> conversations s) s).

(** [updateConversationMessages(id, newMessages)] *)
Definition updateConversationMessages (target : option string) (newMessages : list ChatMessage)
    : Eff Chat unit :=
  modify (fun s => set_conversations
    ((fun conv =>
        if bool_decide (Some (id conv) = target)
        then mkChatConversation (id conv) (title conv) newMessages (createdAt conv)
        else conv) <$> conversations s) s).

(** What a call of [handleSubmit] that is waiting for the answer holds on
    to: the [activeConversationId], [updatedMessages] and [errorCount] of
    its render. *)
Record Pending : Type := mkPending {
  pendingId : option string;
  updatedMessages : list ChatMessage;
  pendingErrors : nat
}.

(** [handleSubmit], up to the first [await]. *)
Definition handleSubmit (newId : string) (now : Z) : Eff Chat (option Pending) :=
  rendered ← gets (fun s => s);
  let trimmed := trim (input rendered) in
  match trimmed with
  | [] => mret None
  | _ :: _ =>
      when (negb (truthyId (activeConversationId rendered))) (createNewConversation newId now);;
      let userMessage := mkChatMessage User trimmed now in
      let currentMessages :=
        match activeConversation rendered with
        | Some c => messages c
        | None => []
        end in
      match currentMessages with
      | [m] =>
          match role m with
          | Assistant => updateConversationTitle (activeConversationId rendered) trimmed
          | User => mret tt
          end
      | _ => mret tt
      end;;
      let updated := currentMessages ++ [userMessage] in
      updateConversationMessages (activeConversationId rendered) updated;;
      modify (set_input []);;
      modify (set_isLoading true);;
      mret (Some (mkPending (activeConversationId rendered) updated (errorCount rendered)))
  end.

(** The rest of [handleSubmit]: the answer has arrived ([Some aiContent]),
    or the request has failed. *)
Definition handleAnswer (p : Pending) (answer : option Text) (now : Z) : Eff Chat unit :=
  match answer with
  | Some aiContent =>
      updateConversationMessages (pendingId p)
        (updatedMessages p ++ [mkChatMessage Assistant aiContent now]);;
      when (0 <? pendingErrors p)%nat (modify (set_errorCount 0))
  | None =>
      modify (fun s => set_errorCount (S (errorCount s)) s);;
      updateConversationMessages (pendingId p)
        (updatedMessages p
         ++ [mkChatMessage Assistant
               (text "I'm having trouble connecting. Let me try to answer with what I know.") now])
  end;;
  modify (set_isLoading false).

(** Whether a conversation holds the welcome message and nothing else, in
    which case [handleSubmit] names it after the message sent. *)
Definition untitled (c : ChatConversation) : bool :=
  match messages c with
  | [m] => match role m with Assistant => true | User => false end
  | _ => false
  end.

(** A conversation after an exchange: it is named after the question if
    [named] holds, and holds [ms]. *)
Definition exchanged (a : string) (named : bool) (question : Text) (ms : list ChatMessage)
    (conv : ChatConversation) : ChatConversation :=
  if bool_decide (id conv = a)
  then mkChatConversation (id conv) (if named then getChatTitle question else title conv) ms
         (createdAt conv)
  else conv.

(** What happens in the chat. *)
Inductive Action : Type :=
| NewConversation (newId : string) (now : Z)
| Select (target : string)
| Delete (target : string) (newId : string) (now : Z)
| Typed (value : Text)
| Submit (newId : string) (now : Z)
| Answer (p : Pending) (answer : option Text) (now : Z).

(** A handler, and the effect of the render after it. *)
Definition act (a : Action) : Eff Chat unit :=
  match a with
  | NewConversation newId now => createNewConversation newId now
  | Select target => handleSelectConversation target
  | Delete target newId now =>
      before ← gets (fun s => s);
      handleDeleteConversation target newId now;;
      ensureConversation before newId now
  | Typed value => modify (set_input value)
  | Submit newId now => handleSubmit newId now;; mret tt
  | Answer p answer now => handleAnswer p answer now
  end.

Definition run (actions : list Action) (s : Chat) : Chat :=
  exec (forEach act actions) s.

(** The ids of the conversations listed. *)
Definition ids (s : Chat) : list string := id <$> conversations s.

(** The conversations have distinct ids, and the active one is among
    them. *)
Definition wellFormed (s : Chat) : Prop :=
  NoDup (ids s) /\ exists a, activeConversationId s = Some a /\ a ∈ ids s.

(** What the user interface and [uuidv4] allow: a conversation that is
    selected is one of the list, and an id that is generated is new. *)
Definition allowed (s : Chat) (a : Action) : Prop :=
  match a with
  | NewConversation newId _ => newId ∉ ids s
  | Select target => target ∈ ids s
  | Delete _ newId _ => newId ∉ ids s
  | Typed _ => True
  | Submit newId _ => newId ∉ ids s
  | Answer _ _ _ => True
  end.

Fixpoint permitted (actions : list Action) (s : Chat) : Prop :=
  match actions with
  | [] => True
  | a :: rest => allowed s a /\ permitted rest (exec (act a) s)
  end.

(** A chat with two conversations, the first of them active and new. *)
Definition sampleChat : Chat :=
  mkChat (text "  How do I stay focused for a whole afternoon?  ")
    [mkChatConversation "c2" (text "New Conversation") [getInitialWelcomeMessage 2000] 2000;
     mkChatConversation "c1" (text "Breaks")
       [getInitialWelcomeMessage 1000; mkChatMessage User (text "Breaks") 1100;
        mkChatMessage Assistant (text "Take one every 25 minutes.") 1200] 1000]
    (Some "c2"%string) false 0.

End ChatInterface.

(** *** The API key and the requests to OpenAI ([openaiUtils], [ApiKeyDialog]) *)

Module OpenAI.
Import ChatInterface.

Local Open Scope Z_scope.

(** Truthiness of a string or [null]. *)
Definition truthy (k : option string) : bool :=
  match k with
  | Some (String _ _) => true
  | _ => false
  end.

(** What leaves the page. *)
Inductive Request : Type :=
| FirestoreRead
| ChatCompletion (key : string) (message : Text)
| ListModels (key : string)
| ServerChat (message : Text).

Inductive Toast : Type :=
| Success (message : string)
| Error (message : string)
| Info (message : string).

(** The module variables [cachedApiKey] and [lastFetchTime], the page's
    [localStorage], the requests made and the toasts shown. *)
Record Client : Type := mkClient {
  cachedApiKey : option string;
  lastFetchTime : Z;
  localStorage : gmap string string;
  requests : list Request;
  toasts : list Toast
}.

Definition set_cachedApiKey (v : option string) (c : Client) : Client :=
  mkClient v (lastFetchTime c) (localStorage c) (requests c) (toasts c).

Definition set_lastFetchTime (v : Z) (c : Client) : Client :=
  mkClient (cachedApiKey c) v (localStorage c) (requests c) (toasts c).

Definition set_localStorage (v : gmap string string) (c : Client) : Client :=
  mkClient (cachedApiKey c) (lastFetchTime c) v (requests c) (toasts c).

Definition toast (t : Toast) : Eff Client unit :=
  modify (fun c => mkClient (cachedApiKey c) (lastFetchTime c) (localStorage c) (requests c)
                     (toasts c ++ [t])).

(** A request is sent; the result is its number among the requests. *)
Definition send (r : Request) : Eff Client nat :=
  n ← gets (fun c => length (requests c));
  modify (fun c => mkClient (cachedApiKey c) (lastFetchTime c) (localStorage c) (requests c ++ [r])
                     (toasts c));;
  mret n.

Definition CACHE_EXPIRY : Z := 30 * 60 * 1000.

Section Network.

(** What the network answers to request number [n]: the [key] field of the
    Firestore document, [None] when the document is missing or cannot be
    read; the content of a chat completion, [None] when the request fails in
    any way; whether the list of models is given, [None] when the request
    throws; the content the server returns, [None] when the request throws
    and [Some None] when the response is not ok. *)
Variable firestore : nat -> option string.
Variable openai : nat -> option Text.
Variable models : nat -> option bool.
Variable server : nat -> option (option Text).

(** [getFallbackResponse], which picks among fixed texts. *)
Variable getFallbackResponse : Text -> Text.

(** [getOpenAIApiKeyFromFirestore()] ([firebaseAdmin]): every error is
    caught, and the result is a key that is not empty, or [null]. *)
Definition getOpenAIApiKeyFromFirestore : Eff Client (option string) :=
  n ← send FirestoreRead;
  mret (if truthy (firestore n) then firestore n else None).

(** [getApiKey()] *)
Definition getApiKey : Eff Client (option string) :=
  cached ← gets cachedApiKey;
  if truthy cached then mret cached
  else
    userApiKey ← gets (fun c => localStorage c !! "openai_api_key"%string);
    if truthy userApiKey then mret userApiKey else mret None.

(** [setApiKey(key)] *)
Definition setApiKey (key : string) : Eff Client unit :=
  modify (fun c => set_localStorage (<["openai_api_key"%string := key]> (localStorage c)) c);;
  modify (fun c => set_localStorage (<["openai_api_key_validated"%string := "true"%string]> (localStorage c)) c);;
  toast (Success "API key saved successfully.").

(** [clearApiKey()] *)
Definition clearApiKey : Eff Client unit :=
  modify (fun c => set_localStorage (delete "openai_api_key"%string (localStorage c)) c);;
  modify (fun c => set_localStorage (delete "openai_api_key_validated"%string (localStorage c)) c);;
  modify (set_cachedApiKey None);;
  toast (Info "API key removed.").

(** [setApiKeyValidated(isValid)] *)
Definition setApiKeyValidated (isValid : bool) : Eff Client unit :=
  modify (fun c => set_localStorage
                     (<["openai_api_key_validated"%string := (if isValid then "true" else "false")%string]>
                        (localStorage c)) c).

(** [isApiKeyValidated()] *)
Definition isApiKeyValidated (c : Client) : bool :=
  bool_decide (localStorage c !! "openai_api_key_validated"%string = Some "true"%string).

(** [fetchApiKeyFromFirestore(forceRefresh)] at time [now].  Nothing in its
    [try] block throws, [getOpenAIApiKeyFromFirestore] catching every error
    itself, so the [catch] block with the retries is not reached. *)
Definition fetchApiKeyFromFirestore (forceRefresh : bool) (now : Z) : Eff Client (option string) :=
  cached ← gets cachedApiKey;
  last ← gets lastFetchTime;
  if truthy cached && (now - last <? CACHE_EXPIRY) && negb forceRefresh then mret cached
  else
    apiKey ← getOpenAIApiKeyFromFirestore;
    if truthy apiKey then
      modify (set_cachedApiKey apiKey);;
      modify (set_lastFetchTime now);;
      mret apiKey
    else mret None.

(** [useUserApiKey(message, apiKey)] *)
Definition useUserApiKey (message : Text) (apiKey : string) : Eff Client Text :=
  n ← send (ChatCompletion apiKey message);
  match openai n with
  | Some content => mret content
  | None => mret (getFallbackResponse message)
  end.

(** [getAIResponse(message)] at time [now]. *)
Definition getAIResponse (message : Text) (now : Z) : Eff Client Text :=
  firebaseKey ← fetchApiKeyFromFirestore true now;
  match firebaseKey with
  | Some (String a k) =>
      n ← send (ChatCompletion (String a k) message);
      match openai n with
      | Some content => mret content
      | None =>
          userApiKey ← getApiKey;
          match userApiKey with
          | Some (String b u) => useUserApiKey message (String b u)
          | _ => mret (getFallbackResponse message)
          end
      end
  | _ =>
      userApiKey ← getApiKey;
      match userApiKey with
      | Some (String b u) => useUserApiKey message (String b u)
      | _ =>
          n ← send (ServerChat message);
          match server n with
          | Some (Some content) => mret content
          | _ => mret (getFallbackResponse message)
          end
      end
  end.

(** [validateApiKey()] at time [now]. *)
Definition validateApiKey (now : Z) : Eff Client bool :=
  firebaseKey ← fetchApiKeyFromFirestore true now;
  if truthy firebaseKey then
    modify (set_cachedApiKey firebaseKey);;
    mret true
  else
    userApiKey ← getApiKey;
    match userApiKey with
    | Some (String b u) =>
        n ← send (ListModels (String b u));
        match models n with
        | Some true => setApiKeyValidated true;; mret true
        | _ => setApiKeyValidated false;; mret false
        end
    | _ => mret false
    end.

(** [handleSaveKey] of the key dialog, [trimmed] being [apiKey.trim()]; the
    result tells whether the dialog is closed. *)
Definition handleSaveKey (trimmed : string) (now : Z) : Eff Client bool :=
  match trimmed with
  | EmptyString => toast (Error "Please enter an API key");; mret false
  | String _ _ =>
      setApiKey trimmed;;
      isValid ← (validateApiKey now : Eff Client bool);
      if isValid : bool
      then toast (Success "API key validated successfully");; mret true
      else toast (Error "Invalid API key. Please check and try again.");; mret false
  end.

End Network.

(** The requests made by [m] when started in [c]. *)
Definition sentBy {A : Type} (m : Eff Client A) (c : Client) : list Request :=
  drop (length (requests c)) (requests (exec m c)).

(** The keys sent to OpenAI. *)
Definition keysSent (rs : list Request) : list string :=
  omap (fun r => match r with
                 | ChatCompletion k _ | ListModels k => Some k
                 | _ => None
                 end) rs.

(** The key that goes to OpenAI when Firestore answers [fromFirestore]: the
    key from Firestore; without one, the key cached from an earlier read;
    without that, the user's own key. *)
Definition chosenKey (fromFirestore : option string) (c : Client) : option string :=
  if truthy fromFirestore then fromFirestore
  else if truthy (cachedApiKey c) then cachedApiKey c
  else if truthy (localStorage c !! "openai_api_key"%string)
       then localStorage c !! "openai_api_key"%string
       else None.

(** A client with a key of the user's own stored and nothing cached. *)
Definition sampleClient : Client :=
  mkClient None 0 (<["openai_api_key"%string := "sk-user"%string]> ∅) [] [].

End OpenAI.


(** * Properties

    ** JavaScript numbers *)

Module JSFacts.

Lemma gt_true (a b : Q) : JS.gt a b = true <-> (b < a)%Q.
Proof.
  unfold JS.gt. rewrite negb_true_iff, <- not_true_iff_false, Qle_bool_iff.
  split; [apply Qnot_le_lt | apply Qlt_not_le].
Qed.

Lemma gt_false (a b : Q) : JS.gt a b = false <-> (a <= b)%Q.
Proof. unfold JS.gt. rewrite negb_false_iff. apply Qle_bool_iff. Qed.

Lemma lt_true (a b : Q) : JS.lt a b = true <-> (a < b)%Q.
Proof. apply gt_true. Qed.

Lemma lt_false (a b : Q) : JS.lt a b = false <-> (b <= a)%Q.
Proof. apply gt_false. Qed.

Lemma truthy_false (x : Q) : JS.truthy x = false <-> (x == 0)%Q.
Proof. unfold JS.truthy. rewrite negb_false_iff. apply Qeq_bool_iff. Qed.

Lemma trunc_floor (x : Q) : (0 <= x)%Q -> JS.trunc x = Qfloor x.
Proof.
  destruct x as [n d]. unfold Qle, JS.trunc, Qfloor. simpl. intros H.
  apply Z.quot_div_nonneg; lia.
Qed.

(** For a non-negative dividend and a positive divisor the remainder lies in
    [0, b). *)
Lemma rem_bounds (a b : Q) : (0 <= a)%Q -> (0 < b)%Q -> (0 <= JS.rem a b < b)%Q.
Proof.
  intros Ha Hb. unfold JS.rem.
  assert (Hq : (0 <= a / b)%Q).
  { apply Qle_shift_div_l; [exact Hb | lra]. }
  rewrite (trunc_floor _ Hq).
  pose proof (Qfloor_le (a / b)) as Hlo.
  pose proof (Qlt_floor (a / b)) as Hhi.
  rewrite inject_Z_plus in Hhi.
  assert (Hab : (a == b * (a / b))%Q).
  { rewrite Qmult_div_r; [reflexivity | lra]. }
  set (k := inject_Z (Qfloor (a / b))) in *.
  set (q := (a / b)%Q) in *.
  split.
  - assert (b * k <= b * q)%Q by (apply Qmult_le_l; assumption). lra.
  - assert (b * q < b * (k + inject_Z 1))%Q by (apply Qmult_lt_l; assumption).
    change (inject_Z 1) with 1%Q in *. lra.
Qed.

(** [a % b] takes a whole number of times [b] off [a]. *)
Lemma rem_whole (a b : Q) :
  (a == inject_Z (JS.trunc (a / b)) * b + JS.rem a b)%Q.
Proof. unfold JS.rem. ring. Qed.

(** A dividend beyond the divisor contains it at least once. *)
Lemma trunc_quotient_pos (a b : Q) :
  (0 < b)%Q -> (b < a)%Q -> (1 <= JS.trunc (a / b))%Z.
Proof.
  intros Hb Hab.
  assert (Hq : (1 <= a / b)%Q).
  { apply Qle_shift_div_l; [exact Hb | lra]. }
  rewrite trunc_floor by lra.
  change 1%Z with (Qfloor 1). by apply Qfloor_resp_le.
Qed.

(** Rounding depends on the value only, not on the fraction that denotes
    it. *)
Lemma round_eq (x y : Q) : (x == y)%Q -> JS.round x = JS.round y.
Proof. intros E. unfold JS.round. by rewrite (Qred_complete x y E). Qed.

Lemma round_zero (x : Q) : (x == 0)%Q -> JS.round x = 0%Q.
Proof. intros E. by rewrite (round_eq x 0 E). Qed.

(** Rounding at work: [0.1 + 0.2]; a tie, which goes to the even
    neighbour; a value that needs no rounding; the smallest positive value,
    halved; and [1000 / 60]. *)
Example round_examples :
  JS.add (3602879701896397 # 36028797018963968) (3602879701896397 # 18014398509481984)
  = (1351079888211149 # 4503599627370496)%Q /\
  JS.add (inject_Z (2 ^ 53)) 1 = inject_Z (2 ^ 53) /\
  JS.add (inject_Z (2 ^ 53 + 2)) 1 = inject_Z (2 ^ 53 + 4) /\
  JS.sub 1050 1000 = 50%Q /\
  JS.div (1 # Pos.pow 2 1074) 2 = 0%Q /\
  JS.div (3 # Pos.pow 2 1074) 2 = (1 # Pos.pow 2 1073)%Q /\
  JS.div 1000 60 = (4691249611844267 # 281474976710656)%Q.
Proof. vm_compute. repeat split; reflexivity. Qed.

(** [t - t] is [0]. *)
Lemma sub_diag (t : Q) : JS.sub t t = 0%Q.
Proof. apply round_zero. ring. Qed.

(** **** Whole numbers *)

Lemma Qred_inject_Z (z : Z) : Qred (inject_Z z) = inject_Z z.
Proof.
  unfold Qred, inject_Z.
  pose proof (Z.ggcd_gcd z 1) as G. pose proof (Z.ggcd_correct_divisors z 1) as D.
  destruct (Z.ggcd z 1) as [g [a b]]. cbn [fst snd] in *.
  rewrite Z.gcd_1_r in G. subst g. destruct D as [-> D].
  assert (b = 1%Z) as -> by lia. f_equal. lia.
Qed.

Lemma Qred_whole (x : Q) (z : Z) : (x == inject_Z z)%Q -> Qred x = inject_Z z.
Proof. intros E. rewrite (Qred_complete _ _ E). apply Qred_inject_Z. Qed.

Lemma nearestEven_one (n : Z) : JS.nearestEven n 1 = n.
Proof. unfold JS.nearestEven. rewrite Z.mod_1_r, Z.div_1_r. reflexivity. Qed.

(** Rounding a whole number gives a whole number. *)
Lemma round_whole (x : Q) (z : Z) :
  (x == inject_Z z)%Q -> exists z', JS.round x = inject_Z z'.
Proof.
  intros E. unfold JS.round. rewrite (Qred_whole x z E).
  cbn [Qnum Qden inject_Z].
  destruct (Z.eqb_spec z 0) as [|Hz]; [by exists 0%Z |].
  set (e := Z.max _ _).
  destruct (Z.leb_spec 0 e) as [He | He].
  - set (m := (JS.nearestEven _ _ * _)%Z).
    destruct (z <? 0)%Z.
    + exists (- m)%Z. apply Qred_whole. reflexivity.
    + exists m. apply Qred_inject_Z.
  - rewrite nearestEven_one.
    assert (Hp : (0 < 2 ^ (- e))%Z) by (apply Z.pow_pos_nonneg; lia).
    assert (V : (Z.abs z * 2 ^ (- e) # Z.to_pos (2 ^ (- e)) == inject_Z (Z.abs z))%Q).
    { unfold Qeq. cbn [Qnum Qden inject_Z]. rewrite Z2Pos.id by exact Hp. lia. }
    destruct (z <? 0)%Z.
    + exists (- Z.abs z)%Z. apply Qred_whole. rewrite V. reflexivity.
    + exists (Z.abs z). by apply Qred_whole.
Qed.

End JSFacts.

(** ** The game loop, [handleReturn] and teardown *)

Module PlatformerGameFacts.
Import PlatformerGame JSFacts.

(** Unfolds the monad and the primitive operations of the component. *)
Ltac eff_step := cbv beta iota zeta delta
  [mbind mret Eff_bind Eff_ret gets modify when emit exec
   requestAnimationFrame cancelAnimationFrame callUpdateGame renderGame
   audioPause audioSetCurrentTime audioSetSrc
   set_audioRef set_gameLoopRef set_lastTimestamp set_pendingFrames
   set_nextFrameId set_world
   audioRef gameLoopRef lastTimestamp pendingFrames nextFrameId world log
   fmap option_fmap option_map fst snd negb andb].

Section Facts.

Context {World : Type} (updateGame : World -> World).

Implicit Types (s : State World) (p : Render) (t : Q).

(** **** The log only grows *)

Lemma appends_intro {A : Type} (m : Eff (State World) A) :
  (forall s, exists evs, log (exec m s) = log s ++ evs) -> appends m.
Proof.
  intros H s. destruct (H s) as [evs E]. unfold calls. rewrite E.
  by rewrite drop_app_length.
Qed.

Lemma exec_bind {A B : Type} (m : Eff (State World) A) (f : A -> Eff (State World) B) s :
  exec (m ≫= f) s = exec (f (m s).1) (exec m s).
Proof. unfold exec, mbind, Eff_bind. destruct (m s); reflexivity. Qed.

Lemma calls_bind {A B : Type} (m : Eff (State World) A) (f : A -> Eff (State World) B) s :
  appends m -> (forall a, appends (f a)) ->
  calls (m ≫= f) s = calls m s ++ calls (f (m s).1) (exec m s).
Proof.
  intros Hm Hf. unfold calls at 1.
  rewrite exec_bind, Hf, Hm, <- app_assoc. by rewrite drop_app_length.
Qed.

Lemma appends_bind {A B : Type} (m : Eff (State World) A) (f : A -> Eff (State World) B) :
  appends m -> (forall a, appends (f a)) -> appends (m ≫= f).
Proof.
  intros Hm Hf. apply appends_intro. intros s.
  exists (calls m s ++ calls (f (m s).1) (exec m s)).
  by rewrite exec_bind, Hf, Hm, app_assoc.
Qed.

Lemma appends_ret {A : Type} (a : A) : appends (mret a : Eff (State World) A).
Proof. apply appends_intro. intros s. exists []. by rewrite app_nil_r. Qed.

Lemma calls_ret {A : Type} (a : A) s : calls (mret a : Eff (State World) A) s = [].
Proof. unfold calls. apply drop_all. Qed.

Lemma appends_forEach {A : Type} (f : A -> Eff (State World) unit) (xs : list A) :
  (forall x, appends (f x)) -> appends (forEach f xs).
Proof.
  intros Hf. induction xs as [|x xs IH]; simpl.
  - apply appends_ret.
  - apply appends_bind; auto.
Qed.

Lemma calls_forEach_cons {A : Type} (f : A -> Eff (State World) unit) x xs s :
  (forall x, appends (f x)) ->
  calls (forEach f (x :: xs)) s = calls (f x) s ++ calls (forEach f xs) (exec (f x) s).
Proof.
  intros Hf. simpl. rewrite calls_bind; auto using appends_forEach.
Qed.

(** **** One invocation of [runGameLoop], in closed form *)

Lemma runGameLoop_exec p t s :
  let elapsed := JS.sub t (lastTick s t) in
  let fire := JS.gt elapsed frameInterval in
  let tick := fire && negb (gameOver (gameState p)) in
  exec (runGameLoop updateGame p t) s =
  mkState (audioRef s)
    (if gameStarted p then Some (nextFrameId s) else gameLoopRef s)
    (if fire then JS.sub t (JS.rem elapsed frameInterval) else lastTick s t)
    (if gameStarted p then pendingFrames s ++ [nextFrameId s] else pendingFrames s)
    (if gameStarted p then Pos.succ (nextFrameId s) else nextFrameId s)
    (if tick then updateGame (world s) else world s)
    (log s ++ (if tick then [UpdateGame] else [])
           ++ (if fire then [RenderGame (drawCalls p)] else [])
           ++ (if gameStarted p then [RequestAnimationFrame (nextFrameId s)] else [])).
Proof.
  destruct s as [a r l pf n w lg]. unfold runGameLoop, lastTick. eff_step.
  destruct (JS.truthy l); eff_step;
    destruct (JS.gt _ _); eff_step;
    destruct (gameOver (gameState p)); eff_step;
    destruct (gameStarted p); eff_step;
    rewrite <- ?app_assoc, ?app_nil_r; reflexivity.
Qed.

Lemma appends_runGameLoop p t : appends (runGameLoop updateGame p t).
Proof.
  apply appends_intro. intros s. rewrite runGameLoop_exec. cbn. eauto.
Qed.

Lemma runGameLoop_calls p t s :
  let elapsed := JS.sub t (lastTick s t) in
  let fire := JS.gt elapsed frameInterval in
  let tick := fire && negb (gameOver (gameState p)) in
  calls (runGameLoop updateGame p t) s =
  (if tick then [UpdateGame] else [])
  ++ (if fire then [RenderGame (drawCalls p)] else [])
  ++ (if gameStarted p then [RequestAnimationFrame (nextFrameId s)] else []).
Proof.
  cbv zeta. unfold calls. rewrite runGameLoop_exec. cbn [log].
  by rewrite drop_app_length.
Qed.

Lemma runGameLoop_ticks p t s :
  ticks (runGameLoop updateGame p t) s =
  if JS.gt (JS.sub t (lastTick s t)) frameInterval && negb (gameOver (gameState p)) then 1%nat else 0%nat.
Proof.
  unfold ticks. rewrite runGameLoop_calls.
  destruct (JS.gt _ _); destruct (gameOver _); destruct (gameStarted p); reflexivity.
Qed.

Lemma runGameLoop_renders p t s :
  renders (runGameLoop updateGame p t) s =
  if JS.gt (JS.sub t (lastTick s t)) frameInterval then 1%nat else 0%nat.
Proof.
  unfold renders. rewrite runGameLoop_calls.
  destruct (JS.gt _ _); destruct (gameOver _); destruct (gameStarted p); reflexivity.
Qed.


Lemma exec_forEach_app {A : Type} (f : A -> Eff (State World) unit) xs ys s :
  exec (forEach f (xs ++ ys)) s = exec (forEach f ys) (exec (forEach f xs) s).
Proof.
  revert s. induction xs as [|x xs IH]; intros s; simpl.
  - reflexivity.
  - by rewrite !exec_bind, IH.
Qed.

Lemma calls_forEach_app {A : Type} (f : A -> Eff (State World) unit) xs ys s :
  (forall x, appends (f x)) ->
  calls (forEach f (xs ++ ys)) s
  = calls (forEach f xs) s ++ calls (forEach f ys) (exec (forEach f xs) s).
Proof.
  intros Hf. unfold calls at 1.
  rewrite exec_forEach_app, !appends_forEach, <- app_assoc by done.
  by rewrite drop_app_length.
Qed.

Lemma frameInterval_pos : (0 < frameInterval)%Q.
Proof. vm_compute. reflexivity. Qed.

(** **** Invocations that stay below the frame interval *)

Lemma below_interval_idle p (ts : list Q) s :
  JS.truthy (lastTimestamp s) = true ->
  Forall (fun u => (JS.sub u (lastTimestamp s) <= frameInterval)%Q) ts ->
  ticks (forEach (runGameLoop updateGame p) ts) s = 0%nat /\
  renders (forEach (runGameLoop updateGame p) ts) s = 0%nat /\
  lastTimestamp (exec (forEach (runGameLoop updateGame p) ts) s) = lastTimestamp s /\
  world (exec (forEach (runGameLoop updateGame p) ts) s) = world s.
Proof.
  intros Hl Hts. revert s Hl Hts.
  induction ts as [|u ts IH]; intros s Hl Hts.
  - unfold ticks, renders. simpl forEach. rewrite calls_ret. done.
  - inversion Hts as [|? ? Hu Hrest]; subst.
    assert (Hlast : lastTick s u = lastTimestamp s) by (unfold lastTick; by rewrite Hl).
    assert (Hgt : JS.gt (JS.sub u (lastTick s u)) frameInterval = false).
    { rewrite Hlast. by apply gt_false. }
    pose proof (runGameLoop_exec p u s) as E. cbv zeta in E.
    rewrite Hgt, Hlast in E. cbn [andb] in E.
    set (s1 := exec (runGameLoop updateGame p u) s) in *.
    assert (Hl1 : lastTimestamp s1 = lastTimestamp s) by (by rewrite E).
    assert (Hw1 : world s1 = world s) by (by rewrite E).
    destruct (IH s1) as (T & R & L & W).
    { by rewrite Hl1. }
    { by rewrite Hl1. }
    unfold ticks, renders in *.
    rewrite calls_forEach_cons by apply appends_runGameLoop.
    rewrite !List.filter_app, !length_app. fold s1.
    rewrite T, R. simpl forEach. rewrite exec_bind. fold s1.
    rewrite L, W, Hl1, Hw1.
    pose proof (runGameLoop_ticks p u s) as Tu.
    pose proof (runGameLoop_renders p u s) as Ru.
    unfold ticks, renders in Tu, Ru. rewrite Tu, Ru, Hgt. done.
Qed.

(** The frame interval is the binary64 value of [1000/60]: it lies within
    [2^-49] of the fraction. *)
Lemma frameInterval_value :
  frameInterval = (4691249611844267 # 281474976710656)%Q /\
  (Qabs (frameInterval - 1000 / 60) <= 1 # 562949953421312)%Q.
Proof. split; vm_compute; [reflexivity | discriminate]. Qed.

(** C1. Every invocation of [runGameLoop] with timestamp [t] runs at most
    one simulation tick.  A tick runs only when [elapsed], the difference
    [t - lastTimestamp] rounded as the code computes it, exceeds
    [frameInterval], the binary64 value [16.666666666666668] of [1000/60].
    When a tick runs, the stored timestamp becomes
    [t - (elapsed % frameInterval)]: a whole number [k >= 1] of frame
    intervals is taken off [elapsed], the remainder [r] that is left is at
    least [0] and less than one interval, and what is stored is [t - r],
    that is [t - elapsed + k * frameInterval], rounded; where the
    subtraction that gave [elapsed] was exact, this is the stored timestamp
    advanced by [k] intervals.  Consecutive invocations whose elapsed time
    since the stored timestamp does not exceed the interval run no tick and
    keep the stored timestamp, after which the first invocation beyond the
    interval runs exactly one tick and carries the remainder. *)
Theorem runGameLoop_throttle p s t :
  let elapsed := JS.sub t (lastTick s t) in
  let s' := exec (runGameLoop updateGame p t) s in
  (frameInterval == 4691249611844267 # 281474976710656)%Q /\
  elapsed = JS.round (t - lastTick s t) /\
  (ticks (runGameLoop updateGame p t) s <= 1)%nat /\
  (ticks (runGameLoop updateGame p t) s = 1%nat ->
     (frameInterval < elapsed)%Q /\
     lastTimestamp s' = JS.sub t (JS.rem elapsed frameInterval) /\
     exists (k : Z) (r : Q),
       (1 <= k)%Z /\
       (0 <= r < frameInterval)%Q /\
       (elapsed == inject_Z k * frameInterval + r)%Q /\
       lastTimestamp s' = JS.round (t - r) /\
       lastTimestamp s' = JS.round (t - elapsed + inject_Z k * frameInterval) /\
       ((elapsed == t - lastTick s t)%Q ->
        lastTimestamp s' = JS.round (lastTick s t + inject_Z k * frameInterval))) /\
  ((elapsed <= frameInterval)%Q ->
     ticks (runGameLoop updateGame p t) s = 0%nat /\
     lastTimestamp s' = lastTick s t) /\
  (forall (ts : list Q) (u : Q),
     JS.truthy (lastTimestamp s) = true ->
     Forall (fun v => (JS.sub v (lastTimestamp s) <= frameInterval)%Q) ts ->
     ticks (forEach (runGameLoop updateGame p) ts) s = 0%nat /\
     lastTimestamp (exec (forEach (runGameLoop updateGame p) ts) s) = lastTimestamp s /\
     ((frameInterval < JS.sub u (lastTimestamp s))%Q ->
      gameOver (gameState p) = false ->
      ticks (forEach (runGameLoop updateGame p) (ts ++ [u])) s = 1%nat /\
      lastTimestamp (exec (forEach (runGameLoop updateGame p) (ts ++ [u])) s)
      = JS.sub u (JS.rem (JS.sub u (lastTimestamp s)) frameInterval))).
Proof.
  cbv zeta. rewrite runGameLoop_ticks, runGameLoop_exec. cbn [lastTimestamp].
  split; [by rewrite (proj1 frameInterval_value) |].
  split; [reflexivity |].
  split; [destruct (_ && _); lia |].
  split; [| split].
  - intros T. destruct (JS.gt _ _) eqn:G; [| discriminate].
    apply gt_true in G. pose proof frameInterval_pos as Hpos.
    set (elapsed := JS.sub t (lastTick s t)) in *.
    destruct (rem_bounds elapsed frameInterval) as [Hlo Hhi]; [lra | done |].
    pose proof (rem_whole elapsed frameInterval) as Hwhole.
    split; [done |]. split; [done |].
    exists (JS.trunc (elapsed / frameInterval)), (JS.rem elapsed frameInterval).
    split; [by apply trunc_quotient_pos |].
    split; [done |]. split; [done |]. split; [done |].
    split; [apply round_eq; lra |].
    intros Hexact. apply round_eq. lra.
  - intros G. apply gt_false in G. by rewrite G.
  - intros ts u Hl Hts.
    destruct (below_interval_idle p ts s) as (T & _ & L & _); [done..|].
    split; [done |]. split; [done |].
    intros Hu Hover. apply gt_true in Hu.
    set (s1 := exec (forEach (runGameLoop updateGame p) ts) s) in *.
    assert (G : JS.gt (JS.sub u (lastTick s1 u)) frameInterval = true).
    { unfold lastTick. by rewrite L, Hl. }
    split.
    + unfold ticks in *.
      rewrite calls_forEach_app by apply appends_runGameLoop.
      rewrite List.filter_app, length_app, T. fold s1.
      simpl forEach.
      rewrite calls_bind by (auto using appends_runGameLoop, appends_ret).
      rewrite calls_ret, app_nil_r.
      pose proof (runGameLoop_ticks p u s1) as Tu.
      unfold ticks in Tu. rewrite Tu, G, Hover. reflexivity.
    + rewrite exec_forEach_app. fold s1. simpl forEach. rewrite exec_bind.
      change (exec (mret tt) ?x) with x.
      rewrite runGameLoop_exec. cbn [lastTimestamp]. rewrite G.
      unfold lastTick. by rewrite L, Hl.
Qed.

(** **** Game over *)

Lemma gameOver_idle p (ts : list Q) s :
  gameOver (gameState p) = true ->
  ticks (forEach (runGameLoop updateGame p) ts) s = 0%nat /\
  world (exec (forEach (runGameLoop updateGame p) ts) s) = world s.
Proof.
  intros Hover. revert s. induction ts as [|u ts IH]; intros s.
  - unfold ticks. simpl forEach. by rewrite calls_ret.
  - destruct (IH (exec (runGameLoop updateGame p u) s)) as [T W].
    unfold ticks in *.
    rewrite calls_forEach_cons by apply appends_runGameLoop.
    rewrite List.filter_app, length_app, T.
    simpl forEach. rewrite exec_bind, W.
    pose proof (runGameLoop_ticks p u s) as Tu. unfold ticks in Tu.
    rewrite Tu, runGameLoop_exec, Hover, andb_false_r. done.
Qed.

(** C2 (amended). In every invocation of [runGameLoop] whose render saw
    [gameState.gameOver = true], [updateGame] is not called and the world
    (character, score, ...) is left as it was, also over any number of
    consecutive invocations; [renderGame] is called exactly in the
    invocations that pass the frame-interval test, as it is when the game is
    not over, and each such call ends by drawing the game-over overlay.  The
    test compares the rounded difference [t - lastTimestamp] with
    [frameInterval]. *)
Theorem gameOver_skips_update p s t :
  gameOver (gameState p) = true ->
  let m := runGameLoop updateGame p t in
  ticks m s = 0%nat /\
  world (exec m s) = world s /\
  (renders m s = 1%nat <-> (frameInterval < JS.sub t (lastTick s t))%Q) /\
  (renders m s = 0%nat <-> (JS.sub t (lastTick s t) <= frameInterval)%Q) /\
  (forall c, In (RenderGame c) (calls m s) ->
             last c = Some (DrawGameOver (score (gameState p)))) /\
  (forall ts : list Q,
     ticks (forEach (runGameLoop updateGame p) ts) s = 0%nat /\
     world (exec (forEach (runGameLoop updateGame p) ts) s) = world s) /\
  JS.sub t (lastTick s t) = JS.round (t - lastTick s t).
Proof.
  intros Hover. cbv zeta.
  rewrite runGameLoop_ticks, runGameLoop_renders, runGameLoop_exec, runGameLoop_calls.
  rewrite Hover, andb_false_r. cbn [world].
  split; [done |]. split; [done |].
  split; [| split; [| split; [| split; [| reflexivity]]]].
  - destruct (JS.gt _ _) eqn:G.
    + apply gt_true in G. done.
    + apply gt_false in G. split; [done |]. intros. lra.
  - destruct (JS.gt _ _) eqn:G.
    + apply gt_true in G. split; [done |]. intros. lra.
    + apply gt_false in G. done.
  - intros c Hc. cbn [app] in Hc.
    assert (E : c = drawCalls p).
    { destruct (JS.gt _ _); destruct (gameStarted p); cbn [In app] in Hc;
        intuition congruence. }
    subst c. unfold drawCalls. rewrite Hover. reflexivity.
  - intros ts. by apply gameOver_idle.
Qed.

(** C3 (amended). An invocation of [runGameLoop] calls [renderGame] at most
    once: exactly once when the elapsed time, the rounded difference
    [t - lastTimestamp], exceeds the frame interval, whether or not
    [updateGame] ran in that invocation, and not at all otherwise. *)
Theorem runGameLoop_render_gated p s t :
  let m := runGameLoop updateGame p t in
  let elapsed := JS.sub t (lastTick s t) in
  (renders m s <= 1)%nat /\
  (renders m s = 1%nat <-> (frameInterval < elapsed)%Q) /\
  (renders m s = 0%nat <-> (elapsed <= frameInterval)%Q) /\
  (renders m s = 1%nat ->
   ticks m s = if gameOver (gameState p) then 0%nat else 1%nat) /\
  elapsed = JS.round (t - lastTick s t).
Proof.
  cbv zeta. rewrite runGameLoop_ticks, runGameLoop_renders.
  destruct (JS.gt _ _) eqn:G; cbn [andb].
  - apply gt_true in G.
    split; [lia |]. split; [done |]. split; [split; [done | intros; lra] |].
    split; [| reflexivity]. by destruct (gameOver _).
  - apply gt_false in G.
    split; [lia |]. split; [split; [done | intros; lra] |]. split; [done |].
    split; [done | reflexivity].
Qed.

(** **** The frame request is tracked by [gameLoopRef] *)

Lemma loopTracked_gameLoopEffect p ready s :
  pendingFrames s = [] -> loopTracked (exec (gameLoopEffect p ready) s).
Proof.
  destruct s as [a r l pf n w lg]. cbn [pendingFrames]. intros ->.
  unfold gameLoopEffect, loopTracked. eff_step.
  destruct (gameStarted p); destruct ready; eff_step; done.
Qed.

Lemma loopTracked_animationFrame p t s :
  loopTracked s -> loopTracked (exec (animationFrame updateGame p t) s).
Proof.
  destruct s as [a r l pf n w lg]. unfold loopTracked at 1. cbn [pendingFrames gameLoopRef].
  destruct pf as [|i [|j pf]]; [intros _ | intros _ | done].
  - unfold animationFrame, loopTracked. eff_step. done.
  - unfold animationFrame. rewrite exec_bind. cbn [gets fst]. 
    change (exec (gets pendingFrames) ?x) with x.
    rewrite exec_bind. simpl forEach. rewrite exec_bind.
    change (exec (mret tt) ?x) with x.
    rewrite runGameLoop_exec. unfold loopTracked. eff_step.
    destruct (gameStarted p); done.
Qed.

Lemma loopTracked_cancelGameLoop s :
  loopTracked s -> pendingFrames (exec cancelGameLoop s) = [] /\ gameLoopRef (exec cancelGameLoop s) = None.
Proof.
  destruct s as [a r l pf n w lg]. unfold loopTracked, cancelGameLoop.
  cbn [pendingFrames gameLoopRef]. eff_step.
  destruct pf as [|i [|j pf]]; [| | done]; intros T; destruct r as [id|]; eff_step;
    try done.
  injection T as ->. cbn. by rewrite Pos.eqb_refl.
Qed.

Lemma loopTracked_frames p (ts : list Q) s :
  loopTracked s -> loopTracked (exec (forEach (animationFrame updateGame p) ts) s).
Proof.
  revert s. induction ts as [|u ts IH]; intros s Hs; simpl forEach.
  - exact Hs.
  - rewrite exec_bind. apply IH. by apply loopTracked_animationFrame.
Qed.

(** From the start of the game-loop effect on, through any number of display
    refreshes, the frame request is tracked. *)
Lemma loopTracked_running p ready (ts : list Q) s :
  pendingFrames s = [] ->
  loopTracked (exec (forEach (animationFrame updateGame p) ts) (exec (gameLoopEffect p ready) s)).
Proof.
  intros Hs. by apply loopTracked_frames, loopTracked_gameLoopEffect.
Qed.

Lemma animationFrame_idle p t s :
  pendingFrames s = [] -> exec (animationFrame updateGame p t) s = s.
Proof.
  destruct s as [a r l pf n w lg]. cbn [pendingFrames]. intros ->.
  unfold animationFrame. eff_step. reflexivity.
Qed.

Lemma frames_idle p (ts : list Q) s :
  pendingFrames s = [] -> exec (forEach (animationFrame updateGame p) ts) s = s.
Proof.
  intros Hp. induction ts as [|u ts IH]; simpl forEach.
  - reflexivity.
  - by rewrite exec_bind, animationFrame_idle.
Qed.

(** **** [handleReturn] *)

(** C6. [handleReturn] pauses the audio element and rewinds it to 0, then
    cancels the pending animation-frame request, and only then calls
    [onReturn]; all of it happens within the one call.  Afterwards the
    browser holds no callback of the component, so later display refreshes
    call nothing: no tick, and no render either. *)
Theorem handleReturn_stops_loop s :
  loopTracked s ->
  let s1 := exec handleReturn s in
  calls handleReturn s =
    (match audioRef s with
     | Some _ => [AudioPause; AudioSetCurrentTime 0; SetAudioPlaying false]
     | None => []
     end)
    ++ (match gameLoopRef s with
        | Some id => [CancelAnimationFrame id]
        | None => []
        end)
    ++ [OnReturn] /\
  audioRef s1 = (fun a => mkAudio true 0 (src a)) <$> audioRef s /\
  pendingFrames s1 = [] /\
  gameLoopRef s1 = None /\
  (forall id, In id (pendingFrames s) -> In (CancelAnimationFrame id) (calls handleReturn s)) /\
  (forall p (ts : list Q),
     calls (forEach (animationFrame updateGame p) ts) s1 = [] /\
     ticks (forEach (animationFrame updateGame p) ts) s1 = 0%nat /\
     world (exec (forEach (animationFrame updateGame p) ts) s1) = world s).
Proof.
  intros T. cbv zeta.
  assert (Hp : pendingFrames (exec handleReturn s) = []).
  { destruct s as [a r l pf n w lg]. revert T. unfold loopTracked, handleReturn, cancelGameLoop.
    cbn [pendingFrames gameLoopRef]. eff_step.
    destruct pf as [|i [|j pf]]; [| | done]; intros T; destruct a, r as [id|]; eff_step;
      try done; injection T as ->; cbn; by rewrite Pos.eqb_refl. }
  assert (Hw : world (exec handleReturn s) = world s).
  { destruct s as [a r l pf n w lg]. unfold handleReturn, cancelGameLoop. eff_step.
    destruct a, r; reflexivity. }
  split; [| split; [| split; [| split; [| split]]]].
  - destruct s as [a r l pf n w lg]. unfold calls, handleReturn, cancelGameLoop. eff_step.
    destruct a, r; eff_step; rewrite <- ?app_assoc, drop_app_length; reflexivity.
  - destruct s as [a r l pf n w lg]. unfold handleReturn, cancelGameLoop. eff_step.
    destruct a, r; reflexivity.
  - exact Hp.
  - destruct s as [a r l pf n w lg]. unfold handleReturn, cancelGameLoop. eff_step.
    destruct a, r; reflexivity.
  - destruct s as [a r l pf n w lg]. revert T.
    unfold loopTracked, calls, handleReturn, cancelGameLoop.
    cbn [pendingFrames gameLoopRef]. eff_step.
    destruct pf as [|i [|j pf]]; [done | | done]. intros -> id [<- | []].
    destruct a; eff_step; rewrite <- ?app_assoc, drop_app_length; cbn; auto 10.
  - intros p ts. unfold ticks, calls. rewrite frames_idle by exact Hp.
    rewrite drop_all. done.
Qed.

(** **** Teardown *)

Lemma unmount_calls_onPause (c : Mounted) s :
  List.filter isOnPause (calls (unmount c : Eff (State World) unit) s)
  = if onPause (firstRender c) && isRunning (timerState (firstRender c))
    then [OnPause] else [].
Proof.
  destruct s as [a r l pf n w lg].
  unfold calls, unmount, audioCleanup, mountCleanup, cancelGameLoop. eff_step.
  destruct a, r, (onPause (firstRender c)), (isRunning (timerState (firstRender c))); eff_step;
    rewrite <- ?app_assoc, ?drop_app_length, ?drop_all; reflexivity.
Qed.

End Facts.

(** **** Examples *)

(** The last tick was at 1000 ms.  Invocations at 1005 and 1010 ms run no
    tick, the one at 1020 ms runs one; so does a single invocation at
    1050 ms, which takes two intervals off the 50 ms elapsed. *)
Lemma runGameLoop_throttle_witness :
  (frameInterval < JS.sub 1050 (lastTick sampleState 1050))%Q /\
  lastTimestamp (exec (runGameLoop (fun w : unit => w) (sampleRender runningTimer playing) 1050)
                   sampleState)
  = JS.sub 1050 (JS.rem (JS.sub 1050 (lastTick sampleState 1050)) frameInterval) /\
  ticks (forEach (runGameLoop (fun w : unit => w) (sampleRender runningTimer playing))
                 ([1005; 1010] ++ [1020])%Q) sampleState = 1%nat.
Proof.
  destruct (runGameLoop_throttle (fun w : unit => w) (sampleRender runningTimer playing)
              sampleState 1050) as (_ & _ & _ & H2 & _ & H4).
  destruct H2 as (G & L & _); [vm_compute; reflexivity |].
  split; [exact G |]. split; [exact L |].
  apply (H4 [1005; 1010]%Q 1020%Q).
  - reflexivity.
  - repeat constructor; vm_compute; discriminate.
  - vm_compute. reflexivity.
  - reflexivity.
Defined.

(** The same invocation in numbers: [50 % frameInterval] is
    [16.666666666666664], two whole intervals are taken off, and the stored
    timestamp is the binary64 value [1033.3333333333333]; measured from
    there, an invocation at 1060 ms is beyond the interval again and runs the
    next tick. *)
Example carry_over_in_binary64 :
  let p := sampleRender runningTimer playing in
  let s1 := exec (runGameLoop (fun w : unit => w) p 1050) sampleState in
  (JS.rem (JS.sub 1050 1000) frameInterval == 2345624805922133 # 140737488355328)%Q /\
  JS.trunc (JS.sub 1050 1000 / frameInterval) = 2%Z /\
  lastTimestamp s1 = (4544648061474133 # 4398046511104)%Q /\
  lastTimestamp s1 = JS.round (1000 + 2 * frameInterval) /\
  JS.sub 1060 (lastTimestamp s1) = (117281240296107 # 4398046511104)%Q /\
  ticks (forEach (runGameLoop (fun w : unit => w) p) [1050; 1060]%Q) sampleState = 2%nat.
Proof. vm_compute. repeat split; reflexivity. Qed.

(** An invocation in which the game is over and [renderGame] is not
    called: 5 ms after the last tick. *)
Lemma gameOver_render_skipped :
  gameOver (gameState (sampleRender runningTimer lost)) = true /\
  renders (runGameLoop (fun w : unit => w) (sampleRender runningTimer lost) 1005) sampleState = 0%nat.
Proof. split; vm_compute; reflexivity. Qed.

Lemma gameOver_skips_update_witness :
  ticks (runGameLoop (fun w : unit => w) (sampleRender runningTimer lost) 1020) sampleState = 0%nat /\
  renders (runGameLoop (fun w : unit => w) (sampleRender runningTimer lost) 1020) sampleState = 1%nat.
Proof.
  destruct (gameOver_skips_update (fun w : unit => w) (sampleRender runningTimer lost)
              sampleState 1020 eq_refl) as (T & _ & R & _).
  split; [exact T |]. apply R. vm_compute. reflexivity.
Defined.

(** The very first invocation stores its timestamp and draws nothing; so
    does an invocation 5 ms after a tick. *)
Lemma render_not_on_every_invocation :
  renders (runGameLoop (fun w : unit => w) (sampleRender runningTimer playing) 5000) freshState = 0%nat /\
  renders (runGameLoop (fun w : unit => w) (sampleRender runningTimer playing) 1005) sampleState = 0%nat.
Proof. split; vm_compute; reflexivity. Qed.

Lemma runGameLoop_render_gated_witness :
  renders (runGameLoop (fun w : unit => w) (sampleRender runningTimer playing) 1020) sampleState = 1%nat /\
  ticks (runGameLoop (fun w : unit => w) (sampleRender runningTimer playing) 1020) sampleState = 1%nat.
Proof.
  destruct (runGameLoop_render_gated (fun w : unit => w) (sampleRender runningTimer playing)
              sampleState 1020) as (_ & R & _ & T & _).
  assert (H : renders (runGameLoop (fun w : unit => w) (sampleRender runningTimer playing) 1020) sampleState = 1%nat).
  { apply R. vm_compute. reflexivity. }
  split; [exact H | exact (T H)].
Defined.

(** The game loop is started and three refreshes pass, which leaves request
    4 pending; then the user returns. *)
Lemma handleReturn_stops_loop_witness :
  let p := sampleRender runningTimer playing in
  let s := exec (forEach (animationFrame (fun w : unit => w) p) [1000; 1020; 1040]%Q)
             (exec (gameLoopEffect p true) freshState) in
  calls (handleReturn : Eff (State unit) unit) s
  = [AudioPause; AudioSetCurrentTime 0; SetAudioPlaying false; CancelAnimationFrame 4; OnReturn] /\
  ticks (forEach (animationFrame (fun w : unit => w) p) [1060; 1080; 1100]%Q)
        (exec handleReturn s) = 0%nat.
Proof.
  cbv zeta.
  destruct (handleReturn_stops_loop (fun w : unit => w)
              (exec (forEach (animationFrame (fun w : unit => w) (sampleRender runningTimer playing))
                       [1000; 1020; 1040]%Q)
                 (exec (gameLoopEffect (sampleRender runningTimer playing) true) freshState)))
    as (C & _ & _ & _ & _ & F).
  - vm_compute. reflexivity.
  - split; [exact C |].
    apply (F (sampleRender runningTimer playing) [1060; 1080; 1100]%Q).
Defined.

(** Without [handleReturn] the same three refreshes run three ticks. *)
Example frames_tick_while_scheduled :
  let p := sampleRender runningTimer playing in
  let s := exec (forEach (animationFrame (fun w : unit => w) p) [1000; 1020; 1040]%Q)
             (exec (gameLoopEffect p true) freshState) in
  ticks (forEach (animationFrame (fun w : unit => w) p) [1060; 1080; 1100]%Q) s = 3%nat.
Proof. vm_compute. reflexivity. Qed.

(** C7. The game is mounted while the break timer is not yet running, which
    makes the mount effect call [onStart]; by the time of teardown the timer
    is running and [onPause] is still provided, but the cleanup tests the
    [timerState] of the first render and does not call [onPause].
    Conversely, mounted with a running timer that has stopped since, the
    cleanup does call [onPause]. *)
Theorem unmount_tests_first_render :
  let started := rerender (sampleRender runningTimer playing)
                   (mkMounted (sampleRender idleTimer playing) (sampleRender idleTimer playing)) in
  let stopped := rerender (sampleRender idleTimer playing)
                   (mkMounted (sampleRender runningTimer playing) (sampleRender runningTimer playing)) in
  List.filter isOnStart (calls (mount (sampleRender idleTimer playing) None true) freshState) = [OnStart] /\
  (onPause (currentRender started) = true /\
   isRunning (timerState (currentRender started)) = true /\
   List.filter isOnPause (calls (unmount started) sampleState) = []) /\
  (isRunning (timerState (currentRender stopped)) = false /\
   List.filter isOnPause (calls (unmount stopped) sampleState) = [OnPause]).
Proof. vm_compute. repeat split; reflexivity. Qed.

End PlatformerGameFacts.

(** ** Drawing the coins *)

Module CollectibleFacts.
Import Canvas JSFacts.

Lemma imagesDrawn_concat (ls : list (list Op)) :
  imagesDrawn (concat ls) = concat (imagesDrawn <$> ls).
Proof.
  induction ls as [|l ls IH]; [reflexivity |].
  cbn [concat fmap list_fmap]. unfold imagesDrawn in *. by rewrite omap_app, IH.
Qed.

Lemma imagesDrawn_forEachIndexed (f : Coin -> nat -> list Op * nat) (coins : list Coin) :
  imagesDrawn (forEachIndexed f coins)
  = concat (imap (fun i c => imagesDrawn (fst (f c i))) coins).
Proof.
  unfold forEachIndexed. by rewrite imagesDrawn_concat, fmap_imap.
Qed.

Lemma mod4_cases (i : nat) :
  i mod 4 = 0%nat \/ i mod 4 = 1%nat \/ i mod 4 = 2%nat \/ i mod 4 = 3%nat.
Proof. pose proof (Nat.mod_upper_bound i 4). lia. Qed.

(** The current renderer. *)

Lemma new_imageIndex loaded i :
  CollectibleRenderer.imageIndex (CollectibleRenderer.coinImages loaded) i = (i mod 4)%nat.
Proof. reflexivity. Qed.


Lemma new_images loaded cam c i :
  imagesDrawn (fst (CollectibleRenderer.drawCoin (CollectibleRenderer.coinImages loaded) cam c i))
  = if shown cam c && loaded (i mod 4)%nat then [(i mod 4)%nat] else [].
Proof.
  unfold CollectibleRenderer.drawCoin, shown.
  destruct (collected c); [reflexivity |]. cbn [negb andb].
  destruct (JS.lt _ _ && JS.gt _ _); [| reflexivity].
  cbn [fst andb]. unfold imagesDrawn. rewrite !omap_app. cbn [omap list_omap app].
  rewrite new_imageIndex.
  destruct (mod4_cases i) as [E | [E | [E | E]]]; rewrite E; cbn;
    destruct (loaded _); reflexivity.
Qed.

(** The renderer that loads its images from [/assets]. *)

Section Assets.

Variable getExtensionURL : string -> string.

Lemma old_imageIndex loaded i :
  CollectibleRendererAssets.imageIndex
    (CollectibleRendererAssets.coinImages getExtensionURL loaded) i = (i mod 4)%nat.
Proof. reflexivity. Qed.


Lemma old_images loaded cam c i :
  imagesDrawn (fst (CollectibleRendererAssets.drawCoin
                      (CollectibleRendererAssets.coinImages getExtensionURL loaded) cam c i))
  = if shown cam c then [(i mod 4)%nat] else [].
Proof.
  unfold CollectibleRendererAssets.drawCoin, shown.
  destruct (collected c); [reflexivity |]. cbn [negb andb].
  destruct (JS.lt _ _ && JS.gt _ _); [| reflexivity].
  cbn [fst]. unfold imagesDrawn. rewrite !omap_app. cbn [omap list_omap app].
  rewrite old_imageIndex.
  destruct (mod4_cases i) as [E | [E | [E | E]]]; rewrite E; reflexivity.
Qed.

(** C4. For every coin array and every position [i] in it, the image that
    [drawCollectibles] selects for the coin at [i] is number [i mod 4]: the
    index depends on the position alone, in both implementations.  The
    implementation under [/assets] draws that image for every coin it shows;
    the current one draws it once the image has been loaded, and never draws
    another one. *)
Theorem coin_variant_is_position_mod_4 (loaded loaded' : nat -> bool) (coins : list Coin) (cam : Q) :
  (forall i c, coins !! i = Some c ->
     CollectibleRenderer.imageIndex (CollectibleRenderer.coinImages loaded) i = (i mod 4)%nat /\
     CollectibleRendererAssets.imageIndex
       (CollectibleRendererAssets.coinImages getExtensionURL loaded') i = (i mod 4)%nat /\
     imagesDrawn (fst (CollectibleRenderer.drawCoin (CollectibleRenderer.coinImages loaded) cam c i))
     = (if shown cam c && loaded (i mod 4)%nat then [(i mod 4)%nat] else []) /\
     imagesDrawn (fst (CollectibleRendererAssets.drawCoin
                         (CollectibleRendererAssets.coinImages getExtensionURL loaded') cam c i))
     = (if shown cam c then [(i mod 4)%nat] else [])) /\
  imagesDrawn (CollectibleRenderer.drawCollectibles loaded coins cam)
  = concat (imap (fun i c => if shown cam c && loaded (i mod 4)%nat then [(i mod 4)%nat] else []) coins) /\
  imagesDrawn (CollectibleRendererAssets.drawCollectibles getExtensionURL loaded' coins cam)
  = concat (imap (fun i c => if shown cam c then [(i mod 4)%nat] else []) coins) /\
  ((forall k, loaded k = true) ->
   imagesDrawn (CollectibleRenderer.drawCollectibles loaded coins cam)
   = imagesDrawn (CollectibleRendererAssets.drawCollectibles getExtensionURL loaded' coins cam)).
Proof.
  assert (Hnew : imagesDrawn (CollectibleRenderer.drawCollectibles loaded coins cam)
    = concat (imap (fun i c => if shown cam c && loaded (i mod 4)%nat then [(i mod 4)%nat] else []) coins)).
  { unfold CollectibleRenderer.drawCollectibles. rewrite imagesDrawn_forEachIndexed.
    f_equal. apply imap_ext. intros i c _. apply new_images. }
  assert (Hold : imagesDrawn (CollectibleRendererAssets.drawCollectibles getExtensionURL loaded' coins cam)
    = concat (imap (fun i c => if shown cam c then [(i mod 4)%nat] else []) coins)).
  { unfold CollectibleRendererAssets.drawCollectibles. rewrite imagesDrawn_forEachIndexed.
    f_equal. apply imap_ext. intros i c _. apply old_images. }
  split; [| split; [exact Hnew | split; [exact Hold |]]].
  - intros i c _. auto using new_imageIndex, old_imageIndex, new_images, old_images.
  - intros Hl. rewrite Hnew, Hold. f_equal. apply imap_ext. intros i c _.
    by rewrite Hl, andb_true_r.
Qed.



End Assets.

(** **** Examples *)

Lemma coin_variant_is_position_mod_4_witness :
  imagesDrawn (CollectibleRenderer.drawCollectibles (fun _ => true) sampleCoins 0)
  = [0%nat; 1%nat] /\
  imagesDrawn (CollectibleRendererAssets.drawCollectibles (fun u => u) (fun _ => false) sampleCoins 0)
  = [0%nat; 1%nat].
Proof.
  destruct (coin_variant_is_position_mod_4 (fun u => u) (fun _ => true) (fun _ => false) sampleCoins 0)
    as (Hpos & _ & Hold & Hsame).
  pose proof (Hpos 1%nat (mkCoin 300 250 20 20 false) eq_refl) as _.
  split.
  - rewrite Hsame by reflexivity. rewrite Hold. reflexivity.
  - rewrite Hold. reflexivity.
Defined.

(** Scrolled on by 1000 px, the coin at position 5 of a longer array is drawn
    with image 1. *)
Example sixth_coin_second_image :
  imagesDrawn (CollectibleRendererAssets.drawCollectibles (fun u => u) (fun _ => true)
                 (sampleCoins ++ [mkCoin 1500 200 20 20 true; mkCoin 1600 200 20 20 false]) 1000)
  = [1%nat].
Proof. reflexivity. Qed.


(** The coin at 705, within 20 px of the right edge, is not drawn. *)
Example coin_right_of_canvas_hidden :
  specVisible 20 0 (mkCoin 705 250 20 20 false) /\
  draws (CollectibleRenderer.drawCoin (CollectibleRenderer.coinImages (fun _ => true)) 0
           (mkCoin 705 250 20 20 false) 3) = false.
Proof. split; [| reflexivity]. unfold specVisible, canvasWidth. cbn. repeat split; lra. Qed.


End CollectibleFacts.

(** ** The countdown timer *)

Module UseTimerFacts.
Import UseTimer.

Local Open Scope Z_scope.

(** Unfolds the monad and the primitive operations of the hook. *)
Ltac hook_step :=
  cbv beta iota zeta delta
    [mbind mret Eff_bind Eff_ret gets modify when exec notify
     saveToLocalStorage getFromLocalStorage clearIntervalRef startTimerInterval
     setTimeoutStartTimer
     set_timerState set_settingsRef set_intervalRef set_lastUpdateRef
     set_nextHandle set_storage set_timeouts
     timerState settingsRef intervalRef lastUpdateRef nextHandle storage notices
     timeouts
     with_timeRemaining with_isRunning with_completed with_breakActivity
     fst snd negb andb];
  cbn [mode timeRemaining isRunning breakActivity completed].

Lemma keys_distinct :
  TIMER_STATE_KEY <> TIMER_LAST_UPDATE_KEY /\
  TIMER_STATE_KEY <> SETTINGS_KEY /\
  TIMER_LAST_UPDATE_KEY <> SETTINGS_KEY.
Proof. repeat split; discriminate. Qed.

Lemma storageOk_save_state (t : TimerState) (m : gmap string StorageValue) :
  0 <= timeRemaining t -> storageOk m -> storageOk (<[TIMER_STATE_KEY := StoredTimerState t]> m).
Proof.
  intros Ht [Hs Hc]. destruct keys_distinct as (_ & N & _). split.
  - intros st. rewrite lookup_insert_eq. by intros [= <-].
  - intros c. rewrite lookup_insert_ne by done. apply Hc.
Qed.

Lemma storageOk_save_number (n : Z) (m : gmap string StorageValue) :
  storageOk m -> storageOk (<[TIMER_LAST_UPDATE_KEY := StoredNumber n]> m).
Proof.
  intros [Hs Hc]. destruct keys_distinct as (N1 & _ & N2). split.
  - intros st. rewrite lookup_insert_ne by done. apply Hs.
  - intros c. rewrite lookup_insert_ne by done. apply Hc.
Qed.

(** Proves [storageOk] of a storage obtained by the hook's writes. *)
Ltac storage_ok :=
  repeat lazymatch goal with
  | H : storageOk ?m |- storageOk ?m => exact H
  | |- storageOk (<[TIMER_LAST_UPDATE_KEY := StoredNumber _]> _) =>
      apply storageOk_save_number
  | |- storageOk (<[TIMER_STATE_KEY := StoredTimerState _]> _) =>
      apply storageOk_save_state; [cbn [timeRemaining]; auto with zarith |]
  end.

Section Facts.

Variable minutesToSeconds : Z -> Z.

Hypothesis minutesToSeconds_nonneg : forall m, 0 <= m -> 0 <= minutesToSeconds m.

Implicit Types (ext : bool) (h : Hook) (now : Z).

(** Splits [hookOk] of an explicit record into its three parts. *)
Ltac hook_ok :=
  unfold hookOk in *; cbn [timerState settingsRef storage timeRemaining] in *;
  split; [try assumption; try lia; auto with zarith | split; [try assumption; try (by split) | storage_ok]].

Lemma handleTimerCompletion_ok ext now m h :
  hookOk h ->
  0 <= timeRemaining (fst (handleTimerCompletion minutesToSeconds ext now m h)) /\
  hookOk (snd (handleTimerCompletion minutesToSeconds ext now m h)) /\
  timerState (snd (handleTimerCompletion minutesToSeconds ext now m h)) = timerState h.
Proof.
  destruct h as [ts c r lu nh st ns tq].
  unfold handleTimerCompletion, hookOk. hook_step.
  intros (Ht & [Hf Hb] & Hs).
  destruct m, ext; hook_step; cbn [timeRemaining];
    (split; [auto | split; [| reflexivity]]);
    (split; [assumption | split; [by split |]]);
    storage_ok.
Qed.

Lemma intervalTick_ok ext now h :
  hookOk h -> hookOk (exec (intervalTick minutesToSeconds ext now) h).
Proof.
  intros Hh. unfold intervalTick.
  destruct h as [ts c [id|] lu nh st ns tq]; hook_step; [| exact Hh].
  destruct (Z.leb_spec (timeRemaining ts) 1) as [Hle | Hgt].
  - pose proof (handleTimerCompletion_ok ext now (mode ts) _ Hh) as (Hs & Hh' & _).
    destruct (handleTimerCompletion _ _ _ _ _) as [s h']. cbn [fst snd] in *.
    destruct h' as [ts' c' r' lu' nh' st' ns' tq']. destruct Hh' as (_ & Hc & Hst).
    hook_ok.
  - destruct Hh as (Ht & Hc & Hst). destruct ext; hook_step; hook_ok.
Qed.

Lemma resetTimer_ok m h : hookOk h -> hookOk (exec (resetTimer minutesToSeconds m) h).
Proof.
  destruct h as [ts c r lu nh st ns tq]. intros (Ht & [Hf Hb] & Hst).
  unfold resetTimer. hook_step. cbn in Hf, Hb. destruct m; hook_ok.
Qed.

(** Whatever render created it, [startTimer] writes a remaining time that
    is positive or taken from the settings. *)
Lemma startTimer_ok ext cl now h :
  hookOk h -> hookOk (exec (startTimer minutesToSeconds ext cl now) h).
Proof.
  intros Hh. unfold startTimer.
  destruct (isRunning cl); [exact Hh |].
  destruct (Z.leb_spec (timeRemaining cl) 0) as [Hle | Hgt].
  - by apply resetTimer_ok.
  - destruct h as [ts c r lu nh st ns tq]. destruct Hh as (Ht & Hc & Hst).
    cbn [timerState timeRemaining] in *.
    destruct ext; hook_step; hook_ok.
Qed.

Lemma pauseTimer_ok cl h : hookOk h -> hookOk (exec (pauseTimer cl) h).
Proof.
  destruct h as [ts c r lu nh st ns tq]. intros (Ht & Hc & Hst).
  unfold pauseTimer. hook_step. destruct (isRunning cl); hook_step; hook_ok.
Qed.

Lemma selectBreakActivity_ok cl a h : hookOk h -> hookOk (exec (selectBreakActivity cl a) h).
Proof.
  destruct h as [ts c r lu nh st ns tq]. intros (Ht & Hc & Hst).
  unfold selectBreakActivity. hook_step.
  destruct (truthyActivity a); destruct (isRunning cl); hook_step; hook_ok.
Qed.

Lemma timeoutFires_ok ext now h :
  hookOk h -> hookOk (exec (timeoutFires minutesToSeconds ext now) h).
Proof.
  intros Hh. unfold timeoutFires.
  destruct h as [ts c r lu nh st ns [|cl tq]]; hook_step; [exact Hh |].
  apply startTimer_ok. exact Hh.
Qed.

Lemma updateFocusDuration_ok cl m h :
  0 <= m -> hookOk h -> hookOk (exec (updateFocusDuration minutesToSeconds cl m) h).
Proof.
  destruct h as [ts c r lu nh st ns tq]. intros Hm (Ht & Hc & Hst).
  unfold updateFocusDuration. hook_step.
  destruct (isRunning cl); [hook_step; hook_ok |].
  destruct (bool_decide (mode cl = Focus)); hook_step; hook_ok.
Qed.

Lemma updateBreakDuration_ok cl m h :
  0 <= m -> hookOk h -> hookOk (exec (updateBreakDuration minutesToSeconds cl m) h).
Proof.
  destruct h as [ts c r lu nh st ns tq]. intros Hm (Ht & Hc & Hst).
  unfold updateBreakDuration. hook_step.
  destruct (isRunning cl); [hook_step; hook_ok |].
  destruct (bool_decide (mode cl = Break)); hook_step; hook_ok.
Qed.

Lemma settingsChanged_ok c h :
  settingsOk c -> hookOk h -> hookOk (exec (settingsChanged c) h).
Proof.
  destruct h as [ts c0 r lu nh st ns tq]. intros Hc' (Ht & Hc & Hst).
  unfold settingsChanged. hook_step. hook_ok.
Qed.

Lemma loadStoredTimerState_ok ext now h :
  hookOk h -> hookOk (exec (loadStoredTimerState minutesToSeconds ext now) h).
Proof.
  intros Hh. unfold loadStoredTimerState.
  destruct ext; [| exact Hh]. cbn [negb].
  destruct h as [ts c r lu nh st ns tq]. hook_step.
  destruct Hh as (Ht & Hc & Hst). cbn [timerState settingsRef storage] in *.
  destruct (st !! SETTINGS_KEY) as [[| |c']|] eqn:ES; hook_step;
    [ pose proof Hc as Hc1 | pose proof Hc as Hc1
    | pose proof (proj2 Hst _ ES) as Hc1 | pose proof Hc as Hc1 ];
    (destruct (st !! TIMER_STATE_KEY) as [[st0| |]|] eqn:ET; hook_step; [| hook_ok ..]);
    pose proof (proj1 Hst _ ET) as Ht0;
    (destruct (st !! TIMER_LAST_UPDATE_KEY) as [[|lu0|]|]; hook_step; [hook_ok | | hook_ok ..]);
    (destruct (lu0 =? 0); hook_step; [hook_ok |]);
    (destruct (isRunning st0); hook_step; [| hook_ok]);
    (destruct (Z.leb_spec (Z.max 0 (timeRemaining st0 - (now - lu0) / 1000)) 0) as [Hle | Hgt];
     hook_step; [| destruct r; hook_step; hook_ok]).
  all: match goal with
       | |- context [handleTimerCompletion ?f ?e ?n ?m ?h0] =>
           let H := fresh "H" in
           assert (H : hookOk h0) by (hook_ok; done);
           destruct (handleTimerCompletion_ok e n m h0 H) as (_ & (Ht2 & Hc2 & Hst2) & _);
           destruct (handleTimerCompletion f e n m h0) as [s2 [ts2 c2 r2 lu2 nh2 st2 ns2 tq2]];
           hook_step; hook_ok
       end.
Qed.

Lemma callback_ok ext cl c h :
  match c with CallUpdateFocusDuration m | CallUpdateBreakDuration m => 0 <= m | _ => True end ->
  hookOk h -> hookOk (exec (callback minutesToSeconds ext cl c) h).
Proof.
  destruct c; cbn [callback]; intros Hc Hh;
    auto using startTimer_ok, pauseTimer_ok, selectBreakActivity_ok,
      updateFocusDuration_ok, updateBreakDuration_ok.
Qed.

Lemma perform_ok ext o h :
  operationOk o -> hookOk h -> hookOk (exec (perform minutesToSeconds ext o) h).
Proof.
  destruct o as [| | | | | | | | | |cl c]; cbn [operationOk perform]; intros Ho Hh;
    try (change (exec (gets timerState ≫= ?f) h) with (exec (f (timerState h)) h); cbv beta);
    auto using intervalTick_ok, resetTimer_ok, loadStoredTimerState_ok,
      settingsChanged_ok, timeoutFires_ok, callback_ok.
Qed.

Lemma run_ok ext ops h :
  Forall operationOk ops -> hookOk h -> hookOk (run minutesToSeconds ext ops h).
Proof.
  intros Hops. revert h. induction Hops as [|o ops Ho _ IH]; intros h Hh.
  - exact Hh.
  - unfold run in *. simpl forEach.
    assert (E : exec (perform minutesToSeconds ext o;; forEach (perform minutesToSeconds ext) ops) h
                = exec (forEach (perform minutesToSeconds ext) ops)
                       (exec (perform minutesToSeconds ext o) h)).
    { unfold exec, mbind, Eff_bind. by destruct (perform _ _ _ _). }
    rewrite E. apply IH. by apply perform_ok.
Qed.

Lemma initial_ok settings store now :
  settingsOk settings -> storageOk store -> hookOk (initial minutesToSeconds settings store now).
Proof.
  intros [Hf Hb] Hs. unfold initial. hook_ok.
Qed.


(** **** The two paths that take time off the clock *)

Lemma intervalTick_hands_off ext now h :
  intervalRef h <> None ->
  timeRemaining (timerState h) <= 1 ->
  timerState (exec (intervalTick minutesToSeconds ext now) h)
  = mkTimerState
      (match mode (timerState h) with Focus => Break | Break => Focus end)
      (minutesToSeconds
         (match mode (timerState h) with
          | Focus => breakDuration (settingsRef h)
          | Break => focusDuration (settingsRef h)
          end))
      false None true.
Proof.
  destruct h as [ts c [id|] lu nh st ns tq]; [intros _ | done].
  cbn [timerState settingsRef]. intros Hle.
  unfold intervalTick, handleTimerCompletion. hook_step.
  destruct (Z.leb_spec (timeRemaining ts) 1); [| lia].
  destruct (mode ts), ext; reflexivity.
Qed.

Lemma intervalTick_counts_down ext now h :
  intervalRef h <> None ->
  1 < timeRemaining (timerState h) ->
  timeRemaining (timerState (exec (intervalTick minutesToSeconds ext now) h))
  = timeRemaining (timerState h) - 1.
Proof.
  destruct h as [ts c [id|] lu nh st ns tq]; [intros _ | done].
  cbn [timerState]. intros Hgt.
  unfold intervalTick. hook_step.
  destruct (Z.leb_spec (timeRemaining ts) 1); [lia |].
  destruct ext; reflexivity.
Qed.

Lemma loadStoredTimerState_clamps now h st lu :
  storage h !! TIMER_STATE_KEY = Some (StoredTimerState st) ->
  storage h !! TIMER_LAST_UPDATE_KEY = Some (StoredNumber lu) ->
  lu <> 0 ->
  isRunning st = true ->
  0 < Z.max 0 (timeRemaining st - (now - lu) / 1000) ->
  timeRemaining (timerState (exec (loadStoredTimerState minutesToSeconds true now) h))
  = Z.max 0 (timeRemaining st - (now - lu) / 1000).
Proof.
  destruct h as [ts c r lu0 nh m ns tq]. cbn [storage].
  intros ET EL Hlu Hrun Hpos.
  unfold loadStoredTimerState. hook_step. rewrite ET, EL.
  destruct (Z.eqb_spec lu 0); [done |]. rewrite Hrun.
  destruct (Z.leb_spec (Z.max 0 (timeRemaining st - (now - lu) / 1000)) 0); [lia |].
  destruct (m !! SETTINGS_KEY) as [[| |c']|]; destruct r; reflexivity.
Qed.

(** C9. Whatever the sequence of operations on the hook (interval firings,
    with the completions they trigger, resets, starts, pauses, reloads of
    the stored state, changes of activity, duration and settings), with
    non-negative configured durations [timerState.timeRemaining] is never
    negative.  The interval counts down by one only above 1 and hands over
    to the completion otherwise, and a reload of a running stored state sets
    the remaining time to the larger of 0 and the stored time less the
    seconds elapsed. *)
Theorem timeRemaining_never_negative ext settings store now0 ops :
  settingsOk settings ->
  storageOk store ->
  Forall operationOk ops ->
  let h := run minutesToSeconds ext ops (initial minutesToSeconds settings store now0) in
  0 <= timeRemaining (timerState h) /\
  (forall now,
     intervalRef h <> None ->
     (timeRemaining (timerState h) <= 1 ->
      timerState (exec (intervalTick minutesToSeconds ext now) h)
      = mkTimerState
          (match mode (timerState h) with Focus => Break | Break => Focus end)
          (minutesToSeconds
             (match mode (timerState h) with
              | Focus => breakDuration (settingsRef h)
              | Break => focusDuration (settingsRef h)
              end))
          false None true) /\
     (1 < timeRemaining (timerState h) ->
      timeRemaining (timerState (exec (intervalTick minutesToSeconds ext now) h))
      = timeRemaining (timerState h) - 1)) /\
  (forall now st lu,
     ext = true ->
     storage h !! TIMER_STATE_KEY = Some (StoredTimerState st) ->
     storage h !! TIMER_LAST_UPDATE_KEY = Some (StoredNumber lu) ->
     lu <> 0 ->
     isRunning st = true ->
     0 < Z.max 0 (timeRemaining st - (now - lu) / 1000) ->
     timeRemaining (timerState (exec (loadStoredTimerState minutesToSeconds ext now) h))
     = Z.max 0 (timeRemaining st - (now - lu) / 1000)).
Proof.
  intros Hset Hstore Hops. cbv zeta.
  split; [| split].
  - apply (run_ok ext ops); [exact Hops |]. by apply initial_ok.
  - intros now Hi. split.
    + by apply intervalTick_hands_off.
    + by apply intervalTick_counts_down.
  - intros now st lu ->. apply loadStoredTimerState_clamps.
Qed.

(** **** Calls that the guards turn away, and one that they let through *)

Lemma startTimer_exec ext cl now h :
  isRunning cl = false -> 0 < timeRemaining cl ->
  exec (startTimer minutesToSeconds ext cl now) h
  = mkHook (with_completed false (with_isRunning true cl)) (settingsRef h)
      (Some (nextHandle h)) (lastUpdateRef h) (Pos.succ (nextHandle h))
      (if ext
       then <[TIMER_LAST_UPDATE_KEY := StoredNumber now]>
              (<[TIMER_STATE_KEY := StoredTimerState (with_completed false (with_isRunning true cl))]>
                 (storage h))
       else storage h)
      (notices h) (timeouts h).
Proof.
  intros Hr Ht. unfold startTimer. rewrite Hr.
  destruct (Z.leb_spec (timeRemaining cl) 0) as [|_]; [lia |].
  destruct h as [t c r lu n st no tq]. destruct ext; reflexivity.
Qed.

(** C8.  [startTimer] tests and copies the [timerState] of the render that
    created it.  A [startTimer] created while the timer was running returns
    at once, and so does a [pauseTimer] created while it was not: nothing
    changes, neither the timer state nor the interval, the storage or the
    notices, and the call returns normally.  This is what a caller gets that
    uses the functions of the latest render.  [pauseTimer] leaves the timer
    state of a timer that is not running as it is in any case.  But the
    [startTimer] that [selectBreakActivity] hands to [setTimeout] was created
    before the selection, while the timer was not running: when it fires, it
    passes its guard although the timer has been started since, writes the
    state of its own render to the timer and to the storage, and replaces
    the running interval.  On a break of 300 s: the game is selected, the
    timer is started, and the scheduled call then takes the selected
    activity back and starts a second interval. *)
Theorem start_guard_reads_render_state ext (cl : TimerState) now h :
  (isRunning cl = true -> startTimer minutesToSeconds ext cl now h = (tt, h)) /\
  (isRunning cl = false -> pauseTimer cl h = (tt, h)) /\
  (isRunning (timerState h) = true ->
   perform minutesToSeconds ext (Start now) h = (tt, h)) /\
  (isRunning (timerState h) = false ->
   perform minutesToSeconds ext Pause h = (tt, h) /\
   timerState (exec (pauseTimer cl) h) = timerState h) /\
  (isRunning cl = false -> 0 < timeRemaining cl ->
   let h' := exec (timeoutFires minutesToSeconds ext now) (set_timeouts (cl :: timeouts h) h) in
   timerState h' = with_completed false (with_isRunning true cl) /\
   intervalRef h' = Some (nextHandle h) /\
   (ext = true ->
    storage h' !! TIMER_STATE_KEY
    = Some (StoredTimerState (with_completed false (with_isRunning true cl))))) /\
  (let started :=
     run minutesToSeconds ext [SelectBreakActivity (Some "game"); Start 1010] breakHook in
   let fired := exec (perform minutesToSeconds ext (Timeout 1100)) started in
   timerState started = mkTimerState Break 300 true (Some "game") false /\
   intervalRef started = Some 1%positive /\
   timeouts started = [timerState breakHook] /\
   timerState fired = mkTimerState Break 300 true None false /\
   intervalRef fired = Some 2%positive).
Proof.
  split; [| split; [| split; [| split; [| split]]]].
  - intros Hr. unfold startTimer. by rewrite Hr.
  - intros Hr. unfold pauseTimer. by rewrite Hr.
  - intros Hr. cbn [perform callback]. unfold startTimer, mbind, Eff_bind, gets. by rewrite Hr.
  - intros Hr. split.
    + cbn [perform callback]. unfold pauseTimer, mbind, Eff_bind, gets. by rewrite Hr.
    + destruct h as [[m t r a d] c i lu n st no tq]. cbn [timerState isRunning] in Hr.
      subst r. unfold pauseTimer. by destruct (isRunning cl).
  - intros Hr Ht. cbv zeta.
    assert (E : exec (timeoutFires minutesToSeconds ext now) (set_timeouts (cl :: timeouts h) h)
                = exec (startTimer minutesToSeconds ext cl now) h).
    { destruct h as [t c i lu n st no tq]. reflexivity. }
    rewrite E, startTimer_exec by done. cbn [timerState intervalRef storage].
    split; [done |]. split; [done |]. intros ->.
    destruct keys_distinct as (N & _ & _).
    rewrite lookup_insert_ne by done. by rewrite lookup_insert_eq.
  - destruct ext; vm_compute; done.
Qed.

End Facts.

(** **** Examples *)

(** The functions of a render that saw the timer running, and of one that
    saw it paused. *)
Lemma start_guard_reads_render_state_witness :
  startTimer (fun m => m * 60) true (timerState runningHook) 5000 runningHook = (tt, runningHook) /\
  pauseTimer (timerState pausedHook) pausedHook = (tt, pausedHook) /\
  perform (fun m => m * 60) true (Start 5000) runningHook = (tt, runningHook).
Proof.
  split; [| split].
  - apply (start_guard_reads_render_state (fun m => m * 60) true
             (timerState runningHook) 5000 runningHook). reflexivity.
  - apply (start_guard_reads_render_state (fun m => m * 60) true
             (timerState pausedHook) 5000 pausedHook). reflexivity.
  - apply (start_guard_reads_render_state (fun m => m * 60) true
             (timerState runningHook) 5000 runningHook). reflexivity.
Defined.

(** Started from a paused state the timer does run, and paused from a
    running state it does stop. *)
Example start_pause_with_effect :
  isRunning (timerState (exec (perform (fun m => m * 60) true (Start 5000)) pausedHook)) = true /\
  isRunning (timerState (exec (perform (fun m => m * 60) true Pause) runningHook)) = false.
Proof. split; reflexivity. Qed.

(** Two activities are selected one after the other within the delay: the
    first scheduled call starts the timer, the second one fires on the
    running timer and writes the state that was current between the two
    selections. *)
Example second_scheduled_start_overwrites :
  let selected :=
    run (fun m => m * 60) true
      [SelectBreakActivity (Some "game"); SelectBreakActivity (Some "relax")] breakHook in
  let first := exec (perform (fun m => m * 60) true (Timeout 100)) selected in
  let second := exec (perform (fun m => m * 60) true (Timeout 110)) first in
  breakActivity (timerState selected) = Some "relax" /\
  timerState first = mkTimerState Break 300 true None false /\
  intervalRef first = Some 1%positive /\
  timerState second = mkTimerState Break 300 true (Some "game") false /\
  intervalRef second = Some 2%positive.
Proof. vm_compute. done. Qed.

Lemma timeRemaining_never_negative_witness :
  0 <= timeRemaining (timerState
         (run (fun m => m * 60) true
            [Restore 1010000; Tick 1011000; Pause; Start 1020000; Tick 1021000;
             SettingsChanged (mkTimerSettings 0 0); Reset Break; Start 1030000;
             UpdateBreakDuration 3; SelectBreakActivity (Some "game"); Start 1031000;
             Timeout 1031100; Tick 1032000;
             Held (mkTimerState Focus 0 false None false) (CallStartTimer 1033000)]
            (initial (fun m => m * 60) sampleSettings sampleStore 0))).
Proof.
  apply (timeRemaining_never_negative (fun m => m * 60)).
  - intros m Hm. lia.
  - split; cbn; lia.
  - split.
    + intros st E. vm_compute in E. injection E as <-. cbn. lia.
    + intros c E. vm_compute in E. injection E as <-. split; cbn; lia.
  - repeat constructor; cbn; lia.
Defined.

(** The run above, step by step: the reload finds 30 s left, the interval
    takes one second off, and so on. *)
Example restore_then_tick :
  timeRemaining (timerState
     (run (fun m => m * 60) true [Restore 1010000]
        (initial (fun m => m * 60) sampleSettings sampleStore 0))) = 30 /\
  timeRemaining (timerState
     (run (fun m => m * 60) true [Restore 1010000; Tick 1011000]
        (initial (fun m => m * 60) sampleSettings sampleStore 0))) = 29 /\
  timerState
     (run (fun m => m * 60) true [Restore 1039500; Tick 1040500]
        (initial (fun m => m * 60) sampleSettings sampleStore 0))
  = mkTimerState Focus 60 false None true.
Proof. repeat split; vm_compute; reflexivity. Qed.

End UseTimerFacts.

(** ** The break-length editor *)

Module BreakDurationDialogFacts.
Import BreakDurationDialog JSFacts.

(** Unfolds the monad and the state setters of the dialog. *)
Ltac dialog_step :=
  cbv beta iota zeta delta
    [mbind mret Eff_bind Eff_ret gets modify when exec
     setTempDuration setInputValue setIsOpen call resetToProp
     breakDuration tempDuration inputValue isOpen calls
     fst snd].

(** Only [handleSave] calls [onChangeBreakDuration], once, and with the
    clamped value. *)
Lemma interact_saved (i : Interaction) (d : Dialog) :
  saved (exec (interact i) d)
  = saved d ++ match i with
               | Save => [JS.minNumber (JS.maxNumber (JS.Finite 1) (tempDuration d)) (JS.Finite 15)]
               | _ => []
               end.
Proof.
  destruct d as [b t v o cs].
  destruct i; cbn [interact]; rewrite ?app_nil_r.
  - unfold decreaseDuration. dialog_step. by destruct (JS.gtNumber _ _).
  - unfold increaseDuration. dialog_step. by destruct (JS.ltNumber _ _).
  - unfold handleInputChange. dialog_step. by destruct (valid _).
  - unfold handleInputBlur. dialog_step. destruct (valid _); [done |].
    dialog_step. unfold saved. cbn [calls]. rewrite omap_app. cbn. by rewrite app_nil_r.
  - unfold handleKeyDown, handleInputBlur. dialog_step.
    destruct (bool_decide _); [| done]. destruct (valid _); [done |].
    dialog_step. unfold saved. cbn [calls]. rewrite omap_app. cbn. by rewrite app_nil_r.
  - unfold handleSave. dialog_step. unfold saved. cbn [calls].
    rewrite !omap_app. cbn [omap list_omap app]. by rewrite !app_nil_r.
  - unfold handleCancel. dialog_step. done.
  - unfold handleOpenChange. dialog_step. by destruct open.
  - unfold propChanged. dialog_step. done.
Qed.

Lemma run_cons (i : Interaction) (steps : list Interaction) (d : Dialog) :
  run (i :: steps) d = run steps (exec (interact i) d).
Proof.
  unfold run. simpl forEach. unfold exec, mbind, Eff_bind. by destruct (interact i d).
Qed.

Lemma run_steps_app (xs ys : list Interaction) (d : Dialog) :
  run (xs ++ ys) d = run ys (run xs d).
Proof.
  revert d. induction xs as [|i xs IH]; intros d; [reflexivity |].
  cbn [app]. by rewrite !run_cons, IH.
Qed.

Lemma run_saved_count (steps : list Interaction) (d : Dialog) :
  length (saved (run steps d)) = (length (saved d) + saveCount steps)%nat.
Proof.
  revert d. induction steps as [|i steps IH]; intros d.
  - unfold saveCount. cbn. lia.
  - rewrite run_cons, IH, interact_saved, length_app. unfold saveCount.
    destruct i; cbn [List.filter length]; lia.
Qed.

(** **** What the clamp lets through *)

Lemma clamp_finite (q : Q) :
  JS.minNumber (JS.maxNumber (JS.Finite 1) (JS.Finite q)) (JS.Finite 15)
  = JS.Finite (if JS.lt 1 q then (if JS.lt 15 q then 15 else q) else 1)%Q.
Proof.
  unfold JS.minNumber, JS.maxNumber. cbn [JS.isNaN orb JS.ltNumber].
  destruct (JS.lt 1 q); cbn [JS.isNaN orb JS.ltNumber]; [by destruct (JS.lt 15 q) |].
  reflexivity.
Qed.

Lemma clamp_inRange (t : JS.Number) :
  JS.isNaN t = false -> inRange (JS.minNumber (JS.maxNumber (JS.Finite 1) t) (JS.Finite 15)).
Proof.
  destruct t as [|[|]|q]; [done | | |]; intros _.
  - change (inRange (JS.Finite 1)). cbn [inRange]. lra.
  - change (inRange (JS.Finite 15)). cbn [inRange]. lra.
  - rewrite clamp_finite.
    destruct (JS.lt 1 q) eqn:L1; [| cbn [inRange]; lra]. apply lt_true in L1.
    destruct (JS.lt 15 q) eqn:L2; [cbn [inRange]; lra |]. apply lt_false in L2.
    cbn [inRange]. lra.
Qed.

Lemma whole_between (q : Q) (z : Z) :
  (q == inject_Z z)%Q -> (1 <= q <= 15)%Q -> (1 <= z <= 15)%Z.
Proof.
  intros E [Hlo Hhi]. rewrite E in Hlo, Hhi.
  change 1%Q with (inject_Z 1) in Hlo. change 15%Q with (inject_Z 15) in Hhi.
  rewrite <- Zle_Qle in Hlo, Hhi. lia.
Qed.

Lemma clamp_whole (t : JS.Number) : noFraction t -> wholeInRange (JS.minNumber (JS.maxNumber (JS.Finite 1) t) (JS.Finite 15)).
Proof.
  destruct t as [|[|]|q]; [done | | |].
  - intros _. exists 1%Z. split; [lia | reflexivity].
  - intros _. exists 15%Z. split; [lia | reflexivity].
  - intros [z E]. pose proof (clamp_inRange (JS.Finite q) eq_refl) as R.
    rewrite clamp_finite in *. cbn [wholeInRange inRange] in *.
    destruct (JS.lt 1 q); [destruct (JS.lt 15 q) |].
    + exists 15%Z. split; [lia | reflexivity].
    + exists z. split; [by apply (whole_between q) | done].
    + exists 1%Z. split; [lia | reflexivity].
Qed.

(** A text that passes the test of the input handlers denotes a whole
    number from 1 to 15. *)
Lemma valid_minutes (text : string) :
  valid (parseInt text) = true ->
  exists z : Z, (1 <= z <= 15)%Z /\ parseInt text = JS.Finite (inject_Z z).
Proof.
  unfold parseInt. destruct (parseInteger text) as [z|]; [| done].
  unfold JS.ofInteger. destruct (_ <=? _)%Z.
  - by destruct (z <? 0)%Z.
  - destruct (round_whole (inject_Z z) z) as [z' E]; [reflexivity |].
    rewrite E. unfold valid, JS.geNumber, JS.leNumber.
    cbn [JS.isNaN negb andb JS.ltNumber].
    rewrite !andb_true_iff, !negb_true_iff. intros [L H].
    apply lt_false in L, H.
    exists z'. split; [| reflexivity].
    by apply (whole_between (inject_Z z')).
Qed.

Lemma valid_whole (text : string) :
  valid (parseInt text) = true -> wholeInRange (parseInt text).
Proof.
  intros V. destruct (valid_minutes text V) as (z & Hz & ->). by exists z.
Qed.

(** **** What the handlers keep *)

Lemma whole_inRange (v : JS.Number) : wholeInRange v -> noFraction v /\ JS.isNaN v = false.
Proof. destruct v as [| |q]; [done.. |]. intros (z & _ & E). split; [by exists z | done]. Qed.

Lemma plus_one_noFraction (t : JS.Number) (one : Q) (z1 : Z) :
  (one == inject_Z z1)%Q -> noFraction t -> noFraction (JS.addNumber t (JS.Finite one)).
Proof.
  intros E1. destruct t as [|s|q]; [done.. |]. intros [z E]. cbn.
  destruct (round_whole (q + one) (z + z1)) as [z' E'].
  { rewrite E, E1, inject_Z_plus. reflexivity. }
  exists z'. unfold JS.add. by rewrite E'.
Qed.

Lemma plus_one_isNaN (t : JS.Number) (one : Q) :
  JS.isNaN t = false -> JS.isNaN (JS.addNumber t (JS.Finite one)) = false.
Proof. by destruct t. Qed.

Lemma interact_kept (P : JS.Number -> Prop) (i : Interaction) (d : Dialog) :
  (forall t, P t -> P (JS.addNumber t (JS.Finite 1))) ->
  (forall t, P t -> P (JS.subNumber t (JS.Finite 1))) ->
  (forall v, wholeInRange v -> P v) ->
  match i with PropChanged b => P b | _ => True end ->
  kept P d -> kept P (exec (interact i) d).
Proof.
  intros Hadd Hsub Hwhole Hi [Hb Ht]. destruct d as [b t v o cs].
  cbn [breakDuration tempDuration] in *. unfold kept.
  destruct i; cbn [interact].
  - unfold decreaseDuration. dialog_step. destruct (JS.gtNumber _ _); dialog_step; auto.
  - unfold increaseDuration. dialog_step. destruct (JS.ltNumber _ _); dialog_step; auto.
  - unfold handleInputChange. dialog_step.
    destruct (valid _) eqn:V; dialog_step; auto using valid_whole.
  - unfold handleInputBlur. dialog_step.
    destruct (valid _) eqn:V; dialog_step; auto using valid_whole.
  - unfold handleKeyDown, handleInputBlur. dialog_step.
    destruct (bool_decide _); dialog_step; [| auto].
    destruct (valid _) eqn:V; dialog_step; auto using valid_whole.
  - unfold handleSave. dialog_step. auto.
  - unfold handleCancel. dialog_step. auto.
  - unfold handleOpenChange. dialog_step. destruct open; dialog_step; auto.
  - unfold propChanged. dialog_step. auto.
Qed.

Lemma run_saved (P Q : JS.Number -> Prop) (steps : list Interaction) :
  (forall t, P t -> P (JS.addNumber t (JS.Finite 1))) ->
  (forall t, P t -> P (JS.subNumber t (JS.Finite 1))) ->
  (forall v, wholeInRange v -> P v) ->
  (forall u, P u -> Q (JS.minNumber (JS.maxNumber (JS.Finite 1) u) (JS.Finite 15))) ->
  forall d : Dialog,
    kept P d -> Forall P (props (breakDuration d) steps) -> Forall Q (saved d) ->
    kept P (run steps d) /\ Forall Q (saved (run steps d)).
Proof.
  intros Hadd Hsub Hwhole HQ.
  induction steps as [|i steps IH]; intros d Hk Hp Hs; [done |].
  rewrite run_cons.
  unfold props in Hp. apply Forall_cons in Hp as [_ Hp].
  assert (Hi : match i with PropChanged b' => P b' | _ => True end).
  { destruct i; try done. cbn in Hp. by apply Forall_cons in Hp as [? _]. }
  pose proof (interact_kept P i d Hadd Hsub Hwhole Hi Hk) as Hk'.
  apply IH; [exact Hk' | |].
  - unfold props. apply Forall_cons. split; [apply Hk' |].
    destruct i; try exact Hp. cbn in Hp. by apply Forall_cons in Hp as [_ ?].
  - rewrite interact_saved. apply Forall_app. split; [exact Hs |].
    destruct i; try constructor; [| constructor]. apply HQ, Hk.
Qed.

(** C10 (amended).  Whatever the user does with the dialog, every [Save]
    passes exactly one value to [onChangeBreakDuration], namely
    [Math.min(Math.max(1, tempDuration), 15)], and nothing else passes one.
    That value lies between 1 and 15 whenever the prop [breakDuration] has
    not been [NaN], and it is a whole number from 1 to 15 whenever the prop
    has been a whole number (or an infinity), whatever text was typed into
    the field.  Right after a text that the field accepts, the value is a
    whole number from 1 to 15 whatever the prop is. *)
Theorem saved_duration_is_clamped (b : JS.Number) (steps : list Interaction) :
  let d := run steps (initial b) in
  saved (run (steps ++ [Save]) (initial b))
  = saved d ++ [JS.minNumber (JS.maxNumber (JS.Finite 1) (tempDuration d)) (JS.Finite 15)] /\
  length (saved d) = saveCount steps /\
  (Forall (fun v => JS.isNaN v = false) (props b steps) -> Forall inRange (saved d)) /\
  (Forall noFraction (props b steps) -> Forall wholeInRange (saved d)) /\
  (forall text : string,
     valid (parseInt text) = true ->
     exists v, wholeInRange v /\
       saved (run (steps ++ [InputChange text; Save]) (initial b)) = saved d ++ [v]).
Proof.
  cbv zeta. split; [| split; [| split; [| split]]].
  - rewrite run_steps_app, run_cons. change (run [] ?x) with x. by rewrite interact_saved.
  - by rewrite run_saved_count.
  - intros Hp.
    apply (run_saved (fun v => JS.isNaN v = false) inRange steps); try done.
    + intros t. apply plus_one_isNaN.
    + intros t. apply plus_one_isNaN.
    + intros v Hv. by apply whole_inRange.
    + apply clamp_inRange.
    + unfold props in Hp. apply Forall_cons in Hp as [Hb _]. by split.
  - intros Hp.
    apply (run_saved noFraction wholeInRange steps); try done.
    + intros t. by apply (plus_one_noFraction t 1 1).
    + intros t. by apply (plus_one_noFraction t (- (1)) (- (1))).
    + intros v Hv. by apply whole_inRange.
    + apply clamp_whole.
    + unfold props in Hp. apply Forall_cons in Hp as [Hb _]. by split.
  - intros text V.
    exists (JS.minNumber (JS.maxNumber (JS.Finite 1) (parseInt text)) (JS.Finite 15)).
    split; [by apply clamp_whole, whole_inRange, valid_whole |].
    rewrite run_steps_app, !run_cons. change (run [] ?x) with x.
    rewrite !interact_saved, app_nil_r. do 2 f_equal.
    destruct (run steps (initial b)) as [b' t v o cs].
    cbn [interact]. unfold handleInputChange. dialog_step. by rewrite V.
Qed.

(** **** Examples *)

Example parseInt_examples :
  parseInteger "12abc" = Some 12%Z /\ parseInteger "  -7" = Some (-7)%Z /\
  parseInteger "0x1F" = Some 31%Z /\ parseInteger "" = None /\ parseInteger "abc" = None /\
  parseInteger "+15.9" = Some 15%Z /\ parseInteger "1e3" = Some 1%Z /\
  parseInt "12abc" = JS.Finite 12 /\ parseInt "abc" = JS.NaN.
Proof. vm_compute. repeat split; reflexivity. Qed.

(** Texts out of range leave the last valid value in place; a prop out of
    range is clamped when saved. *)
Example save_after_typing :
  saved (run [InputChange "20"; Save; InputChange "7"; Save; Increase; Increase; Save;
              InputChange "0x3e8"; InputBlur; Save;
              PropChanged (JS.Finite 99); Save; PropChanged (JS.Finite (-4)); Decrease; Save]
             (initial (JS.Finite 5)))
  = [JS.Finite 5; JS.Finite 7; JS.Finite 9; JS.Finite 9; JS.Finite 15; JS.Finite 1].
Proof. vm_compute. reflexivity. Qed.

Lemma saved_duration_is_clamped_witness :
  Forall wholeInRange
    (saved (run [InputChange "20"; Save; InputChange "7"; Save; Increase; Save;
                 PropChanged (JS.Finite 99); Save]
                (initial (JS.Finite 5)))) /\
  exists v, wholeInRange v /\
    saved (run ([InputChange "abc"] ++ [InputChange "12 min"; Save]) (initial JS.NaN))
    = saved (run [InputChange "abc"] (initial JS.NaN)) ++ [v].
Proof.
  split.
  - apply (saved_duration_is_clamped (JS.Finite 5)
             [InputChange "20"; Save; InputChange "7"; Save; Increase; Save;
              PropChanged (JS.Finite 99); Save]).
    repeat constructor; [by exists 5%Z | by exists 99%Z].
  - apply (saved_duration_is_clamped JS.NaN [InputChange "abc"]).
    vm_compute. reflexivity.
Defined.

(** The dialog is given two and a half minutes and [Save] is pressed: the
    value passed is 2.5.  A text does not help unless the field accepts it;
    the buttons keep the fraction.  Given [NaN], the dialog passes [NaN]. *)
Lemma fractional_prop_is_saved :
  saved (run [Save] (initial (JS.Finite (5 # 2)))) = [JS.Finite (5 # 2)] /\
  saved (run [InputChange "abc"; InputBlur; Increase; Save] (initial (JS.Finite (5 # 2))))
  = [JS.Finite (7 # 2)] /\
  JS.isInteger (JS.Finite (5 # 2)) = false /\
  ~ wholeInRange (JS.Finite (5 # 2)) /\
  saved (run [Increase; Decrease; Save] (initial JS.NaN)) = [JS.NaN] /\
  ~ inRange JS.NaN.
Proof.
  split; [vm_compute; reflexivity |]. split; [vm_compute; reflexivity |].
  split; [reflexivity |]. split; [| split; [vm_compute; reflexivity | by intros []]].
  intros (z & _ & E). unfold Qeq in E. cbn in E. lia.
Qed.

End BreakDurationDialogFacts.

(** ** Further properties

    *** The state monad *)

Module EffFacts.

Lemma eff_exec_bind {S A B : Type} (m : Eff S A) (f : A -> Eff S B) (s : S) :
  exec (m ≫= f) s = exec (f (fst (m s))) (exec m s).
Proof. unfold exec, mbind, Eff_bind. destruct (m s); reflexivity. Qed.

Lemma eff_forEach_cons {S A : Type} (f : A -> Eff S unit) (x : A) (xs : list A) (s : S) :
  exec (forEach f (x :: xs)) s = exec (forEach f xs) (exec (f x) s).
Proof. simpl forEach. apply eff_exec_bind. Qed.

Lemma eff_forEach_app {S A : Type} (f : A -> Eff S unit) (xs ys : list A) (s : S) :
  exec (forEach f (xs ++ ys)) s = exec (forEach f ys) (exec (forEach f xs) s).
Proof.
  revert s. induction xs as [|x xs IH]; intros s.
  - reflexivity.
  - cbn [app]. by rewrite !eff_forEach_cons, IH.
Qed.

Lemma eff_forEach_fmap {S A B : Type} (g : A -> B) (f : B -> Eff S unit) (xs : list A) (s : S) :
  exec (forEach f (g <$> xs)) s = exec (forEach (fun x => f (g x)) xs) s.
Proof.
  revert s. induction xs as [|x xs IH]; intros s.
  - reflexivity.
  - cbn [fmap list_fmap]. by rewrite !eff_forEach_cons, IH.
Qed.

End EffFacts.

(** *** The countdown timer *)

Module UseTimerMore.
Import UseTimer UseTimerNotions UseTimerFacts EffFacts.

Local Open Scope Z_scope.

Section More.

Variable minutesToSeconds : Z -> Z.

Implicit Types (ext : bool) (h : Hook) (now : Z).

Lemma run_ops_cons ext o ops h :
  run minutesToSeconds ext (o :: ops) h
  = run minutesToSeconds ext ops (exec (perform minutesToSeconds ext o) h).
Proof. unfold run. apply eff_forEach_cons. Qed.

Lemma run_ops_app ext ops1 ops2 h :
  run minutesToSeconds ext (ops1 ++ ops2) h
  = run minutesToSeconds ext ops2 (run minutesToSeconds ext ops1 h).
Proof. unfold run. apply eff_forEach_app. Qed.

(** One firing of the interval above 1 s: only the remaining time and the
    [completed] flag change. *)
Lemma intervalTick_above_one ext now h :
  intervalRef h <> None ->
  1 < timeRemaining (timerState h) ->
  let h' := exec (intervalTick minutesToSeconds ext now) h in
  timerState h' = with_completed false (with_timeRemaining (timeRemaining (timerState h) - 1) (timerState h)) /\
  intervalRef h' = intervalRef h /\
  settingsRef h' = settingsRef h /\
  notices h' = notices h.
Proof.
  destruct h as [ts c [id|] lu nh st ns tq]; [intros _ | done].
  cbn [timerState]. intros Hgt. unfold intervalTick. hook_step.
  destruct (Z.leb_spec (timeRemaining ts) 1); [lia |].
  destruct ext; done.
Qed.

Lemma run_ticks_above ext (nows : list Z) h :
  intervalRef h <> None ->
  Z.of_nat (length nows) < timeRemaining (timerState h) ->
  let h' := run minutesToSeconds ext (Tick <$> nows) h in
  timeRemaining (timerState h') = timeRemaining (timerState h) - Z.of_nat (length nows) /\
  mode (timerState h') = mode (timerState h) /\
  isRunning (timerState h') = isRunning (timerState h) /\
  breakActivity (timerState h') = breakActivity (timerState h) /\
  intervalRef h' = intervalRef h /\
  settingsRef h' = settingsRef h /\
  notices h' = notices h.
Proof.
  revert h. induction nows as [|now nows IH]; intros h Hi Hlt; cbv zeta.
  - cbn [fmap list_fmap length]. unfold run. cbn. repeat split; lia.
  - cbn [fmap list_fmap length] in *. rewrite run_ops_cons. cbn [perform].
    destruct (intervalTick_above_one ext now h Hi) as (Ets & Ei & Es & En); [lia |].
    set (h1 := exec (intervalTick minutesToSeconds ext now) h) in *.
    destruct (IH h1) as (T & M & R & B & I & S & N).
    { by rewrite Ei. }
    { rewrite Ets. cbn. lia. }
    rewrite T, M, R, B, I, S, N, Ets, Ei, Es, En. cbn. repeat split; lia.
Qed.

(** The firing that finds at most 1 s left. *)
Lemma intervalTick_last ext now h :
  intervalRef h <> None ->
  timeRemaining (timerState h) <= 1 ->
  let h' := exec (intervalTick minutesToSeconds ext now) h in
  timerState h' = nextSession minutesToSeconds (mode (timerState h)) (settingsRef h) /\
  intervalRef h' = None /\
  settingsRef h' = settingsRef h /\
  notices h' = notices h ++ completionNotices (mode (timerState h)) /\
  (ext = true ->
   storage h' !! TIMER_STATE_KEY = Some (StoredTimerState (timerState h')) /\
   storage h' !! TIMER_LAST_UPDATE_KEY = Some (StoredNumber now)).
Proof.
  destruct h as [ts c [id|] lu nh st ns tq]; [intros _ | done].
  cbn [timerState settingsRef notices]. intros Hle.
  unfold intervalTick, handleTimerCompletion, nextSession, completionNotices. hook_step.
  destruct (Z.leb_spec (timeRemaining ts) 1); [| lia].
  destruct keys_distinct as (N1 & _ & _).
  destruct (mode ts), ext; hook_step; rewrite <- ?app_assoc;
    (split; [reflexivity |]); (split; [reflexivity |]); (split; [reflexivity |]);
    (split; [reflexivity |]); intros He; try discriminate He;
    (split; [by rewrite lookup_insert_ne, lookup_insert_eq | by rewrite lookup_insert_eq]).
Qed.

Lemma run_ticks_idle ext (nows : list Z) h :
  intervalRef h = None -> run minutesToSeconds ext (Tick <$> nows) h = h.
Proof.
  intros Hi. induction nows as [|now nows IH]; [reflexivity |].
  cbn [fmap list_fmap]. rewrite run_ops_cons. cbn [perform].
  assert (E : exec (intervalTick minutesToSeconds ext now) h = h).
  { destruct h as [ts c r lu nh st ns tq]. cbn in Hi. subst r. reflexivity. }
  by rewrite E.
Qed.

(** X1. While more seconds remain than the interval fires, each firing takes
    one second off and nothing else changes: after [k] firings of a timer
    with [T > k] seconds, [T - k] seconds remain, in the same mode, with the
    same running flag, activity, interval and settings, and nothing is
    announced. *)
Theorem interval_counts_down ext (nows : list Z) h :
  intervalRef h <> None ->
  Z.of_nat (length nows) < timeRemaining (timerState h) ->
  let h' := run minutesToSeconds ext (Tick <$> nows) h in
  timeRemaining (timerState h') = timeRemaining (timerState h) - Z.of_nat (length nows) /\
  mode (timerState h') = mode (timerState h) /\
  isRunning (timerState h') = isRunning (timerState h) /\
  breakActivity (timerState h') = breakActivity (timerState h) /\
  intervalRef h' = intervalRef h /\
  settingsRef h' = settingsRef h /\
  notices h' = notices h.
Proof. apply run_ticks_above. Qed.

(** X2. A session of [T >= 1] seconds ends with the [T]-th firing of the
    interval: the timer is then in the other mode at that mode's configured
    length, not running, marked completed, with no activity chosen and no
    interval left; the end is announced once, and in the extension the new
    state is what the storage holds.  Firings after that change nothing. *)
Theorem interval_completes_session ext (nows more : list Z) (now : Z) h :
  intervalRef h <> None ->
  Z.of_nat (length nows) = timeRemaining (timerState h) - 1 ->
  let h' := run minutesToSeconds ext (Tick <$> (nows ++ [now])) h in
  timerState h' = nextSession minutesToSeconds (mode (timerState h)) (settingsRef h) /\
  intervalRef h' = None /\
  notices h' = notices h ++ completionNotices (mode (timerState h)) /\
  (ext = true ->
   storage h' !! TIMER_STATE_KEY = Some (StoredTimerState (timerState h')) /\
   storage h' !! TIMER_LAST_UPDATE_KEY = Some (StoredNumber now)) /\
  run minutesToSeconds ext (Tick <$> more) h' = h'.
Proof.
  intros Hi Hlen. cbv zeta.
  rewrite fmap_app, run_ops_app.
  destruct (run_ticks_above ext nows h Hi) as (T & M & _ & _ & I & S & N); [lia |].
  set (h1 := run minutesToSeconds ext (Tick <$> nows) h) in *.
  cbn [fmap list_fmap]. rewrite run_ops_cons. cbn [perform]. unfold run at 1 2 3 4 5. cbn [forEach].
  change (exec (mret tt) ?x) with x.
  destruct (intervalTick_last ext now h1) as (Ets & Ei & Es & En & Est).
  { by rewrite I. }
  { lia. }
  rewrite Ets, Ei, En, M, S, N.
  split; [reflexivity |]. split; [reflexivity |]. split; [reflexivity |].
  split.
  - intros He. destruct (Est He) as [E1 E2]. rewrite Ets, M, S in E1. by split.
  - by apply run_ticks_idle.
Qed.

(** Unfolds the operations of the hook down to the primitive steps. *)
Ltac hook_unfold :=
  cbn [perform callback];
  unfold intervalTick, resetTimer, startTimer, pauseTimer, loadStoredTimerState,
    selectBreakActivity, updateFocusDuration, updateBreakDuration, settingsChanged,
    handleTimerCompletion, timeoutFires;
  hook_step.

Lemma startTimer_storage_other ext cl now h (key : string) :
  key <> TIMER_STATE_KEY ->
  key <> TIMER_LAST_UPDATE_KEY ->
  storage (exec (startTimer minutesToSeconds ext cl now) h) !! key = storage h !! key.
Proof.
  intros K1 K2. destruct h as [ts c r lu nh st ns tq]. hook_unfold.
  destruct (isRunning cl); [done |].
  destruct (timeRemaining cl <=? 0); [done |].
  destruct ext; hook_step; by rewrite ?lookup_insert_ne by done.
Qed.

Lemma callback_storage_same ext cl c h :
  ext = false \/ match c with CallStartTimer _ => False | _ => True end ->
  storage (exec (callback minutesToSeconds ext cl c) h) = storage h.
Proof.
  intros Hq. destruct h as [ts c0 r lu nh st ns tq]. destruct c.
  - destruct Hq as [-> | []]. hook_unfold.
    destruct (isRunning cl); [done |]. by destruct (timeRemaining cl <=? 0).
  - hook_unfold. by destruct (isRunning cl).
  - hook_unfold. by destruct (truthyActivity activity), (isRunning cl).
  - hook_unfold. destruct (isRunning cl); [done |]. by destruct (bool_decide _).
  - hook_unfold. destruct (isRunning cl); [done |]. by destruct (bool_decide _).
Qed.

Lemma callback_storage_other ext cl c h (key : string) :
  key <> TIMER_STATE_KEY ->
  key <> TIMER_LAST_UPDATE_KEY ->
  storage (exec (callback minutesToSeconds ext cl c) h) !! key = storage h !! key.
Proof.
  intros K1 K2. destruct c; [by apply startTimer_storage_other | ..];
    by rewrite callback_storage_same by (by right).
Qed.

Lemma perform_current ext (c : Callback) h :
  exec (ts ← gets timerState; callback minutesToSeconds ext ts c) h
  = exec (callback minutesToSeconds ext (timerState h) c) h.
Proof. reflexivity. Qed.

Lemma timeoutFires_exec ext now h :
  exec (timeoutFires minutesToSeconds ext now) h
  = match timeouts h with
    | [] => h
    | cl :: rest => exec (startTimer minutesToSeconds ext cl now) (set_timeouts rest h)
    end.
Proof. destruct h as [ts c r lu nh st ns [|cl tq]]; reflexivity. Qed.

Lemma perform_storage_other ext o h (key : string) :
  key <> TIMER_STATE_KEY ->
  key <> TIMER_LAST_UPDATE_KEY ->
  storage (exec (perform minutesToSeconds ext o) h) !! key = storage h !! key.
Proof.
  intros K1 K2.
  destruct o as [now|m|now| |now|a|m|m|c|now|cl c]; cbn [perform];
    rewrite ?perform_current; try (by apply callback_storage_other).
  - destruct h as [ts c r lu nh st ns tq]. hook_unfold.
    destruct r; [| done]. hook_step.
    destruct (timeRemaining ts <=? 1); hook_step; destruct (mode ts), ext; hook_step;
      by rewrite ?lookup_insert_ne by done.
  - by destruct h.
  - destruct h as [ts c r lu nh st ns tq]. hook_unfold.
    destruct ext; [| done]. hook_step.
    destruct (st !! SETTINGS_KEY) as [[| |c']|]; hook_step;
      (destruct (st !! TIMER_STATE_KEY) as [[st0| |]|]; hook_step; [| done ..]);
      (destruct (st !! TIMER_LAST_UPDATE_KEY) as [[|lu0|]|]; hook_step; [done | | done ..]);
      (destruct (lu0 =? 0); hook_step; [done |]);
      (destruct (isRunning st0); hook_step; [| done]);
      (destruct (_ <=? 0); hook_step; [| by destruct r]);
      destruct (mode st0); hook_step; by rewrite ?lookup_insert_ne by done.
  - by destruct h.
  - rewrite timeoutFires_exec. destruct (timeouts h) as [|cl rest]; [done |].
    rewrite startTimer_storage_other by done. by destruct h.
Qed.

Lemma perform_storage_same ext o h :
  ext = false \/ saves o = false ->
  storage (exec (perform minutesToSeconds ext o) h) = storage h.
Proof.
  intros Hq.
  destruct o as [now|m|now| |now|a|m|m|c|now|cl c]; cbn [perform saves] in *;
    rewrite ?perform_current.
  - destruct Hq as [-> | Hq]; [| discriminate Hq].
    destruct h as [ts c r lu nh st ns tq]. hook_unfold. destruct r; [| done]. hook_step.
    destruct (timeRemaining ts <=? 1); hook_step; by destruct (mode ts).
  - by destruct h.
  - destruct Hq as [-> | Hq]; [| discriminate Hq]. apply callback_storage_same. by left.
  - apply callback_storage_same. by right.
  - destruct Hq as [-> | Hq]; [| discriminate Hq]. by destruct h.
  - apply callback_storage_same. by right.
  - apply callback_storage_same. by right.
  - apply callback_storage_same. by right.
  - by destruct h.
  - destruct Hq as [-> | Hq]; [| discriminate Hq].
    rewrite timeoutFires_exec. destruct (timeouts h) as [|cl0 rest]; [done |].
    rewrite (callback_storage_same false cl0 (CallStartTimer now)) by (by left). by destruct h.
  - apply callback_storage_same. destruct Hq as [-> | Hq]; [by left | right].
    by destruct c.
Qed.


(** X4. A timer started in one place is picked up in another: when
    [startTimer] has started a paused timer with [T > 0] seconds at time
    [now] in the extension, a hook that loads the stored state at time
    [now'], be it the same hook or the hook of another tab, shows the
    started timer with [T] less the whole seconds elapsed, as long as that
    is positive, and has an interval running. *)
Theorem started_timer_is_picked_up now now' h o :
  isRunning (timerState h) = false ->
  0 < timeRemaining (timerState h) ->
  now <> 0 ->
  let h1 := exec (perform minutesToSeconds true (Start now)) h in
  storage o = storage h1 ->
  let elapsedSeconds := (now' - now) / 1000 in
  elapsedSeconds < timeRemaining (timerState h) ->
  let o' := exec (loadStoredTimerState minutesToSeconds true now') o in
  timerState h1 = with_completed false (with_isRunning true (timerState h)) /\
  timerState o' = with_timeRemaining (timeRemaining (timerState h) - elapsedSeconds) (timerState h1) /\
  intervalRef h1 <> None /\
  intervalRef o' <> None.
Proof.
  destruct h as [ts c r lu nh st ns tq]. destruct o as [ts' c' r' lu' nh' st' ns' tq'].
  cbn [timerState storage]. intros Hr Hpos Hnow. cbv zeta.
  cbn [perform callback]. unfold startTimer. hook_step. rewrite Hr.
  destruct (Z.leb_spec (timeRemaining ts) 0); [lia |]. hook_step.
  intros -> He. destruct keys_distinct as (N1 & N2 & N3).
  unfold loadStoredTimerState. hook_step.
  rewrite (lookup_insert_ne _ TIMER_LAST_UPDATE_KEY TIMER_STATE_KEY) by done.
  rewrite !(lookup_insert_ne _ _ SETTINGS_KEY) by done.
  rewrite !lookup_insert_eq. hook_step.
  destruct (Z.eqb_spec now 0); [done |].
  assert (Hmax : Z.max 0 (timeRemaining ts - (now' - now) / 1000)
                 = timeRemaining ts - (now' - now) / 1000) by lia.
  rewrite Hmax.
  destruct (Z.leb_spec (timeRemaining ts - (now' - now) / 1000) 0); [lia |].
  destruct (st !! SETTINGS_KEY) as [[| |c2]|]; hook_step; destruct r'; hook_step; done.
Qed.

(** X5. [resetTimer] stops the timer at the full configured length of the
    requested mode, with no activity chosen; resetting again changes
    nothing.  A [startTimer] whose render saw a paused timer with no time
    left does not start the timer but resets it in the mode of that
    render. *)
Theorem reset_and_start_at_zero ext now m (cl : TimerState) h :
  let h' := exec (resetTimer minutesToSeconds m) h in
  timerState h'
  = mkTimerState m
      (match m with
       | Focus => minutesToSeconds (focusDuration (settingsRef h))
       | Break => minutesToSeconds (breakDuration (settingsRef h))
       end)
      false None false /\
  intervalRef h' = None /\
  storage h' = storage h /\
  exec (resetTimer minutesToSeconds m) h' = h' /\
  (isRunning cl = false ->
   timeRemaining cl <= 0 ->
   startTimer minutesToSeconds ext cl now h = resetTimer minutesToSeconds (mode cl) h).
Proof.
  destruct h as [ts c r lu nh st ns tq]. cbv zeta. unfold resetTimer, startTimer. hook_step.
  do 4 (split; [reflexivity |]).
  intros Hr Hle. rewrite Hr. by destruct (Z.leb_spec (timeRemaining cl) 0); [| lia].
Qed.

(** X6. When the stored state is a running one whose time has run out by the
    time it is loaded, the completion is announced and the next session is
    written to the storage, the interval is cleared, and the [timerState]
    of the hook stays as it was. *)
Theorem expired_stored_state now h st lu :
  storage h !! TIMER_STATE_KEY = Some (StoredTimerState st) ->
  storage h !! TIMER_LAST_UPDATE_KEY = Some (StoredNumber lu) ->
  lu <> 0 ->
  isRunning st = true ->
  timeRemaining st <= (now - lu) / 1000 ->
  let h' := exec (loadStoredTimerState minutesToSeconds true now) h in
  let settings :=
    match storage h !! SETTINGS_KEY with
    | Some (StoredSettings c) => c
    | _ => settingsRef h
    end in
  timerState h' = timerState h /\
  intervalRef h' = None /\
  settingsRef h' = settings /\
  notices h' = notices h ++ completionNotices (mode st) /\
  storage h' !! TIMER_STATE_KEY
  = Some (StoredTimerState (nextSession minutesToSeconds (mode st) settings)) /\
  storage h' !! TIMER_LAST_UPDATE_KEY = Some (StoredNumber now).
Proof.
  destruct h as [ts c r lu0 nh m ns tq]. cbn [storage timerState settingsRef notices].
  intros ET EL Hlu Hrun Hexp. cbv zeta.
  destruct keys_distinct as (N1 & N2 & N3).
  unfold loadStoredTimerState, handleTimerCompletion, nextSession, completionNotices. hook_step.
  rewrite ET, EL.
  destruct (Z.eqb_spec lu 0); [done |]. rewrite Hrun.
  destruct (Z.leb_spec (Z.max 0 (timeRemaining st - (now - lu) / 1000)) 0); [| lia].
  destruct (m !! SETTINGS_KEY) as [[| |c2]|]; hook_step; destruct (mode st); hook_step;
    rewrite <- ?app_assoc;
    repeat split;
    by rewrite ?lookup_insert_eq, ?lookup_insert_ne, ?lookup_insert_eq by done.
Qed.

End More.

(** **** Examples *)

Lemma interval_counts_down_witness :
  timeRemaining (timerState (run (fun m => m * 60) true (Tick <$> [1000; 2000; 3000]) runningHook)) = 87.
Proof.
  destruct (interval_counts_down (fun m => m * 60) true [1000; 2000; 3000] runningHook) as (T & _).
  - discriminate.
  - reflexivity.
  - exact T.
Defined.

Lemma interval_completes_session_witness :
  timerState (run (fun m => m * 60) true (Tick <$> ([1000; 2000] ++ [3000]))
                (mkHook (mkTimerState Focus 3 true None false) (mkTimerSettings 25 5)
                   (Some 1%positive) 0 2 ∅ [] []))
  = mkTimerState Break 300 false None true.
Proof.
  cbv zeta.
  destruct (interval_completes_session (fun m => m * 60) true [1000; 2000] [] 3000
              (mkHook (mkTimerState Focus 3 true None false) (mkTimerSettings 25 5)
                 (Some 1%positive) 0 2 ∅ [] [])) as (T & _).
  - discriminate.
  - reflexivity.
  - exact T.
Defined.


Lemma started_timer_is_picked_up_witness :
  timeRemaining (timerState
    (exec (loadStoredTimerState (fun m => m * 60) true 1012500)
       (exec (perform (fun m => m * 60) true (Start 1000000)) pausedHook))) = 78.
Proof.
  destruct (started_timer_is_picked_up (fun m => m * 60) 1000000 1012500 pausedHook
              (exec (perform (fun m => m * 60) true (Start 1000000)) pausedHook))
    as (_ & T & _).
  - reflexivity.
  - reflexivity.
  - discriminate.
  - reflexivity.
  - reflexivity.
  - rewrite T. reflexivity.
Defined.

Lemma reset_and_start_at_zero_witness :
  exec (perform (fun m => m * 60) true (Start 5000))
    (mkHook (mkTimerState Break 0 false None false) sampleSettings None 0 2 ∅ [] [])
  = mkHook (mkTimerState Break 300 false None false) sampleSettings None 0 2 ∅ [] [].
Proof.
  destruct (reset_and_start_at_zero (fun m => m * 60) true 5000 Break
              (mkTimerState Break 0 false None false)
              (mkHook (mkTimerState Break 0 false None false) sampleSettings None 0 2 ∅ [] []))
    as (_ & _ & _ & _ & S).
  unfold exec. cbn [perform callback]. unfold mbind, Eff_bind, gets. cbn [timerState].
  rewrite S; [reflexivity | reflexivity | vm_compute; discriminate].
Defined.

Lemma expired_stored_state_witness :
  let h' := exec (loadStoredTimerState (fun m => m * 60) true 1100000)
              (initial (fun m => m * 60) sampleSettings sampleStore 0) in
  timerState h' = mkTimerState Focus 1500 false None false /\
  storage h' !! TIMER_STATE_KEY = Some (StoredTimerState (mkTimerState Focus 60 false None true)).
Proof.
  cbv zeta.
  destruct (expired_stored_state (fun m => m * 60) 1100000
              (initial (fun m => m * 60) sampleSettings sampleStore 0)
              (mkTimerState Break 40 true None false) 1000000)
    as (T & _ & _ & _ & S & _).
  - reflexivity.
  - reflexivity.
  - discriminate.
  - reflexivity.
  - vm_compute. discriminate.
  - split; [rewrite T; reflexivity | rewrite S; reflexivity].
Defined.

End UseTimerMore.

(** *** The break-length editor *)

Module BreakDurationDialogMore.
Import BreakDurationDialog BreakDurationDialogNotions BreakDurationDialogFacts JSFacts EffFacts.

Local Open Scope Z_scope.

(** Splits [1 <= z <= 15] into the fifteen cases. *)
Ltac each_minute z :=
  let H := fresh "H" in
  assert (H : z = 1 \/ z = 2 \/ z = 3 \/ z = 4 \/ z = 5 \/ z = 6 \/ z = 7 \/ z = 8 \/
              z = 9 \/ z = 10 \/ z = 11 \/ z = 12 \/ z = 13 \/ z = 14 \/ z = 15) by lia;
  repeat (destruct H as [-> | H]); try subst z.

(** **** [parseInt] reads back what [toString] writes *)

Lemma digits_step (c : ascii) (r : string) (acc : option Z) (d : Z) :
  digitValue c = Some d -> d < 10 ->
  digits 10 (String c r) acc = digits 10 r (Some (10 * default 0 acc + d)).
Proof.
  intros Hc Hd. cbn [digits]. rewrite Hc.
  destruct (Z.ltb_spec d 10); [reflexivity | lia].
Qed.

(** A first character that is neither white space nor the first byte of a
    longer white-space character stays. *)
Lemma trimStart_plain (c : ascii) (r : string) :
  white1 c = false ->
  code c <> 194 -> code c <> 225 -> code c <> 226 -> code c <> 227 -> code c <> 239 ->
  trimStart (String c r) = String c r.
Proof.
  intros Hw H1 H2 H3 H4 H5. cbn [trimStart]. rewrite Hw.
  destruct r as [|c2 r2]; [reflexivity |].
  unfold white2. destruct (Z.eqb_spec (code c) 194); [done |]. cbn [andb].
  destruct r2 as [|c3 r3]; [reflexivity |].
  unfold white3. cbv zeta.
  destruct (Z.eqb_spec (code c) 225); [done |].
  destruct (Z.eqb_spec (code c) 226); [done |].
  destruct (Z.eqb_spec (code c) 227); [done |].
  destruct (Z.eqb_spec (code c) 239); [done |].
  reflexivity.
Qed.

(** [parseInt] stops at the first character that is not a digit. *)
Lemma parseInt_small_prefix (n : Z) (r : string) :
  1 <= n <= 15 ->
  startsWithDigit r = false ->
  parseInt (JS.toString (minutes n) ++ r) = minutes n.
Proof.
  intros Hn Hr.
  assert (Hd : forall acc, digits 10 r acc = acc).
  { intros acc. destruct r as [|c r']; [reflexivity |]. cbn [startsWithDigit] in Hr.
    cbn [digits]. destruct (digitValue c) as [v|]; [| reflexivity]. by rewrite Hr. }
  unfold parseInt, parseInteger.
  each_minute n;
    match goal with
    | |- context [JS.toString ?k] =>
        let s := eval vm_compute in (JS.toString k) in change (JS.toString k) with s
    end;
    cbv [String.append];
    rewrite trimStart_plain by (reflexivity || discriminate);
    cbn beta iota zeta;
    repeat first
      [ rewrite (digits_step _ _ _ 0) by (reflexivity || lia)
      | rewrite (digits_step _ _ _ 1) by (reflexivity || lia)
      | rewrite (digits_step _ _ _ 2) by (reflexivity || lia)
      | rewrite (digits_step _ _ _ 3) by (reflexivity || lia)
      | rewrite (digits_step _ _ _ 4) by (reflexivity || lia)
      | rewrite (digits_step _ _ _ 5) by (reflexivity || lia)
      | rewrite (digits_step _ _ _ 6) by (reflexivity || lia)
      | rewrite (digits_step _ _ _ 7) by (reflexivity || lia)
      | rewrite (digits_step _ _ _ 8) by (reflexivity || lia)
      | rewrite (digits_step _ _ _ 9) by (reflexivity || lia) ];
    rewrite Hd; vm_compute; reflexivity.
Qed.

Lemma valid_minutes_true (n : Z) : 1 <= n <= 15 -> valid (minutes n) = true.
Proof. intros Hn. each_minute n; vm_compute; reflexivity. Qed.

(** The clamp leaves the lengths from 1 to 15 as they are. *)
Lemma clamp_minutes (n : Z) :
  1 <= n <= 15 ->
  JS.minNumber (JS.maxNumber (JS.Finite 1) (minutes n)) (JS.Finite 15) = minutes n.
Proof. intros Hn. each_minute n; vm_compute; reflexivity. Qed.

Lemma append_empty (s : string) : (s ++ "")%string = s.
Proof.
  induction s as [|c s IH]; [reflexivity |].
  rewrite <- IH at 2. reflexivity.
Qed.

(** **** The handlers *)

Lemma run_one (i : Interaction) (d : Dialog) : run [i] d = exec (interact i) d.
Proof. unfold run. cbn [forEach]. by rewrite eff_exec_bind. Qed.

(** X7. When the field loses the focus (or Enter is pressed), the text and
    the value are brought into line: a text that [parseInt] reads as a
    number from 1 to 15 stays and becomes the value, any other text is
    replaced by the value as [toString] writes it and an error is shown.
    With a value of whole minutes the field then reads as the value. *)
Theorem blur_reconciles_field (d : Dialog) :
  let d' := exec handleInputBlur d in
  exec (handleKeyDown "Enter") d = d' /\
  (valid (parseInt (inputValue d)) = true ->
   inputValue d' = inputValue d /\ calls d' = calls d /\
   tempDuration d' = parseInt (inputValue d') /\ wholeMinutes (tempDuration d')) /\
  (valid (parseInt (inputValue d)) = false ->
   tempDuration d' = tempDuration d /\
   inputValue d' = JS.toString (tempDuration d) /\
   calls d' = calls d ++ [ToastError "Please enter a number between 1 and 15 minutes"] /\
   (wholeMinutes (tempDuration d) -> parseInt (inputValue d') = tempDuration d')).
Proof.
  cbv zeta.
  assert (K : exec (handleKeyDown "Enter") d = exec handleInputBlur d).
  { unfold handleKeyDown. by rewrite bool_decide_eq_true_2. }
  rewrite K. clear K. split; [reflexivity |].
  destruct d as [b t v o cs]. unfold handleInputBlur. dialog_step.
  destruct (valid (parseInt v)) eqn:V; dialog_step.
  - split; [| done]. intros _.
    do 3 (split; [reflexivity |]). exact (valid_minutes v V).
  - split; [done |]. intros _.
    do 3 (split; [reflexivity |]).
    intros (z & Hz & ->).
    rewrite <- (append_empty (JS.toString (minutes z))).
    by apply parseInt_small_prefix.
Qed.

Lemma interact_minutes (i : Interaction) (d : Dialog) :
  match i with PropChanged b => wholeMinutes b | _ => True end ->
  wholeMinutes (tempDuration d) /\ wholeMinutes (breakDuration d) ->
  wholeMinutes (tempDuration (exec (interact i) d)) /\
  wholeMinutes (breakDuration (exec (interact i) d)).
Proof.
  destruct d as [b t v o cs]. cbn [tempDuration breakDuration]. intros Hi [Ht Hb].
  destruct i; cbn [interact].
  - unfold decreaseDuration. dialog_step.
    destruct (JS.gtNumber t (JS.Finite 1)) eqn:G; dialog_step; (split; [| exact Hb]);
      [| exact Ht].
    destruct Ht as (z & Hz & ->).
    each_minute z; try discriminate G;
      match goal with |- wholeMinutes ?x => let y := eval vm_compute in x in change x with y end;
      eexists; (split; [| reflexivity]); lia.
  - unfold increaseDuration. dialog_step.
    destruct (JS.ltNumber t (JS.Finite 15)) eqn:G; dialog_step; (split; [| exact Hb]);
      [| exact Ht].
    destruct Ht as (z & Hz & ->).
    each_minute z; try discriminate G;
      match goal with |- wholeMinutes ?x => let y := eval vm_compute in x in change x with y end;
      eexists; (split; [| reflexivity]); lia.
  - unfold handleInputChange. dialog_step.
    destruct (valid _) eqn:V; dialog_step; [| done].
    split; [exact (valid_minutes _ V) | exact Hb].
  - unfold handleInputBlur. dialog_step.
    destruct (valid _) eqn:V; dialog_step; [| done].
    split; [exact (valid_minutes _ V) | exact Hb].
  - unfold handleKeyDown, handleInputBlur. dialog_step.
    destruct (bool_decide _); dialog_step; [| done].
    destruct (valid _) eqn:V; dialog_step; [| done].
    split; [exact (valid_minutes _ V) | exact Hb].
  - unfold handleSave. dialog_step. done.
  - unfold handleCancel. dialog_step. done.
  - unfold handleOpenChange. dialog_step. destruct open; dialog_step; done.
  - unfold propChanged. dialog_step. done.
Qed.

Lemma run_minutes (steps : list Interaction) (d : Dialog) :
  propsInRange steps ->
  wholeMinutes (tempDuration d) /\ wholeMinutes (breakDuration d) ->
  wholeMinutes (tempDuration (run steps d)) /\ wholeMinutes (breakDuration (run steps d)).
Proof.
  intros Hs. revert d. induction Hs as [|i steps Hi _ IH]; intros d Hd.
  - exact Hd.
  - rewrite run_cons. apply IH. by apply interact_minutes.
Qed.

(** X8. As long as the parent passes whole break lengths from 1 to 15, the
    value being edited stays one of them whatever the user does: the buttons
    stop at 1 and at 15, and texts outside the range are not taken over.
    Save then passes the edited value as it is. *)
Theorem edited_value_stays_in_range (b : JS.Number) (steps : list Interaction) :
  wholeMinutes b ->
  propsInRange steps ->
  let d := run steps (initial b) in
  exists z : Z,
    1 <= z <= 15 /\
    tempDuration d = minutes z /\
    saved (run (steps ++ [Save]) (initial b)) = saved d ++ [minutes z] /\
    (z = 15 -> tempDuration (exec increaseDuration d) = minutes 15) /\
    (z = 1 -> tempDuration (exec decreaseDuration d) = minutes 1) /\
    (z < 15 ->
     tempDuration (exec increaseDuration d) = minutes (z + 1) /\
     tempDuration (exec decreaseDuration (exec increaseDuration d)) = minutes z).
Proof.
  intros Hb Hs. cbv zeta.
  destruct (run_minutes steps (initial b) Hs) as [(z & Hz & Ht) _]; [by split |].
  exists z. split; [exact Hz |]. split; [exact Ht |]. split.
  - rewrite run_steps_app, run_one, interact_saved, Ht. by rewrite clamp_minutes.
  - destruct (run steps (initial b)) as [b' t v o cs]. cbn [tempDuration] in Ht. subst t.
    unfold increaseDuration, decreaseDuration. dialog_step.
    split; [| split].
    + intros ->. vm_compute. reflexivity.
    + intros ->. vm_compute. reflexivity.
    + intros Hlt. each_minute z; try lia; vm_compute; split; reflexivity.
Qed.

(** X9. A number from 1 to 15 typed in decimal is what Save passes on, also
    when the digits are followed by other text, since [parseInt] stops at
    the first character that is not a digit.  A text that does not read as
    a number from 1 to 15 is ignored: Save passes the value edited before,
    brought into the range. *)
Theorem typed_number_is_saved (d : Dialog) :
  (forall (n : Z) (rest : string),
     1 <= n <= 15 ->
     startsWithDigit rest = false ->
     saved (run [InputChange (JS.toString (minutes n) ++ rest); Save] d)
     = saved d ++ [minutes n]) /\
  (forall text : string,
     valid (parseInt text) = false ->
     saved (run [InputChange text; Save] d)
     = saved d ++ [JS.minNumber (JS.maxNumber (JS.Finite 1) (tempDuration d)) (JS.Finite 15)]).
Proof.
  split.
  - intros n rest Hn Hr.
    change [InputChange (JS.toString (minutes n) ++ rest); Save]
      with ([InputChange (JS.toString (minutes n) ++ rest)] ++ [Save]).
    rewrite run_steps_app, !run_one, !interact_saved, app_nil_r. do 2 f_equal.
    rewrite <- (clamp_minutes n Hn) at 2. do 2 f_equal.
    destruct d as [b t v o cs]. cbn [interact]. unfold handleInputChange. dialog_step.
    rewrite parseInt_small_prefix by done. by rewrite valid_minutes_true.
  - intros text Hv.
    change [InputChange text; Save] with ([InputChange text] ++ [Save]).
    rewrite run_steps_app, !run_one, !interact_saved, app_nil_r. do 2 f_equal.
    destruct d as [b t v o cs]. cbn [interact]. unfold handleInputChange. dialog_step.
    rewrite Hv. reflexivity.
Qed.

(** **** Examples *)

Lemma edited_value_stays_in_range_witness :
  exists z : Z,
    saved (run ([Increase; InputChange "40"; InputBlur; Increase] ++ [Save]) (initial (minutes 14)))
    = [minutes z] /\ z = 15.
Proof.
  destruct (edited_value_stays_in_range (minutes 14)
              [Increase; InputChange "40"; InputBlur; Increase])
    as (z & _ & T & S & _).
  - exists 14. split; [lia | reflexivity].
  - repeat constructor.
  - exists z. split; [exact S |]. vm_compute in T. by injection T.
Defined.

Lemma typed_number_is_saved_witness :
  saved (run [InputChange (JS.toString (minutes 12) ++ " minutes"); Save] (initial (minutes 5)))
  = [minutes 12] /\
  saved (run [InputChange "0x3e8"; Save] (initial (minutes 5))) = [minutes 5].
Proof.
  destruct (typed_number_is_saved (initial (minutes 5))) as [T I]. split.
  - apply (T 12 " minutes"); [lia | reflexivity].
  - rewrite (I "0x3e8"); [| vm_compute; reflexivity]. vm_compute. reflexivity.
Defined.

Lemma blur_reconciles_field_witness :
  inputValue (exec handleInputBlur (run [InputChange "abc"] (initial (minutes 5)))) = "5".
Proof.
  destruct (blur_reconciles_field (run [InputChange "abc"] (initial (minutes 5)))) as (_ & _ & I).
  destruct I as (_ & V & _); [vm_compute; reflexivity |]. rewrite V. vm_compute. reflexivity.
Defined.

(** With two and a half minutes the field shows [2.5] after a text that is
    not accepted, and that reads as 2. *)
Example fraction_is_not_read_back :
  let d := exec handleInputBlur (run [InputChange "abc"] (initial (JS.Finite (5 # 2)))) in
  inputValue d = "2.5" /\ tempDuration d = JS.Finite (5 # 2) /\
  parseInt (inputValue d) = minutes 2.
Proof. vm_compute. repeat split; reflexivity. Qed.

End BreakDurationDialogMore.

(** *** The platformer component *)

Module PlatformerGameMore.
Import PlatformerGame PlatformerGameEffects JSFacts PlatformerGameFacts.

Section More.

Context {World : Type} (updateGame : World -> World).

Implicit Types (s : State World) (p : Render) (t : Q).

Lemma animationFrame_one p t s (id : positive) :
  pendingFrames s = [id] ->
  exec (animationFrame updateGame p t) s
  = exec (runGameLoop updateGame p t) (set_pendingFrames [] s) /\
  calls (animationFrame updateGame p t) s
  = calls (runGameLoop updateGame p t) (set_pendingFrames [] s).
Proof.
  destruct s as [a r l pf n w lg]. cbn [pendingFrames]. intros ->.
  assert (E : exec (animationFrame updateGame p t) (mkState a r l [id] n w lg)
              = exec (runGameLoop updateGame p t) (set_pendingFrames [] (mkState a r l [id] n w lg))).
  { unfold animationFrame. rewrite exec_bind. cbn [gets fst].
    change (exec (gets pendingFrames) ?x) with x.
    rewrite exec_bind. simpl forEach. rewrite exec_bind.
    change (exec (mret tt) ?x) with x. reflexivity. }
  split; [exact E |]. unfold calls. by rewrite E.
Qed.

Lemma runGameLoop_first p t s :
  JS.truthy (lastTimestamp s) = false ->
  ticks (runGameLoop updateGame p t) s = 0%nat /\
  renders (runGameLoop updateGame p t) s = 0%nat /\
  lastTimestamp (exec (runGameLoop updateGame p t) s) = t /\
  world (exec (runGameLoop updateGame p t) s) = world s.
Proof.
  intros Hf.
  rewrite runGameLoop_ticks, runGameLoop_renders, runGameLoop_exec.
  cbn [lastTimestamp world].
  assert (Hl : lastTick s t = t) by (unfold lastTick; by rewrite Hf).
  rewrite Hl.
  assert (G : JS.gt (JS.sub t t) frameInterval = false).
  { rewrite sub_diag. apply gt_false. pose proof frameInterval_pos. lra. }
  rewrite G. done.
Qed.

Lemma rerunGameLoopEffect_exec p s :
  loopTracked s ->
  gameStarted p = true ->
  exec (rerunGameLoopEffect p true) s
  = mkState (audioRef s) (Some (nextFrameId s)) 0%Q [nextFrameId s]
      (Pos.succ (nextFrameId s)) (world s)
      (log s ++ (match gameLoopRef s with
                 | Some id => [CancelAnimationFrame id]
                 | None => []
                 end) ++ [RequestAnimationFrame (nextFrameId s)]).
Proof.
  intros T Hs. destruct s as [a r l pf n w lg]. revert T.
  unfold loopTracked, rerunGameLoopEffect, gameLoopEffect, cancelGameLoop.
  cbn [pendingFrames gameLoopRef]. rewrite Hs. eff_step.
  destruct pf as [|i [|j pf]]; [| | done]; intros T; destruct r as [id|]; eff_step;
    rewrite <- ?app_assoc; try done.
  injection T as ->. cbn. by rewrite Pos.eqb_refl.
Qed.

(** X10. When the game-loop effect runs again (the game has started, or
    [gameOver] has changed), it cancels the pending request, makes exactly
    one new request and clears the stored timestamp; the first display
    refresh after that only stores its timestamp: it runs no tick and draws
    nothing. *)
Theorem frame_after_restart_only_stores_timestamp p t s :
  loopTracked s ->
  gameStarted p = true ->
  let s' := exec (rerunGameLoopEffect p true) s in
  pendingFrames s' = [nextFrameId s] /\
  gameLoopRef s' = Some (nextFrameId s) /\
  lastTimestamp s' = 0%Q /\
  ticks (animationFrame updateGame p t) s' = 0%nat /\
  renders (animationFrame updateGame p t) s' = 0%nat /\
  lastTimestamp (exec (animationFrame updateGame p t) s') = t /\
  world (exec (animationFrame updateGame p t) s') = world s.
Proof.
  intros T Hs. cbv zeta. rewrite rerunGameLoopEffect_exec by done.
  cbn [pendingFrames gameLoopRef lastTimestamp]. do 3 (split; [reflexivity |]).
  set (s' := mkState _ _ _ _ _ _ _).
  destruct (animationFrame_one p t s' (nextFrameId s) eq_refl) as [E C].
  unfold ticks, renders. rewrite C, E.
  destruct (runGameLoop_first p t (set_pendingFrames [] s') eq_refl) as (H1 & H2 & H3 & H4).
  done.
Qed.

(** X11. Unmounting releases everything the component holds: the pending
    frame request is cancelled, [gameLoopRef] and [audioRef] are cleared,
    the audio element is paused before it is dropped, and later display
    refreshes call nothing. *)
Theorem unmount_releases_loop_and_audio (c : Mounted) s :
  loopTracked s ->
  let s1 := exec (unmount c) s in
  pendingFrames s1 = [] /\
  gameLoopRef s1 = None /\
  audioRef s1 = None /\
  world s1 = world s /\
  (forall id, In id (pendingFrames s) -> In (CancelAnimationFrame id) (calls (unmount c) s)) /\
  (audioRef s <> None ->
   exists rest, calls (unmount c) s = AudioPause :: AudioSetSrc "" :: rest) /\
  (forall p (ts : list Q),
     calls (forEach (animationFrame updateGame p) ts) s1 = []).
Proof.
  intros T. cbv zeta.
  assert (Hp : pendingFrames (exec (unmount c) s) = []).
  { destruct s as [a r l pf n w lg]. revert T.
    unfold loopTracked, unmount, audioCleanup, mountCleanup, cancelGameLoop.
    cbn [pendingFrames gameLoopRef]. eff_step.
    destruct pf as [|i [|j pf]]; [| | done]; intros T;
      destruct a, r as [id|], (onPause (firstRender c)), (isRunning (timerState (firstRender c)));
      eff_step; try done; injection T as ->; cbn; by rewrite Pos.eqb_refl. }
  split; [exact Hp |].
  split.
  { destruct s as [a r l pf n w lg]. unfold unmount, audioCleanup, mountCleanup, cancelGameLoop.
    eff_step.
    destruct a, r, (onPause (firstRender c)), (isRunning (timerState (firstRender c)));
      reflexivity. }
  split.
  { destruct s as [a r l pf n w lg]. unfold unmount, audioCleanup, mountCleanup, cancelGameLoop.
    eff_step.
    destruct a, r, (onPause (firstRender c)), (isRunning (timerState (firstRender c)));
      reflexivity. }
  split.
  { destruct s as [a r l pf n w lg]. unfold unmount, audioCleanup, mountCleanup, cancelGameLoop.
    eff_step.
    destruct a, r, (onPause (firstRender c)), (isRunning (timerState (firstRender c)));
      reflexivity. }
  split.
  { destruct s as [a r l pf n w lg]. revert T.
    unfold loopTracked, calls, unmount, audioCleanup, mountCleanup, cancelGameLoop.
    cbn [pendingFrames gameLoopRef]. eff_step.
    destruct pf as [|i [|j pf]]; [done | | done]. intros -> id [<- | []].
    destruct a, (onPause (firstRender c)), (isRunning (timerState (firstRender c)));
      eff_step; rewrite <- ?app_assoc, drop_app_length; cbn; auto 10. }
  split.
  { destruct s as [a r l pf n w lg]. cbn [audioRef]. intros Ha.
    destruct a as [a|]; [| done].
    unfold calls, unmount, audioCleanup, mountCleanup, cancelGameLoop. eff_step.
    destruct r, (onPause (firstRender c)), (isRunning (timerState (firstRender c)));
      eff_step; rewrite <- ?app_assoc, drop_app_length; cbn; eauto. }
  intros p ts. unfold calls. rewrite frames_idle by exact Hp. by rewrite drop_all.
Qed.

End More.

(** **** Examples *)

(** The game ends while request 7 is pending: the effect of the next
    render replaces it by request 8. *)
Lemma frame_after_restart_only_stores_timestamp_witness :
  let p := sampleRender runningTimer lost in
  pendingFrames (exec (rerunGameLoopEffect p true) sampleState) = [8%positive] /\
  renders (animationFrame (fun w : unit => w) p 1020) (exec (rerunGameLoopEffect p true) sampleState)
  = 0%nat.
Proof.
  cbv zeta.
  destruct (frame_after_restart_only_stores_timestamp (fun w : unit => w)
              (sampleRender runningTimer lost) 1020%Q sampleState)
    as (P & _ & _ & _ & R & _).
  - reflexivity.
  - reflexivity.
  - split; [exact P | exact R].
Defined.

Lemma unmount_releases_loop_and_audio_witness :
  let c := mkMounted (sampleRender idleTimer playing) (sampleRender runningTimer playing) in
  pendingFrames (exec (unmount c) sampleState) = [] /\
  audioRef (exec (unmount c) sampleState) = None /\
  calls (forEach (animationFrame (fun w : unit => w) (sampleRender runningTimer playing))
           [1020; 1040]%Q) (exec (unmount c) sampleState) = [].
Proof.
  cbv zeta.
  destruct (unmount_releases_loop_and_audio (fun w : unit => w)
              (mkMounted (sampleRender idleTimer playing) (sampleRender runningTimer playing))
              sampleState)
    as (P & _ & A & _ & _ & _ & F).
  - reflexivity.
  - split; [exact P |]. split; [exact A |].
    apply (F (sampleRender runningTimer playing) [1020; 1040]%Q).
Defined.

End PlatformerGameMore.
(** *** The coins on the canvas *)

Module CollectibleMore.
Import Canvas CanvasState JSFacts CollectibleFacts.

(** Runs operations on a context. *)
Ltac ctx_step :=
  cbn beta iota zeta delta [app fst];
  cbv beta iota zeta delta
  [run fold_left perform paint set_drawing drawing stack path painted
   fillStyle strokeStyle lineWidth imageSmoothingEnabled imageSmoothingQuality clipRegion
   coinPaints disc innerDisc coinStyle fst snd];
  cbn [app].

Lemma run_app (a b : list Op) (c : Context) : run (a ++ b) c = run b (run a c).
Proof. apply fold_left_app. Qed.

Lemma forEachIndexed_cons {A : Type} (f : A -> nat -> list Op * nat) (a : A) (xs : list A) :
  forEachIndexed f (a :: xs) = fst (f a 0%nat) ++ forEachIndexed (fun b i => f b (S i)) xs.
Proof. reflexivity. Qed.

Lemma coinStyle_idem (d : Drawing) : coinStyle (coinStyle d) = coinStyle d.
Proof. reflexivity. Qed.

(** What a list of per-coin results amounts to, when every shown coin leaves
    the context in [coinStyle] and adds [paints i c]. *)
Lemma run_coins (f : Coin -> nat -> list Op * nat) (cam : Q)
    (paints : Drawing -> nat -> Coin -> list Paint) :
  (forall d, forall i c, paints (coinStyle d) i c = paints d i c) ->
  (forall i c ctx,
     run (fst (f c i)) ctx
     = if shown cam c
       then mkContext (coinStyle (drawing ctx)) (stack ctx) [disc cam c]
              (painted ctx ++ paints (drawing ctx) i c)
       else ctx) ->
  forall (coins : list Coin) (n : nat) (ctx : Context),
    let ctx' := run (forEachIndexed (fun c i => f c (n + i)%nat) coins) ctx in
    drawing ctx' = (if existsb (shown cam) coins then coinStyle (drawing ctx) else drawing ctx) /\
    stack ctx' = stack ctx /\
    painted ctx'
    = painted ctx
      ++ concat (imap (fun i c => if shown cam c then paints (drawing ctx) (n + i)%nat c else []) coins) /\
    (existsb (shown cam) coins = false -> ctx' = ctx).
Proof.
  intros Hp Hf coins. induction coins as [|c cs IH]; intros n ctx; cbv zeta.
  - cbn. rewrite app_nil_r. done.
  - rewrite forEachIndexed_cons, run_app, Hf.
    assert (E : forEachIndexed (fun b i => f b (n + S i)%nat) cs
                = forEachIndexed (fun b i => f b (S n + i)%nat) cs).
    { unfold forEachIndexed. f_equal. apply imap_ext. intros i b _.
      by replace (n + S i)%nat with (S n + i)%nat by lia. }
    rewrite E. cbn [existsb imap concat].
    assert (E' : imap ((fun i c0 => if shown cam c0 then paints (drawing ctx) (n + i)%nat c0 else []) ∘ S) cs
                 = imap (fun i c0 => if shown cam c0 then paints (drawing ctx) (S n + i)%nat c0 else []) cs).
    { apply imap_ext. intros i b _. cbn. by replace (n + S i)%nat with (S (n + i)) by lia. }
    rewrite E'. rewrite Nat.add_0_r.
    destruct (shown cam c) eqn:Hs.
    + destruct (IH (S n) (mkContext (coinStyle (drawing ctx)) (stack ctx) [disc cam c]
                            (painted ctx ++ paints (drawing ctx) n c)))
        as (D & S1 & P & _).
      cbn [drawing stack painted] in D, S1, P. cbn [orb].
      rewrite D, S1, P. split.
      { destruct (existsb _ _); reflexivity. }
      split; [reflexivity |]. split; [| done].
      rewrite <- app_assoc. do 2 f_equal. f_equal. apply imap_ext. intros i b _.
      destruct (shown cam b); [apply Hp | reflexivity].
    + destruct (IH (S n) ctx) as (D & S1 & P & Z). cbn [orb app]. done.
Qed.

(** One coin of the current renderer. *)
Lemma new_run (loaded : nat -> bool) (cam : Q) i c ctx :
  run (fst (CollectibleRenderer.drawCoin (CollectibleRenderer.coinImages loaded) cam c i)) ctx
  = if shown cam c
    then mkContext (coinStyle (drawing ctx)) (stack ctx) [disc cam c]
           (painted ctx ++ coinPaints (drawing ctx) true "high" (loaded (i mod 4)%nat) (i mod 4)%nat cam c)
    else ctx.
Proof.
  unfold CollectibleRenderer.drawCoin, shown.
  destruct (collected c); [reflexivity |]. cbn [negb andb].
  destruct (JS.lt _ _ && JS.gt _ _); [| reflexivity].
  cbn [fst]. rewrite new_imageIndex.
  destruct ctx as [[fs ss lw ie iq cl] st pa pt].
  destruct (mod4_cases i) as [E | [E | [E | E]]]; rewrite E;
    cbn [lookup list_lookup CollectibleRenderer.coinImages CollectibleRenderer.imageUrls imap
         complete compose];
    destruct (loaded _); ctx_step; rewrite <- ?app_assoc; reflexivity.
Qed.

Lemma forEachIndexed_offset0 {A : Type} (f : A -> nat -> list Op * nat) (xs : list A) :
  forEachIndexed f xs = forEachIndexed (fun a i => f a (0 + i)%nat) xs.
Proof. reflexivity. Qed.

Lemma filter_concat {A : Type} (g : A -> bool) (ls : list (list A)) :
  List.filter g (concat ls) = concat (List.filter g <$> ls).
Proof.
  induction ls as [|l ls IH]; [reflexivity |].
  cbn [concat fmap list_fmap]. by rewrite List.filter_app, IH.
Qed.

Section Assets.

Variable getExtensionURL : string -> string.

(** One coin of the renderer that loads its images from [/assets]. *)
Lemma old_run (loaded : nat -> bool) (cam : Q) i c ctx :
  run (fst (CollectibleRendererAssets.drawCoin
              (CollectibleRendererAssets.coinImages getExtensionURL loaded) cam c i)) ctx
  = if shown cam c
    then mkContext (coinStyle (drawing ctx)) (stack ctx) [disc cam c]
           (painted ctx ++ coinPaints (drawing ctx) (imageSmoothingEnabled (drawing ctx))
                             (imageSmoothingQuality (drawing ctx)) true (i mod 4)%nat cam c)
    else ctx.
Proof.
  unfold CollectibleRendererAssets.drawCoin, shown.
  destruct (collected c); [reflexivity |]. cbn [negb andb].
  destruct (JS.lt _ _ && JS.gt _ _); [| reflexivity].
  cbn [fst]. rewrite old_imageIndex.
  destruct ctx as [[fs ss lw ie iq cl] st pa pt].
  destruct (mod4_cases i) as [E | [E | [E | E]]]; rewrite E;
    cbn [lookup list_lookup CollectibleRendererAssets.coinImages imap seq compose];
    ctx_step; rewrite <- ?app_assoc; reflexivity.
Qed.

Lemma new_without_smoothing (loaded loaded' : nat -> bool) (cam : Q) c i :
  loaded (i mod 4)%nat = true ->
  List.filter (fun o => negb (isSmoothing o))
    (fst (CollectibleRenderer.drawCoin (CollectibleRenderer.coinImages loaded) cam c i))
  = fst (CollectibleRendererAssets.drawCoin
           (CollectibleRendererAssets.coinImages getExtensionURL loaded') cam c i).
Proof.
  intros Hl. unfold CollectibleRenderer.drawCoin, CollectibleRendererAssets.drawCoin.
  destruct (collected c); [reflexivity |]. cbn [negb andb].
  destruct (JS.lt _ _ && JS.gt _ _); [| reflexivity].
  cbn [fst]. rewrite new_imageIndex, old_imageIndex. revert Hl.
  destruct (mod4_cases i) as [E | [E | [E | E]]]; rewrite E; intros Hl;
    cbn [lookup list_lookup CollectibleRenderer.coinImages CollectibleRenderer.imageUrls
         CollectibleRendererAssets.coinImages imap seq complete compose];
    rewrite Hl; reflexivity.
Qed.

(** X12. Drawing the coins leaves the 2d context usable for what is drawn
    next: the stack of saved states is as before, and so are the clipping
    region and the image-smoothing settings, which the renderer changes only
    between [save()] and [restore()].  The fill colour, the stroke colour
    and the line width are not put back: once a coin has been drawn they are
    the coin's.  With no coin to show the context is untouched.  This holds
    for both renderers. *)
Theorem coins_leave_context_clean (loaded loaded' : nat -> bool) (coins : list Coin) (cam : Q)
    (ctx : Context) :
  let new := run (CollectibleRenderer.drawCollectibles loaded coins cam) ctx in
  let old := run (CollectibleRendererAssets.drawCollectibles getExtensionURL loaded' coins cam) ctx in
  stack new = stack ctx /\
  clipRegion (drawing new) = clipRegion (drawing ctx) /\
  imageSmoothingEnabled (drawing new) = imageSmoothingEnabled (drawing ctx) /\
  imageSmoothingQuality (drawing new) = imageSmoothingQuality (drawing ctx) /\
  drawing new = (if existsb (shown cam) coins then coinStyle (drawing ctx) else drawing ctx) /\
  drawing old = drawing new /\
  stack old = stack ctx /\
  (existsb (shown cam) coins = false -> new = ctx /\ old = ctx).
Proof.
  cbv zeta. unfold CollectibleRenderer.drawCollectibles, CollectibleRendererAssets.drawCollectibles.
  rewrite (forEachIndexed_offset0 (CollectibleRenderer.drawCoin _ _)),
          (forEachIndexed_offset0 (CollectibleRendererAssets.drawCoin _ _)).
  destruct (run_coins (CollectibleRenderer.drawCoin (CollectibleRenderer.coinImages loaded) cam) cam
              (fun d i c => coinPaints d true "high" (loaded (i mod 4)%nat) (i mod 4)%nat cam c)
              (fun _ _ _ => eq_refl) (fun i c x => new_run loaded cam i c x) coins 0%nat ctx)
    as (D & S1 & _ & Z).
  destruct (run_coins (CollectibleRendererAssets.drawCoin
                         (CollectibleRendererAssets.coinImages getExtensionURL loaded') cam) cam
              (fun d i c => coinPaints d (imageSmoothingEnabled d) (imageSmoothingQuality d) true
                              (i mod 4)%nat cam c)
              (fun _ _ _ => eq_refl) (fun i c x => old_run loaded' cam i c x) coins 0%nat ctx)
    as (D' & S1' & _ & Z').
  rewrite D, D'. split; [exact S1 |].
  repeat split; try (destruct (existsb _ _); reflexivity); auto.
Qed.


(** X14. Once the four images have loaded, the current renderer issues the
    operations of the renderer under [/assets] with the two image-smoothing
    settings added, and nothing else differs: same coins, same circles, same
    images, same order. *)
Theorem renderers_agree_once_loaded (loaded loaded' : nat -> bool) (coins : list Coin) (cam : Q) :
  (forall k, (k < 4)%nat -> loaded k = true) ->
  List.filter (fun o => negb (isSmoothing o)) (CollectibleRenderer.drawCollectibles loaded coins cam)
  = CollectibleRendererAssets.drawCollectibles getExtensionURL loaded' coins cam.
Proof.
  intros Hl. unfold CollectibleRenderer.drawCollectibles, CollectibleRendererAssets.drawCollectibles,
    forEachIndexed.
  rewrite filter_concat, fmap_imap. f_equal. apply imap_ext. intros i c _.
  apply new_without_smoothing, Hl, Nat.mod_upper_bound. lia.
Qed.

End Assets.

(** **** Examples *)

Lemma renderers_agree_once_loaded_witness :
  List.filter (fun o => negb (isSmoothing o))
    (CollectibleRenderer.drawCollectibles (fun _ => true) sampleCoins 0)
  = CollectibleRendererAssets.drawCollectibles (fun u => u) (fun _ => false) sampleCoins 0.
Proof.
  apply (renderers_agree_once_loaded (fun u => u) (fun _ => true) (fun _ => false) sampleCoins 0).
  intros k _. reflexivity.
Defined.


End CollectibleMore.

(** *** The start that [selectBreakActivity] schedules *)

Module UseTimerScheduled.
Import UseTimer UseTimerFacts UseTimerMore.

Local Open Scope Z_scope.

Section Facts.

Variable minutesToSeconds : Z -> Z.

Lemma selectBreakActivity_exec ext a h :
  exec (perform minutesToSeconds ext (SelectBreakActivity a)) h
  = set_timeouts
      (timeouts h ++ (if truthyActivity a && negb (isRunning (timerState h))
                      then [timerState h] else []))
      (set_timerState (with_breakActivity a (timerState h)) h).
Proof.
  destruct h as [ts c r lu nh st ns tq]. cbn [perform callback].
  unfold selectBreakActivity. hook_step.
  destruct (truthyActivity a); destruct (isRunning ts); hook_step;
    by rewrite ?app_nil_r.
Qed.

(** X15. Selecting a break activity while the timer is not running
    schedules a call of [startTimer] 100 ms later.  That call is the
    [startTimer] of the render in which the activity was selected: when it
    fires, it starts the interval and writes the timer state of that render,
    now running.  So the activity just selected is replaced by the one before
    the selection.  While the timer is running nothing is scheduled and the
    selection stays. *)
Theorem scheduled_start_restores_old_activity ext (a : BreakActivity) (now : Z) (h : Hook) :
  truthyActivity a = true ->
  0 < timeRemaining (timerState h) ->
  timeouts h = [] ->
  let selected := exec (perform minutesToSeconds ext (SelectBreakActivity a)) h in
  let fired := exec (perform minutesToSeconds ext (Timeout now)) selected in
  breakActivity (timerState selected) = a /\
  (isRunning (timerState h) = true -> timeouts selected = [] /\ fired = selected) /\
  (isRunning (timerState h) = false ->
   timeouts selected = [timerState h] /\
   timerState fired = with_completed false (with_isRunning true (timerState h)) /\
   breakActivity (timerState fired) = breakActivity (timerState h) /\
   intervalRef fired = Some (nextHandle h) /\
   timeouts fired = []).
Proof.
  intros Ha Ht Hq. cbv zeta. rewrite selectBreakActivity_exec, Ha, Hq.
  destruct h as [ts c r lu nh st ns tq]. cbn [timerState timeouts] in *. subst tq.
  split; [reflexivity |]. split.
  - intros ->. by split.
  - intros Hr. rewrite Hr. cbn [negb andb app]. split; [reflexivity |].
    cbn [perform]. rewrite timeoutFires_exec. cbn [timeouts set_timeouts set_timerState].
    rewrite startTimer_exec by done. done.
Qed.

End Facts.

(** The break has just begun and is not running; the user picks the game;
    meanwhile nothing else happens. *)
Lemma scheduled_start_restores_old_activity_witness :
  let selected := exec (perform (fun m => 60 * m) false (SelectBreakActivity (Some "game"))) breakHook in
  breakActivity (timerState selected) = Some "game" /\
  timerState (exec (perform (fun m => 60 * m) false (Timeout 100)) selected)
  = mkTimerState Break 300 true None false.
Proof.
  cbv zeta.
  destruct (scheduled_start_restores_old_activity (fun m => 60 * m) false (Some "game") 100 breakHook)
    as (A & _ & S).
  - reflexivity.
  - reflexivity.
  - reflexivity.
  - destruct (S eq_refl) as (_ & T & _). split; [exact A | exact T].
Defined.

End UseTimerScheduled.
(** *** The page *)

Module IndexFacts.
Import UseTimer UseTimerNotions UseTimerFacts UseTimerMore EffFacts Index.

Local Open Scope Z_scope.

(** Unfolds the handlers of the page down to the states. *)
Ltac page_step := cbv beta iota zeta delta
  [mbind mret Eff_bind Eff_ret gets modify when exec useTimer sendMessage
   openTimerPopup closeTimerPopup handleOpenChat handleCloseChat
   set_settings set_isTimerOpen set_isChatOpen set_timer
   settings isTimerOpen isChatOpen timer sent fst snd].

Section Facts.

Variable minutesToSeconds : Z -> Z.

Implicit Types (ext : bool) (p : Page) (h : Hook) (now : Z).

Lemma completionEffect_exec before p :
  exec (completionEffect before) p
  = if opens before (timerState (timer p))
    then mkPage (settings p) true false (timer p) (sent p)
    else p.
Proof.
  destruct p as [c t ch h s]. unfold completionEffect, opens. page_step.
  destruct (negb _); [| reflexivity]. page_step.
  destruct (bool_decide _ && completed _); reflexivity.
Qed.

Lemma withTimer_exec (m : Eff Hook unit) p :
  exec (withTimer m) p
  = if opens (timerState (timer p)) (timerState (exec m (timer p)))
    then mkPage (settings p) true false (exec m (timer p)) (sent p)
    else mkPage (settings p) (isTimerOpen p) (isChatOpen p) (exec m (timer p)) (sent p).
Proof.
  unfold withTimer. rewrite eff_exec_bind. cbn [gets fst].
  change (exec (gets ?f) p) with p.
  rewrite eff_exec_bind, completionEffect_exec.
  assert (E : exec (useTimer m) p
              = mkPage (settings p) (isTimerOpen p) (isChatOpen p) (exec m (timer p)) (sent p)).
  { destruct p as [c t ch h s]. unfold useTimer, exec. cbn. destruct (m h); reflexivity. }
  rewrite E. cbn [timer settings sent]. reflexivity.
Qed.

Lemma useTimer_exec {A : Type} (m : Eff Hook A) p :
  exec (useTimer m) p
  = mkPage (settings p) (isTimerOpen p) (isChatOpen p) (exec m (timer p)) (sent p).
Proof.
  destruct p as [c t ch h s]. unfold useTimer, exec. cbn. destruct (m h); reflexivity.
Qed.

Lemma withTimer_exclusive (m : Eff Hook unit) p :
  exclusive p -> exclusive (exec (withTimer m) p).
Proof.
  unfold exclusive. rewrite withTimer_exec. destruct (opens _ _); done.
Qed.

Lemma changeSettings_exec ext c (m : Eff Hook unit) p :
  exec (changeSettings ext c m) p
  = let q := exec (withTimer m) (set_settings c p) in
    let h1 := exec (settingsChanged c) (timer q) in
    if ext
    then mkPage c (isTimerOpen q) (isChatOpen q)
           (exec (saveToLocalStorage ext SETTINGS_KEY (StoredSettings c)) h1)
           (sent q ++ [UpdateSettings c])
    else mkPage c (isTimerOpen q) (isChatOpen q) h1 (sent q).
Proof.
  unfold changeSettings. rewrite eff_exec_bind.
  change (exec (modify (set_settings c)) p) with (set_settings c p).
  rewrite eff_exec_bind. cbv zeta.
  assert (S : settings (exec (withTimer m) (set_settings c p)) = c).
  { rewrite withTimer_exec. destruct (opens _ _); reflexivity. }
  set (q := exec (withTimer m) (set_settings c p)) in *.
  rewrite eff_exec_bind, useTimer_exec. rewrite S.
  destruct ext; cbn [when].
  - rewrite eff_exec_bind, useTimer_exec. reflexivity.
  - reflexivity.
Qed.

Lemma changeSettings_exclusive ext c (m : Eff Hook unit) p :
  exclusive p -> exclusive (exec (changeSettings ext c m) p).
Proof.
  intros E. rewrite changeSettings_exec. cbv zeta.
  assert (E' : exclusive (exec (withTimer m) (set_settings c p))).
  { apply withTimer_exclusive. exact E. }
  destruct ext; exact E'.
Qed.

Lemma act_exclusive ext a p :
  exclusive p -> exclusive (exec (act minutesToSeconds ext a) p).
Proof.
  intros E. destruct a; cbn [act];
    try (apply withTimer_exclusive; exact E);
    try (destruct p as [c t ch h s]; unfold exclusive in *; cbn in *;
         solve [reflexivity | by destruct t | by rewrite andb_false_r]).
  - (* handleStartTimer *)
    unfold handleStartTimer. rewrite eff_exec_bind. cbn [gets fst].
    change (exec (gets ?f) p) with p.
    rewrite eff_exec_bind, useTimer_exec, eff_exec_bind, completionEffect_exec.
    destruct (opens _ _); [reflexivity |].
    destruct (bool_decide _); [reflexivity |]. exact E.
  - unfold handleFocusDurationChange. rewrite eff_exec_bind. cbn [gets fst].
    change (exec (gets ?f) p) with p. apply changeSettings_exclusive. exact E.
  - unfold handleBreakDurationChange. rewrite eff_exec_bind. cbn [gets fst].
    change (exec (gets ?f) p) with p. apply changeSettings_exclusive. exact E.
Qed.

Lemma run_actions_cons ext a actions p :
  Index.run minutesToSeconds ext (a :: actions) p
  = Index.run minutesToSeconds ext actions (exec (act minutesToSeconds ext a) p).
Proof. unfold Index.run. apply eff_forEach_cons. Qed.

Lemma run_actions_app ext xs ys p :
  Index.run minutesToSeconds ext (xs ++ ys) p
  = Index.run minutesToSeconds ext ys (Index.run minutesToSeconds ext xs p).
Proof. unfold Index.run. apply eff_forEach_app. Qed.

Lemma run_storage_other ext (ops : list Operation) h (key : string) :
  key <> TIMER_STATE_KEY -> key <> TIMER_LAST_UPDATE_KEY ->
  storage (UseTimer.run minutesToSeconds ext ops h) !! key = storage h !! key.
Proof.
  intros K1 K2. revert h. induction ops as [|o ops IH]; intros h; [done |].
  rewrite run_ops_cons, IH. by apply perform_storage_other.
Qed.

Lemma run_storage_same (ops : list Operation) h :
  storage (UseTimer.run minutesToSeconds false ops h) = storage h.
Proof.
  revert h. induction ops as [|o ops IH]; intros h; [done |].
  rewrite run_ops_cons, IH. apply perform_storage_same. by left.
Qed.

(** Firings of the interval while more than one second remains of a focus
    session: the page's own state stays. *)
Lemma page_ticks_above ext (nows : list Z) p :
  mode (timerState (timer p)) = Focus ->
  intervalRef (timer p) <> None ->
  Z.of_nat (length nows) < timeRemaining (timerState (timer p)) ->
  Index.run minutesToSeconds ext (IntervalFires <$> nows) p
  = mkPage (settings p) (isTimerOpen p) (isChatOpen p)
      (UseTimer.run minutesToSeconds ext (Tick <$> nows) (timer p)) (sent p).
Proof.
  revert p. induction nows as [|now nows IH]; intros p Hm Hi Hlt.
  - destruct p; reflexivity.
  - cbn [fmap list_fmap length] in *. rewrite run_actions_cons, run_ops_cons. cbn [act perform].
    rewrite withTimer_exec.
    destruct (intervalTick_above_one minutesToSeconds ext now (timer p) Hi) as (Ets & Ei & _); [lia |].
    assert (O : opens (timerState (timer p))
                  (timerState (exec (intervalTick minutesToSeconds ext now) (timer p))) = false).
    { unfold opens. rewrite Ets. cbn [mode completed with_completed with_timeRemaining].
      rewrite Hm. rewrite (bool_decide_eq_false_2 (Focus = Break)) by discriminate.
      by rewrite andb_false_r. }
    rewrite O. rewrite IH; cbn [timer settings isTimerOpen isChatOpen sent].
    + reflexivity.
    + rewrite Ets. exact Hm.
    + by rewrite Ei.
    + rewrite Ets. cbn. lia.
Qed.

(** X16. The timer popup and the chat are never open together: whatever
    the user clicks and whatever the timer does, from a page on which at
    most one of them is open. *)
Theorem timer_popup_and_chat_exclusive ext (actions : list Action) p :
  isTimerOpen p && isChatOpen p = false ->
  let p' := Index.run minutesToSeconds ext actions p in
  isTimerOpen p' && isChatOpen p' = false.
Proof.
  cbv zeta. revert p. induction actions as [|a actions IH]; intros p E.
  - exact E.
  - rewrite run_actions_cons. apply IH. by apply act_exclusive.
Qed.

(** X17. A break length chosen during a focus session is the length of the
    break that follows: once the interval has fired for every remaining
    second, the timer is in break mode with [minutesToSeconds d] seconds,
    not running; the page shows the timer popup with the break panel, and
    the chat is closed.  In the extension the new settings are in the
    storage and have been sent to the background script. *)
Theorem chosen_break_length_is_next_break ext (d : Z) (nows : list Z) (now : Z) p :
  mode (timerState (timer p)) = Focus ->
  intervalRef (timer p) <> None ->
  Z.of_nat (length nows) = timeRemaining (timerState (timer p)) - 1 ->
  let c := mkTimerSettings (focusDuration (settings p)) d in
  let p' := Index.run minutesToSeconds ext
              (ChangeBreakDuration d :: (IntervalFires <$> (nows ++ [now]))) p in
  timerState (timer p') = mkTimerState Break (minutesToSeconds d) false None true /\
  settings p' = c /\
  view p' = PageView false true Break /\
  (ext = true ->
   storage (timer p') !! SETTINGS_KEY = Some (StoredSettings c) /\
   sent p' = sent p ++ [UpdateSettings c]) /\
  (ext = false -> sent p' = sent p /\ storage (timer p') = storage (timer p)).
Proof.
  intros Hm Hi Hlen. cbv zeta.
  rewrite run_actions_cons. cbn [act]. unfold handleBreakDurationChange.
  rewrite eff_exec_bind. cbn [gets fst]. change (exec (gets ?f) p) with p.
  rewrite changeSettings_exec. cbv zeta. rewrite withTimer_exec.
  cbn [set_settings timer settings isTimerOpen isChatOpen sent].
  assert (U : exec (perform minutesToSeconds ext (UpdateBreakDuration d)) (timer p) = timer p).
  { destruct p as [c t ch [[m tr ir ba co] cs r lu n st no tq] s]. cbn in Hm. subst m.
    cbn [perform callback]. unfold updateBreakDuration. destruct ir; reflexivity. }
  rewrite U.
  assert (O : opens (timerState (timer p)) (timerState (timer p)) = false).
  { unfold opens. rewrite bool_decide_eq_true_2 by reflexivity.
    by rewrite Bool.eqb_reflx. }
  rewrite O. cbn [timer settings isTimerOpen isChatOpen sent].
  set (c := mkTimerSettings (focusDuration (settings p)) d).
  set (h1 := exec (settingsChanged c) (timer p)).
  set (h2 := if ext then exec (saveToLocalStorage ext SETTINGS_KEY (StoredSettings c)) h1 else h1).
  set (q := mkPage c (isTimerOpen p) (isChatOpen p) h2
              (if ext then sent p ++ [UpdateSettings c] else sent p)).
  assert (Q : (if ext
               then mkPage c (isTimerOpen p) (isChatOpen p)
                      (exec (saveToLocalStorage ext SETTINGS_KEY (StoredSettings c)) h1)
                      (sent p ++ [UpdateSettings c])
               else mkPage c (isTimerOpen p) (isChatOpen p) h1 (sent p)) = q).
  { unfold q, h2. destruct ext; reflexivity. }
  rewrite Q.
  assert (H2 : timerState h2 = timerState (timer p) /\ intervalRef h2 = intervalRef (timer p) /\
               settingsRef h2 = c /\
               storage h2 = (if ext then <[SETTINGS_KEY := StoredSettings c]> (storage (timer p))
                             else storage (timer p))).
  { unfold h2, h1. destruct p as [c0 t ch [ts cs r lu n st no tq] s]. destruct ext; done. }
  destruct H2 as (T2 & I2 & S2 & St2).
  rewrite fmap_app, run_actions_app.
  rewrite (page_ticks_above ext nows q) by
    (cbn [q timer]; rewrite ?T2, ?I2; first [exact Hm | exact Hi | lia]).
  cbn [q settings isTimerOpen isChatOpen timer sent].
  destruct (run_ticks_above minutesToSeconds ext nows h2) as (T & M & _ & _ & I & S & _).
  { by rewrite I2. }
  { rewrite T2. lia. }
  set (h3 := UseTimer.run minutesToSeconds ext (Tick <$> nows) h2) in *.
  cbn [fmap list_fmap]. rewrite run_actions_cons. cbn [act].
  unfold Index.run. cbn [forEach]. change (exec (mret tt) ?x) with x.
  rewrite withTimer_exec. cbn [timer settings isTimerOpen isChatOpen sent].
  destruct (intervalTick_last minutesToSeconds ext now h3) as (Ets & _ & _ & _ & _).
  { by rewrite I, I2. }
  { rewrite T, T2. lia. }
  assert (E3 : timerState (exec (intervalTick minutesToSeconds ext now) h3)
               = mkTimerState Break (minutesToSeconds d) false None true).
  { rewrite Ets, M, T2, Hm, S, S2. reflexivity. }
  assert (O' : opens (timerState h3) (timerState (exec (intervalTick minutesToSeconds ext now) h3))
               = true).
  { rewrite E3. unfold opens. cbn [mode completed]. rewrite M, T2, Hm.
    rewrite (bool_decide_eq_false_2 (Break = Focus)) by discriminate.
    by rewrite bool_decide_eq_true_2. }
  rewrite O'. cbn [timer settings sent].
  split; [exact E3 |]. split; [reflexivity |].
  split.
  { unfold view. cbn [timer isTimerOpen isChatOpen]. rewrite E3. reflexivity. }
  destruct keys_distinct as (_ & N2 & N3).
  split.
  - intros ->. split; [| reflexivity].
    change (exec (intervalTick minutesToSeconds true now) h3)
      with (exec (perform minutesToSeconds true (Tick now)) h3).
    rewrite perform_storage_other by done.
    unfold h3. rewrite run_storage_other by done.
    rewrite St2. apply lookup_insert_eq.
  - intros ->. split; [reflexivity |].
    change (exec (intervalTick minutesToSeconds false now) h3)
      with (exec (perform minutesToSeconds false (Tick now)) h3).
    rewrite perform_storage_same by (by left).
    unfold h3. rewrite run_storage_same by reflexivity. exact St2.
Qed.

(** X18. The default durations that the background script stores at
    installation are numbers of seconds, 25 * 60 and 5 * 60.  The hook takes
    stored settings for its own and hands the durations to
    [minutesToSeconds]: with no settings stored before the installation and
    no timer state saved since, loading leaves the timer state as it is, and
    from then on a reset or the end of a session sets the timer to
    [minutesToSeconds (25 * 60)] for focus and [minutesToSeconds (5 * 60)]
    for a break.  The page takes the same settings into its own state. *)
Theorem installed_durations_are_read_as_minutes (store : gmap string StorageValue) now now' h p :
  store !! SETTINGS_KEY = None ->
  store !! TIMER_LAST_UPDATE_KEY = None ->
  storage h = Background.onInstalled store ->
  storage (timer p) = Background.onInstalled store ->
  let h' := exec (loadStoredTimerState minutesToSeconds true now) h in
  timerState h' = timerState h /\
  settingsRef h' = mkTimerSettings (25 * 60) (5 * 60) /\
  (forall m,
     timeRemaining (timerState (exec (resetTimer minutesToSeconds m) h'))
     = minutesToSeconds (match m with Focus => 25 * 60 | Break => 5 * 60 end)) /\
  (forall m,
     (handleTimerCompletion minutesToSeconds true now' m h').1
     = mkTimerState (match m with Focus => Break | Break => Focus end)
         (minutesToSeconds (match m with Focus => 5 * 60 | Break => 25 * 60 end))
         false None true) /\
  settings (exec (loadSettings true) p) = mkTimerSettings (25 * 60) (5 * 60).
Proof.
  intros Hs Hu Hh Hp. cbv zeta.
  destruct keys_distinct as (N1 & N2 & N3).
  assert (L : Background.onInstalled store !! SETTINGS_KEY
              = Some (StoredSettings (mkTimerSettings (25 * 60) (5 * 60))) /\
              Background.onInstalled store !! TIMER_LAST_UPDATE_KEY = None).
  { unfold Background.onInstalled.
    change "focusflow_settings"%string with SETTINGS_KEY.
    change "focusflow_timer_state"%string with TIMER_STATE_KEY.
    rewrite Hs.
    destruct (<[SETTINGS_KEY:=_]> store !! TIMER_STATE_KEY);
      rewrite ?lookup_insert_ne by done; rewrite ?lookup_insert_eq;
      rewrite ?lookup_insert_ne by done; done. }
  destruct L as [L1 L2].
  assert (E : exec (loadStoredTimerState minutesToSeconds true now) h
              = set_settingsRef (mkTimerSettings (25 * 60) (5 * 60)) h).
  { destruct h as [ts c r lu nh st ns tq]. cbn [storage] in Hh. subst st.
    unfold loadStoredTimerState. hook_step. rewrite L1, L2.
    destruct (Background.onInstalled store !! TIMER_STATE_KEY) as [[| |]|]; reflexivity. }
  rewrite E.
  split; [by destruct h |]. split; [by destruct h |].
  split; [intros m; destruct h, m; reflexivity |].
  split; [intros m; destruct h, m; reflexivity |].
  destruct p as [c t ch [ts cs r lu nh st ns tq] s]. cbn [timer storage] in Hp. subst st.
  unfold loadSettings. cbn [when]. rewrite eff_exec_bind.
  unfold useTimer at 1. unfold getFromLocalStorage. cbn [gets timer fst storage].
  rewrite L1. reflexivity.
Qed.

End Facts.

(** **** Examples *)

Lemma timer_popup_and_chat_exclusive_witness :
  let p' := Index.run (fun m => 60 * m) true
              [IntervalFires 1000; IntervalFires 2000; OpenChat; StartTimer 3000; OpenTimerPopup]
              samplePage in
  isTimerOpen p' && isChatOpen p' = false.
Proof.
  apply (timer_popup_and_chat_exclusive (fun m => 60 * m) true
           [IntervalFires 1000; IntervalFires 2000; OpenChat; StartTimer 3000; OpenTimerPopup]
           samplePage).
  reflexivity.
Defined.

(** Two seconds before the end of a focus session the break is set to 7
    minutes. *)
Lemma chosen_break_length_is_next_break_witness :
  let p' := Index.run (fun m => 60 * m) false
              (ChangeBreakDuration 7 :: (IntervalFires <$> ([1000] ++ [2000]))) samplePage in
  timerState (timer p') = mkTimerState Break 420 false None true /\
  view p' = PageView false true Break.
Proof.
  cbv zeta.
  destruct (chosen_break_length_is_next_break (fun m => 60 * m) false 7 [1000] 2000 samplePage)
    as (T & _ & V & _).
  - reflexivity.
  - discriminate.
  - reflexivity.
  - split; [exact T | exact V].
Defined.

Lemma installed_durations_are_read_as_minutes_witness :
  let h := mkHook (mkTimerState Focus 1500 false None false) sampleSettings None 0 1
             (Background.onInstalled ∅) [] [] in
  settingsRef (exec (loadStoredTimerState (fun m => 60 * m) true 5000) h)
  = mkTimerSettings 1500 300 /\
  timeRemaining (timerState (exec (resetTimer (fun m => 60 * m) Break)
                               (exec (loadStoredTimerState (fun m => 60 * m) true 5000) h)))
  = 18000.
Proof.
  cbv zeta.
  destruct (installed_durations_are_read_as_minutes (fun m => 60 * m) ∅ 5000 6000
              (mkHook (mkTimerState Focus 1500 false None false) sampleSettings None 0 1
                 (Background.onInstalled ∅) [] [])
              (mkPage sampleSettings false false
                 (mkHook (mkTimerState Focus 1500 false None false) sampleSettings None 0 1
                    (Background.onInstalled ∅) [] [])
                 []))
    as (_ & S & R & _).
  - reflexivity.
  - reflexivity.
  - reflexivity.
  - reflexivity.
  - split; [exact S | exact (R Break)].
Defined.

End IndexFacts.
(** *** Storage, broadcasts and sounds *)

Module ChromeUtilsFacts.
Import ChromeUtils EffFacts.

Local Open Scope Z_scope.

(** Unfolds the timer operations. *)
Ltac deb_step := cbv beta iota zeta delta
  [mbind mret Eff_bind Eff_ret gets modify when exec
   clearTimeout setTimeout debounced runTimers callAt
   timeout timers nextTimeout invoked fst snd].

Section Debounce.

Context {A : Type}.

Implicit Types (d : Debounced A) (c : Z * A) (calls : list (Z * A)).

Lemma callAt_idle wait c d :
  timers d = [] ->
  armed wait c (exec (callAt wait c) d) /\
  invoked (exec (callAt wait c) d) = invoked d.
Proof.
  destruct d as [t ts n inv], c as [t1 a1]. cbn [timers]. intros ->. unfold armed. deb_step.
  destruct t as [id|]; deb_step; cbn; rewrite app_nil_r; eauto.
Qed.

Lemma callAt_armed wait c0 c d :
  armed wait c0 d ->
  armed wait c (exec (callAt wait c) d) /\
  invoked (exec (callAt wait c) d)
  = invoked d ++ (if c0.1 + wait <=? c.1 then [(c.1, c0.2)] else []).
Proof.
  destruct d as [t ts n inv], c0 as [t0 a0], c as [t1 a1].
  intros (id & Ht & Hid). cbn [timers timeout fst snd] in Ht, Hid.
  subst ts t. unfold armed. deb_step. cbn [List.filter fst snd].
  destruct (t0 + wait <=? t1); cbn [negb List.filter fmap list_fmap app fst snd];
    rewrite ?Pos.eqb_refl; cbn [negb app]; eauto.
Qed.

Lemma runTimers_armed wait c T d :
  armed wait c d ->
  c.1 + wait <= T ->
  invoked (exec (runTimers T) d) = invoked d ++ [(T, c.2)] /\
  timers (exec (runTimers T) d) = [].
Proof.
  destruct d as [t ts n inv], c as [t1 a1].
  intros (id & Ht & Hid) Hle. cbn [timers timeout fst snd] in Ht, Hid, Hle.
  subst ts t. deb_step. cbn [List.filter fst snd].
  destruct (Z.leb_spec (t1 + wait) T); [| lia]. done.
Qed.

Lemma runTimers_idle T d :
  timers d = [] -> exec (runTimers T) d = d.
Proof.
  destruct d as [t ts n inv]. cbn [timers]. intros ->. deb_step. cbn. by rewrite app_nil_r.
Qed.

Lemma last_nonempty (c c0 c1 : Z * A) calls :
  List.last (c :: c1 :: calls) c0 = List.last (c1 :: calls) c.
Proof.
  change (List.last (c :: c1 :: calls) c0) with (List.last (c1 :: calls) c0).
  revert c1. induction calls as [|c2 calls IH]; intros c1; [reflexivity |].
  change (List.last (c1 :: c2 :: calls) c0) with (List.last (c2 :: calls) c0).
  change (List.last (c1 :: c2 :: calls) c) with (List.last (c2 :: calls) c).
  apply IH.
Qed.

Lemma armed_calls wait c0 calls T d :
  armed wait c0 d ->
  Forall (fun c => c.1 + wait <= T) (c0 :: calls) ->
  let d' := exec (runTimers T) (exec (forEach (callAt wait) calls) d) in
  snd <$> invoked d' = (snd <$> invoked d) ++ survivors wait (c0 :: calls) /\
  timers d' = [] /\
  (burst wait (c0 :: calls) -> invoked d' = invoked d ++ [(T, (List.last calls c0).2)]).
Proof.
  revert c0 d. induction calls as [|c calls IH]; intros c0 d Ha HT; cbv zeta.
  - cbn [forEach]. change (exec (mret tt) d) with d.
    destruct (runTimers_armed wait c0 T d Ha) as [I Tm]; [by inversion HT |].
    rewrite I, fmap_app. done.
  - rewrite eff_forEach_cons.
    destruct (callAt_armed wait c0 c d Ha) as [Ha' I].
    inversion HT as [|? ? _ HT']; subst.
    destruct (IH c (exec (callAt wait c) d) Ha' HT') as (S & Tm & B).
    split; [| split; [exact Tm |]].
    + rewrite S, I. cbn [survivors]. rewrite fmap_app.
      destruct (c0.1 + wait <=? c.1); cbn [fmap list_fmap snd]; rewrite <- ?app_assoc;
        reflexivity.
    + intros [Hlt Hb]. rewrite (B Hb), I.
      destruct (Z.leb_spec (c0.1 + wait) c.1); [lia |]. rewrite app_nil_r.
      destruct calls as [|c1 calls]; [reflexivity |].
      by rewrite (last_nonempty c c0 c1 calls).
Qed.

Lemma calls_then_idle (wait : Z) calls (T : Z) d :
  timers d = [] ->
  Forall (fun c => c.1 + wait <= T) calls ->
  let d' := exec (runTimers T) (exec (forEach (callAt wait) calls) d) in
  snd <$> invoked d' = (snd <$> invoked d) ++ survivors wait calls /\
  timers d' = [] /\
  (burst wait calls -> invoked d' = invoked d ++ ((fun c => (T, c.2)) <$> option_list (last calls))).
Proof.
  intros Hd HT. cbv zeta. destruct calls as [|c0 calls].
  - cbn [forEach]. change (exec (mret tt) d) with d. rewrite runTimers_idle by done.
    cbn. rewrite !app_nil_r. done.
  - rewrite eff_forEach_cons.
    destruct (callAt_idle wait c0 d Hd) as [Ha I].
    destruct (armed_calls wait c0 calls T (exec (callAt wait c0) d) Ha HT) as (S & Tm & B).
    rewrite I in S, B. split; [exact S |]. split; [exact Tm |].
    intros Hb. rewrite (B Hb). do 2 f_equal.
    assert (L : last (c0 :: calls) = Some (List.last calls c0)).
    { clear. revert c0. induction calls as [|c calls IH]; intros c0; [reflexivity |].
      rewrite last_cons_cons, IH. destruct calls as [|c1 calls]; [reflexivity |].
      by rewrite (last_nonempty c c0 c1 calls). }
    rewrite L. reflexivity.
Qed.

(** X19. What [debounce(func, wait)] lets through.  Of a series of calls,
    [func] is invoked for exactly those that are not followed by another
    call before [wait] ms are over, with the arguments of that call, in
    order; at most once per call, and never for a call that was overtaken.
    In particular a series of calls each less than [wait] ms after the one
    before leads to one invocation, with the arguments of the last call, and
    no timer stays behind. *)
Theorem debounce_invokes_survivors (wait : Z) calls (T : Z) d :
  timers d = [] ->
  Forall (fun c => c.1 + wait <= T) calls ->
  let d' := exec (runTimers T) (exec (forEach (callAt wait) calls) d) in
  snd <$> invoked d' = (snd <$> invoked d) ++ survivors wait calls /\
  timers d' = [] /\
  (burst wait calls -> invoked d' = invoked d ++ ((fun c => (T, c.2)) <$> option_list (last calls))).
Proof. apply calls_then_idle. Qed.

End Debounce.

Section Tab.

Context {V : Type}.

Implicit Types (t : Tab V) (saves : list (Z * (string * V))).

Lemma onBroadcast_exec {B : Type} (m : Eff (Debounced (string * V)) B) t :
  exec (onBroadcast m) t = mkTab (tabId t) (local t) (exec m (broadcast t)).
Proof. unfold onBroadcast, exec. destruct (m (broadcast t)); reflexivity. Qed.

Lemma saves_exec saves t :
  exec (forEach (saveToLocalStorage true) saves) t
  = mkTab (tabId t)
      (fold_left (fun m s => <[s.2.1 := s.2.2]> m) saves (local t))
      (exec (forEach (callAt 250) saves) (broadcast t)).
Proof.
  revert t. induction saves as [|s saves IH]; intros t.
  - by destruct t.
  - rewrite !eff_forEach_cons, IH. unfold saveToLocalStorage. cbn [when].
    rewrite eff_exec_bind, onBroadcast_exec. reflexivity.
Qed.

Lemma saves_outside saves t :
  exec (forEach (saveToLocalStorage false) saves) t = t.
Proof.
  induction saves as [|s saves IH]; [reflexivity |].
  rewrite eff_forEach_cons. exact IH.
Qed.

(** X20. Values saved with [saveToLocalStorage] less than 250 ms after one
    another are all written to the storage, and one message is broadcast for
    them: it carries the key and the value of the last save, and is sent
    once 250 ms have passed since that save.  The saves before it are not
    announced to the other tabs, whatever their keys.  Outside the extension
    nothing is stored and nothing is sent. *)
Theorem saves_are_stored_last_is_broadcast saves (T : Z) t :
  timers (broadcast t) = [] ->
  burst 250 saves ->
  Forall (fun s => s.1 + 250 <= T) saves ->
  let t' := exec (elapse T) (exec (forEach (saveToLocalStorage true) saves) t) in
  local t' = fold_left (fun m s => <[s.2.1 := s.2.2]> m) saves (local t) /\
  sentMessages true t'
  = sentMessages true t
    ++ ((fun s => mkMessage s.2.1 s.2.2 T (tabId t)) <$> option_list (last saves)) /\
  timers (broadcast t') = [] /\
  exec (forEach (saveToLocalStorage false) saves) t = t /\
  sentMessages false t = [].
Proof.
  intros Ht Hb HT. cbv zeta. unfold elapse. rewrite saves_exec, onBroadcast_exec.
  cbn [tabId local broadcast].
  destruct (calls_then_idle 250 saves T (broadcast t) Ht HT) as (_ & Tm & B).
  split; [reflexivity |]. split; [| split; [exact Tm | split; [apply saves_outside | reflexivity]]].
  unfold sentMessages. cbn [broadcast tabId]. rewrite (B Hb), fmap_app. f_equal.
  destruct (last saves); reflexivity.
Qed.

End Tab.

(** **** [playSingleAudio] *)

(** The log is throttled, and [audioPlayTimes] is not behind it. *)
Lemma playSingleAudio_inv ext element plays audioId now p :
  throttled (played p) ->
  (forall a t, In (a, t) (played p) -> exists t', audioPlayTimes p !! a = Some t' /\ t <= t') ->
  let p' := playSingleAudio ext element plays audioId now p in
  throttled (played p') /\
  (forall a t, In (a, t) (played p') -> exists t', audioPlayTimes p' !! a = Some t' /\ t <= t').
Proof.
  intros HT HA. cbv zeta.
  assert (Keep : forall fl cl,
    throttled (played (mkPlayer (playerTabId p) (audioPlayTimes p) fl (played p) cl)) /\
    (forall a t, In (a, t) (played (mkPlayer (playerTabId p) (audioPlayTimes p) fl (played p) cl)) ->
       exists t', audioPlayTimes (mkPlayer (playerTabId p) (audioPlayTimes p) fl (played p) cl) !! a
                  = Some t' /\ t <= t')) by (intros; split; assumption).
  assert (Before : AUDIO_THROTTLE_MS <= now - lastPlayTime audioId p ->
                   forall t, In (audioId, t) (played p) -> t + AUDIO_THROTTLE_MS <= now).
  { intros Hn t Hin. destruct (HA _ _ Hin) as (t' & E & Hle).
    unfold lastPlayTime in Hn. rewrite E in Hn. cbn in Hn. lia. }
  assert (Times : AUDIO_THROTTLE_MS <= now - lastPlayTime audioId p ->
                  forall log, (forall a t, In (a, t) log -> In (a, t) (played p) \/ (a, t) = (audioId, now)) ->
                  forall a t, In (a, t) log ->
                  exists t', <[audioId := now]> (audioPlayTimes p) !! a = Some t' /\ t <= t').
  { intros Hn log Hlog a t Hin. destruct (decide (a = audioId)) as [-> | Hne].
    - exists now. split; [apply lookup_insert_eq |].
      destruct (Hlog _ _ Hin) as [Hold | [= ->]]; [| lia].
      pose proof (Before Hn _ Hold). unfold AUDIO_THROTTLE_MS in *. lia.
    - rewrite lookup_insert_ne by done.
      destruct (Hlog _ _ Hin) as [Hold | [= -> _]]; [by apply HA | done]. }
  assert (Grow : AUDIO_THROTTLE_MS <= now - lastPlayTime audioId p ->
                 throttled (played p ++ [(audioId, now)])).
  { intros Hn i j a t t' Hij Hi Hj.
    destruct (decide (j < length (played p))%nat) as [Hlt | Hge].
    - rewrite lookup_app_l in Hi, Hj by lia. by apply (HT i j a).
    - apply lookup_lt_Some in Hj as Hjl. rewrite length_app in Hjl. cbn in Hjl.
      assert (j = length (played p)) as -> by lia.
      rewrite lookup_app_l in Hi by lia.
      rewrite lookup_app_r, Nat.sub_diag in Hj by lia. injection Hj as -> ->.
      apply Before; [exact Hn |]. by eapply list_elem_of_In, list_elem_of_lookup_2. }
  unfold playSingleAudio.
  destruct element; [| by split]. cbn [negb].
  destruct (Z.ltb_spec (now - lastPlayTime audioId p) AUDIO_THROTTLE_MS) as [|Hn]; [by split |].
  destruct ext; cbn [negb].
  - cbn [flags playerTabId]. rewrite lookup_insert_eq. cbn [flagTabId].
    rewrite bool_decide_eq_true_2 by reflexivity.
    destruct plays; [| apply Keep]. cbn [played audioPlayTimes]. split; [by apply Grow |].
    apply (Times Hn). intros a t Hin. apply in_app_or in Hin as [|[|[]]]; auto.
  - cbn [played audioPlayTimes]. destruct plays.
    + split; [by apply Grow |].
      apply (Times Hn). intros a t Hin. apply in_app_or in Hin as [|[|[]]]; auto.
    + split; [exact HT |]. apply (Times Hn). auto.
Qed.

Lemma playAll_inv ext calls p :
  throttled (played p) ->
  (forall a t, In (a, t) (played p) -> exists t', audioPlayTimes p !! a = Some t' /\ t <= t') ->
  throttled (played (playAll ext calls p)).
Proof.
  revert p. induction calls as [|c calls IH]; intros p HT HA; [exact HT |].
  unfold playAll. cbn [fold_left].
  destruct (playSingleAudio_inv ext (callElement c) (callPlays c) (callAudioId c) (callNow c) p HT HA)
    as [HT' HA'].
  by apply IH.
Qed.

Lemma playSingleAudio_plays ext audioId now p :
  AUDIO_THROTTLE_MS <= now - lastPlayTime audioId p ->
  played (playSingleAudio ext true true audioId now p) = played p ++ [(audioId, now)] /\
  audioPlayTimes (playSingleAudio ext true true audioId now p) !! audioId = Some now.
Proof.
  intros Hn. unfold playSingleAudio. cbn [negb].
  destruct (Z.ltb_spec (now - lastPlayTime audioId p) AUDIO_THROTTLE_MS) as [|_]; [lia |].
  destruct ext; cbn [negb].
  - cbn [flags playerTabId]. rewrite lookup_insert_eq. cbn [flagTabId].
    rewrite bool_decide_eq_true_2 by reflexivity. cbn [played audioPlayTimes].
    by rewrite lookup_insert_eq.
  - cbn [played audioPlayTimes]. by rewrite lookup_insert_eq.
Qed.

(** X21. In one tab a sound is not started twice within 3000 ms: among the
    sounds that a series of calls of [playSingleAudio] has started, each
    running to its end before the next, two with the same id are at least
    3000 ms apart, in the extension and outside of it. *)
Theorem sounds_are_throttled ext (calls : list PlayCall) (id : string)
    (shared : gmap string (option AudioFlag)) :
  throttled (played (playAll ext calls (freshPlayer id shared))).
Proof.
  apply playAll_inv.
  - intros i j a t t' _ Hi. cbn in Hi. by rewrite lookup_nil in Hi.
  - intros a t [].
Qed.

(** X22. The flag kept in the storage does not hold a sound back: when the
    tab's own last start of the sound is 3000 ms or more ago, the call
    starts the sound, whatever flags the storage holds, those of other tabs
    included.  So of two tabs that call one after the other, both play. *)
Theorem stored_flag_never_blocks ext (audioId : string) (now : Z) (p : Player) :
  AUDIO_THROTTLE_MS <= now - lastPlayTime audioId p ->
  let p' := playSingleAudio ext true true audioId now p in
  played p' = played p ++ [(audioId, now)] /\
  (forall (other : string) (now' : Z),
     AUDIO_THROTTLE_MS <= now' ->
     played (playSingleAudio ext true true audioId now' (freshPlayer other (flags p')))
     = [(audioId, now')]).
Proof.
  intros Hn. cbv zeta. split; [by apply playSingleAudio_plays |].
  intros other now' Hn'.
  destruct (playSingleAudio_plays ext audioId now' (freshPlayer other
              (flags (playSingleAudio ext true true audioId now p)))) as [P _].
  - unfold lastPlayTime. cbn. rewrite lookup_empty. cbn. lia.
  - exact P.
Qed.

(** **** Examples *)

(** Three saves within 100 ms, as the timer makes them on a tick, and a
    fourth one later. *)
Lemma debounce_invokes_survivors_witness :
  let d := mkDebounced None [] 1%positive [] in
  let calls := [(1000, "a"); (1050, "b"); (1100, "c"); (2000, "d")]%string in
  snd <$> invoked (exec (runTimers 3000) (exec (forEach (callAt 250) calls) d))
  = ["c"; "d"]%string.
Proof.
  cbv zeta.
  destruct (debounce_invokes_survivors 250
              [(1000, "a"); (1050, "b"); (1100, "c"); (2000, "d")]%string 3000
              (mkDebounced None [] 1%positive [])) as (S & _).
  - reflexivity.
  - repeat constructor; cbn; lia.
  - exact S.
Defined.

(** The two saves of one tick of the timer: the state, then the time. *)
Lemma saves_are_stored_last_is_broadcast_witness :
  let t := mkTab "tab-1" (∅ : gmap string Z) (mkDebounced None [] 1%positive []) in
  let saves := [(1000, ("focusflow_timer_state", 89)); (1001, ("focusflow_timer_last_update", 1000))]%string in
  sentMessages true (exec (elapse 1300) (exec (forEach (saveToLocalStorage true) saves) t))
  = [mkMessage "focusflow_timer_last_update" 1000 1300 "tab-1"].
Proof.
  cbv zeta.
  destruct (saves_are_stored_last_is_broadcast
              [(1000, ("focusflow_timer_state", 89)); (1001, ("focusflow_timer_last_update", 1000))]%string
              1300 (mkTab "tab-1" (∅ : gmap string Z) (mkDebounced None [] 1%positive [])))
    as (_ & S & _).
  - reflexivity.
  - cbn. lia.
  - repeat constructor; cbn; lia.
  - exact S.
Defined.

Lemma stored_flag_never_blocks_witness :
  let a := playSingleAudio true true true "break_start" 1000000 (freshPlayer "tab-a" ∅) in
  played a = [("break_start", 1000000)]%string /\
  played (playSingleAudio true true true "break_start" 1000500 (freshPlayer "tab-b" (flags a)))
  = [("break_start", 1000500)]%string.
Proof.
  cbv zeta.
  destruct (stored_flag_never_blocks true "break_start" 1000000 (freshPlayer "tab-a" ∅))
    as [A B].
  - vm_compute. discriminate.
  - split; [exact A |]. apply (B "tab-b"%string 1000500). vm_compute. discriminate.
Defined.

(** The second of two calls 2 s apart is dropped, the third one plays. *)
Example third_call_plays :
  played (playAll false
            [mkPlayCall true true "break_start" 1000000;
             mkPlayCall true true "break_start" 1002000;
             mkPlayCall true true "break_start" 1003000]
            (freshPlayer "tab-a" ∅))
  = [("break_start", 1000000); ("break_start", 1003000)]%string.
Proof. vm_compute. reflexivity. Qed.

End ChromeUtilsFacts.
(** *** The chat *)

Module ChatInterfaceFacts.
Import ChatInterface EffFacts.

(** Unfolds the handlers of the chat. *)
Ltac chat_step := cbv beta iota zeta delta
  [mbind mret Eff_bind Eff_ret gets modify when exec
   createNewConversation handleSelectConversation updateConversationTitle
   updateConversationMessages
   set_input set_conversations set_activeConversationId set_isLoading set_errorCount
   input conversations activeConversationId isLoading errorCount fst snd].

Implicit Types (s : Chat) (c : ChatConversation).

Lemma getChatTitle_length (t : Text) : length (getChatTitle t) <= 33.
Proof.
  unfold getChatTitle. destruct (Nat.ltb_spec 30 (length t)) as [H | H].
  - rewrite length_app, length_take. change (length (text "...")) with 3. lia.
  - lia.
Qed.

Lemma ids_retitled (target : option string) (t : Text) (l : list ChatConversation) :
  id <$> ((fun conv =>
             if bool_decide (Some (id conv) = target)
             then mkChatConversation (id conv) (getChatTitle t) (messages conv) (createdAt conv)
             else conv) <$> l)
  = id <$> l.
Proof.
  rewrite <- list_fmap_compose. apply list_fmap_ext. intros i conv _. cbn.
  by destruct (bool_decide _).
Qed.

Lemma ids_refilled (target : option string) (ms : list ChatMessage) (l : list ChatConversation) :
  id <$> ((fun conv =>
             if bool_decide (Some (id conv) = target)
             then mkChatConversation (id conv) (title conv) ms (createdAt conv)
             else conv) <$> l)
  = id <$> l.
Proof.
  rewrite <- list_fmap_compose. apply list_fmap_ext. intros i conv _. cbn.
  by destruct (bool_decide _).
Qed.

Lemma ids_filter (target : string) (l : list ChatConversation) :
  id <$> List.filter (fun c => negb (bool_decide (id c = target))) l
  = List.filter (fun i => negb (bool_decide (i = target))) (id <$> l).
Proof.
  induction l as [|c l IH]; [reflexivity |]. cbn [List.filter fmap list_fmap].
  destruct (negb _); cbn [fmap list_fmap]; by rewrite <- IH.
Qed.

Lemma filter_elem (target a : string) (l : list string) :
  a ∈ List.filter (fun i => negb (bool_decide (i = target))) l <-> a ∈ l /\ a <> target.
Proof.
  rewrite !list_elem_of_In, List.filter_In, negb_true_iff, bool_decide_eq_false. tauto.
Qed.

Lemma filter_NoDup (target : string) (l : list string) :
  NoDup l -> NoDup (List.filter (fun i => negb (bool_decide (i = target))) l).
Proof.
  intros H. apply NoDup_ListNoDup, List.NoDup_filter, NoDup_ListNoDup, H.
Qed.

Lemma delete_exec (target newId : string) (now : Z) s :
  let remaining := List.filter (fun c => negb (bool_decide (id c = target))) (conversations s) in
  let created :=
    mkChat []
      [mkChatConversation newId (text "New Conversation") [getInitialWelcomeMessage now] now]
      (Some newId) (isLoading s) (errorCount s) in
  exec (act (Delete target newId now)) s
  = match remaining with
    | c :: _ =>
        mkChat (input s) remaining
          (if bool_decide (Some target = activeConversationId s) then Some (id c)
           else activeConversationId s)
          (isLoading s) (errorCount s)
    | [] =>
        if bool_decide (Some target = activeConversationId s) then created
        else match conversations s with
             | [] => s
             | _ :: _ => created
             end
    end.
Proof.
  destruct s as [inp cs a ld ec]. cbv zeta. cbn [conversations activeConversationId input isLoading errorCount].
  unfold act, handleDeleteConversation, ensureConversation. chat_step.
  destruct (bool_decide (Some target = a)); chat_step;
    destruct (List.filter _ cs) as [|c rest] eqn:E; chat_step.
  - destruct (negb _); reflexivity.
  - destruct (negb _); reflexivity.
  - destruct cs; reflexivity.
  - destruct (negb _); reflexivity.
Qed.

Lemma submit_shape (newId : string) (now : Z) s :
  let s' := exec (handleSubmit newId now) s in
  s' = s \/
  (ids s' = ids s /\ activeConversationId s' = activeConversationId s) \/
  (ids s' = newId :: ids s /\ activeConversationId s' = Some newId).
Proof.
  destruct s as [inp cs a ld ec]. cbv zeta. unfold handleSubmit, ids. chat_step.
  destruct (trim inp) as [|u rest]; [by left |]. right.
  destruct (truthyId a); cbn [negb]; chat_step.
  - left. destruct (activeConversation _) as [c|]; [destruct (messages c) as [|m [|m' ms]] |];
      try destruct (role m); chat_step; by rewrite ?ids_refilled, ?ids_retitled.
  - right. destruct (activeConversation _) as [c|]; [destruct (messages c) as [|m [|m' ms]] |];
      try destruct (role m); chat_step;
      rewrite ?ids_refilled, ?ids_retitled; done.
Qed.

Lemma act_wellFormed s (a : Action) :
  wellFormed s -> allowed s a -> wellFormed (exec (act a) s).
Proof.
  intros [ND (x & Hx & Hin)] Hal. destruct a as [newId now | target | target newId now | v | newId now | p ans now].
  - destruct s as [inp cs a ld ec]. unfold wellFormed, ids in *. cbn in *.
    split; [by apply NoDup_cons | exists newId; split; [reflexivity | apply elem_of_cons; by left]].
  - destruct s as [inp cs a ld ec]. unfold wellFormed, ids in *. cbn in *. eauto.
  - rewrite delete_exec. cbv zeta. unfold wellFormed, ids in *.
    destruct (List.filter _ (conversations s)) as [|c rest] eqn:E.
    + assert (W : forall ld ec, NoDup (id <$> conversations (mkChat []
                  [mkChatConversation newId (text "New Conversation") [getInitialWelcomeMessage now] now]
                  (Some newId) ld ec)) /\
                exists a, Some newId = Some a /\ a ∈ [newId]).
      { intros. split; [apply NoDup_singleton |].
        exists newId. split; [reflexivity | by apply list_elem_of_singleton]. }
      destruct (bool_decide _); [apply W |].
      destruct (conversations s) eqn:C; [| apply W].
      rewrite C. split; [exact ND | eauto].
    + cbn [conversations activeConversationId]. rewrite <- E, ids_filter.
      split; [by apply filter_NoDup |].
      destruct (bool_decide (Some target = activeConversationId s)) eqn:B.
      * exists (id c). split; [reflexivity |]. rewrite <- ids_filter, E. cbn. apply elem_of_cons. by left.
      * exists x. split; [exact Hx |]. apply filter_elem. split; [exact Hin |].
        apply bool_decide_eq_false in B. congruence.
  - destruct s as [inp cs a ld ec]. unfold wellFormed, ids in *. cbn in *. eauto.
  - cbn [act]. rewrite eff_exec_bind. change (exec (mret tt) ?y) with y.
    unfold wellFormed. cbn [allowed] in Hal.
    destruct (submit_shape newId now s) as [E | [[E A] | [E A]]]; rewrite ?E, ?A.
    + split; eauto.
    + split; eauto.
    + split; [by apply NoDup_cons |]. exists newId. split; [reflexivity | apply elem_of_cons; by left].
  - destruct s as [inp cs a ld ec]. unfold wellFormed, ids in *. cbn [act].
    unfold handleAnswer. destruct ans; chat_step; try destruct (_ <? _)%nat; chat_step;
      rewrite ids_refilled; eauto.
Qed.

Lemma chat_actions_cons (a : Action) (actions : list Action) s :
  run (a :: actions) s = run actions (exec (act a) s).
Proof. unfold run. apply eff_forEach_cons. Qed.

Lemma wellFormed_active s :
  wellFormed s ->
  conversations s <> [] /\
  exists a c, activeConversationId s = Some a /\ activeConversation s = Some c /\ id c = a.
Proof.
  intros [_ (a & Ha & Hin)]. unfold ids in Hin. split.
  - intros E. rewrite E in Hin. by apply elem_of_nil in Hin.
  - exists a. unfold activeConversation. rewrite Ha.
    apply list_elem_of_fmap in Hin as (c & -> & Hc).
    apply list_elem_of_In in Hc.
    destruct (List.find (fun c0 => bool_decide (Some (id c0) = Some (id c))) (conversations s))
      as [c'|] eqn:F.
    + exists c'. apply List.find_some in F as [_ F]. apply bool_decide_eq_true in F.
      split; [reflexivity |]. split; [reflexivity |]. congruence.
    + exfalso. pose proof (List.find_none _ _ F c Hc) as N.
      cbn beta in N. by rewrite bool_decide_eq_true_2 in N.
Qed.

(** X23. The chat always has a conversation to show.  When the
    conversations listed have distinct ids and the active one is among them,
    this stays so whatever the user does (start, select, delete, type, send)
    and whenever answers arrive, as long as the ids generated are new and
    the conversations selected are listed ones; so the list never becomes
    empty, also when the last conversation is deleted. *)
Theorem chat_always_has_active_conversation (actions : list Action) s :
  wellFormed s ->
  permitted actions s ->
  let s' := run actions s in
  wellFormed s' /\
  conversations s' <> [] /\
  exists a c, activeConversationId s' = Some a /\ activeConversation s' = Some c /\ id c = a.
Proof.
  intros W P. cbv zeta.
  assert (W' : wellFormed (run actions s)).
  { revert s W P. induction actions as [|a actions IH]; intros s W P; [exact W |].
    destruct P as [Ha P]. rewrite chat_actions_cons. apply IH; [| exact P].
    by apply act_wellFormed. }
  split; [exact W' | by apply wellFormed_active].
Qed.

Lemma selects_exec (targets : list string) s :
  run (Select <$> targets) s
  = mkChat (input s) (conversations s)
      (match last targets with Some t => Some t | None => activeConversationId s end)
      (isLoading s) (errorCount s).
Proof.
  revert s. induction targets as [|t targets IH]; intros s.
  - by destruct s.
  - cbn [fmap list_fmap]. rewrite chat_actions_cons, IH. destruct s as [inp cs a ld ec].
    cbn. destruct targets as [|t' targets]; [reflexivity |].
    rewrite last_cons_cons. destruct (last (t' :: targets)) eqn:L; [reflexivity |].
    apply last_None in L. discriminate L.
Qed.

Lemma submit_exec (newId : string) (now : Z) s (a : string) c :
  activeConversationId s = Some a ->
  a <> ""%string ->
  activeConversation s = Some c ->
  trim (input s) <> [] ->
  let updated := messages c ++ [mkChatMessage User (trim (input s)) now] in
  handleSubmit newId now s
  = (Some (mkPending (Some a) updated (errorCount s)),
     mkChat [] (exchanged a (untitled c) (trim (input s)) updated <$> conversations s)
       (Some a) true (errorCount s)).
Proof.
  destruct s as [inp cs act ld ec]. cbn [activeConversationId input errorCount conversations].
  intros -> Ha Hc Ht. cbv zeta. unfold handleSubmit. chat_step. rewrite Hc.
  destruct (trim inp) as [|u rest] eqn:T; [done |].
  assert (Tr : truthyId (Some a) = true) by (destruct a; done).
  rewrite Tr. cbn [negb]. chat_step.
  assert (M : forall (named : bool) (l : list ChatConversation),
    (fun conv => if bool_decide (Some (id conv) = Some a)
                 then mkChatConversation (id conv) (title conv)
                        (messages c ++ [mkChatMessage User (u :: rest) now]) (createdAt conv)
                 else conv)
    <$> ((fun conv => if named then
                        if bool_decide (Some (id conv) = Some a)
                        then mkChatConversation (id conv) (getChatTitle (u :: rest)) (messages conv)
                               (createdAt conv)
                        else conv
                      else conv) <$> l)
    = exchanged a named (u :: rest) (messages c ++ [mkChatMessage User (u :: rest) now]) <$> l).
  { intros named l. rewrite <- list_fmap_compose. apply list_fmap_ext. intros i conv _.
    unfold exchanged. cbn. destruct (decide (id conv = a)) as [E | N].
    - rewrite (bool_decide_eq_true_2 (id conv = a)) by done.
      destruct named; rewrite ?(bool_decide_eq_true_2 (Some (id conv) = Some a)) by congruence;
        cbn; rewrite ?(bool_decide_eq_true_2 (Some (id conv) = Some a)) by congruence; reflexivity.
    - rewrite (bool_decide_eq_false_2 (id conv = a)) by done.
      destruct named; rewrite ?(bool_decide_eq_false_2 (Some (id conv) = Some a)) by congruence;
        rewrite ?(bool_decide_eq_false_2 (Some (id conv) = Some a)) by congruence; reflexivity. }
  unfold untitled.
  destruct (messages c) as [|m [|m' ms]] eqn:Mc; [| destruct (role m) |]; chat_step;
    first [ rewrite <- (M true cs) | rewrite <- (M false cs) ];
    rewrite ?list_fmap_id; try reflexivity.
  all: do 3 f_equal; symmetry; apply list_fmap_id.
Qed.

Lemma answer_exec (p : Pending) (answer : Text) (now : Z) s :
  exec (handleAnswer p (Some answer) now) s
  = mkChat (input s)
      ((fun conv =>
          if bool_decide (Some (id conv) = pendingId p)
          then mkChatConversation (id conv) (title conv)
                 (updatedMessages p ++ [mkChatMessage Assistant answer now]) (createdAt conv)
          else conv) <$> conversations s)
      (activeConversationId s) false
      (if (0 <? pendingErrors p)%nat then 0%nat else errorCount s).
Proof.
  destruct s as [inp cs act ld ec]. unfold handleAnswer. chat_step.
  destruct (0 <? pendingErrors p)%nat; reflexivity.
Qed.

Lemma answered (a : string) (named : bool) (question : Text) (ms ms' : list ChatMessage)
    (l : list ChatConversation) :
  (fun conv =>
     if bool_decide (Some (id conv) = Some a)
     then mkChatConversation (id conv) (title conv) ms' (createdAt conv)
     else conv) <$> (exchanged a named question ms <$> l)
  = exchanged a named question ms' <$> l.
Proof.
  rewrite <- list_fmap_compose. apply list_fmap_ext. intros i conv _.
  unfold exchanged. cbn. destruct (decide (id conv = a)) as [E | N].
  - rewrite (bool_decide_eq_true_2 (id conv = a)) by done. cbn.
    by rewrite (bool_decide_eq_true_2 (Some (id conv) = Some a)) by congruence.
  - rewrite (bool_decide_eq_false_2 (id conv = a)) by done.
    by rewrite (bool_decide_eq_false_2 (Some (id conv) = Some a)) by congruence.
Qed.

(** X24. An answer goes to the conversation in which the question was
    asked.  When a message is sent from the active conversation [a], that
    conversation receives the message, trimmed, after the messages it had,
    and then the answer, also when the user has selected other
    conversations while waiting; every other conversation stays as it was.
    A conversation that held only the welcome message is named after the
    question: its first 30 code units followed by "..." when it is longer,
    so at most 33 code units. *)
Theorem answer_goes_to_asking_conversation (newId : string) (now now' : Z) (targets : list string)
    (answer : Text) s (a : string) c :
  activeConversationId s = Some a ->
  a <> ""%string ->
  activeConversation s = Some c ->
  trim (input s) <> [] ->
  let question := trim (input s) in
  let s1 := exec (handleSubmit newId now) s in
  exists p,
    (handleSubmit newId now s).1 = Some p /\
    input s1 = [] /\
    isLoading s1 = true /\
    let s2 := exec (handleAnswer p (Some answer) now') (run (Select <$> targets) s1) in
    conversations s2
    = exchanged a (untitled c) question
        (messages c ++ [mkChatMessage User question now; mkChatMessage Assistant answer now'])
      <$> conversations s /\
    isLoading s2 = false /\
    length (getChatTitle question) <= 33 /\
    take 30 (getChatTitle question) = take 30 question.
Proof.
  intros Ha Hne Hc Ht. cbv zeta.
  pose proof (submit_exec newId now s a c Ha Hne Hc Ht) as E. cbv zeta in E.
  assert (S1 : exec (handleSubmit newId now) s
               = mkChat [] (exchanged a (untitled c) (trim (input s))
                              (messages c ++ [mkChatMessage User (trim (input s)) now])
                            <$> conversations s) (Some a) true (errorCount s)).
  { unfold exec. by rewrite E. }
  eexists. rewrite S1, E. cbn [fst snd input isLoading].
  split; [reflexivity |]. split; [reflexivity |]. split; [reflexivity |].
  rewrite selects_exec, answer_exec.
  cbn [pendingId updatedMessages pendingErrors conversations isLoading].
  split; [| split; [reflexivity | split; [apply getChatTitle_length |]]].
  - rewrite answered, <- app_assoc. reflexivity.
  - unfold getChatTitle. destruct (Nat.ltb_spec 30 (length (trim (input s)))) as [H | H].
    + rewrite take_app_le by (rewrite length_take; lia). by rewrite take_take.
    + reflexivity.
Qed.

(** **** Examples *)

(** The only conversation is deleted, and so is its successor. *)
Lemma chat_always_has_active_conversation_witness :
  let s := mkChat [] [mkChatConversation "c1" (text "Breaks") [getInitialWelcomeMessage 1000] 1000]
             (Some "c1"%string) false 0 in
  ids (run [Delete "c1" "c2" 2000; Typed (text "hello"); Delete "c2" "c3" 3000] s) = ["c3"%string].
Proof.
  cbv zeta.
  destruct (chat_always_has_active_conversation
              [Delete "c1" "c2" 2000; Typed (text "hello"); Delete "c2" "c3" 3000]
              (mkChat [] [mkChatConversation "c1" (text "Breaks") [getInitialWelcomeMessage 1000] 1000]
                 (Some "c1"%string) false 0)) as (_ & N & _).
  - split; [apply NoDup_singleton |]. exists "c1"%string. split; [reflexivity |].
    by apply list_elem_of_singleton.
  - cbn. repeat split; intros H%list_elem_of_singleton; discriminate H.
  - reflexivity.
Defined.

(** The question is asked in the new conversation [c2]; the user looks at
    [c1] when the answer arrives. *)
Lemma answer_goes_to_asking_conversation_witness :
  exists p,
    (handleSubmit "c3" 3000 sampleChat).1 = Some p /\
    title <$> conversations (exec (handleAnswer p (Some (text "Plan breaks.")) 4000)
                               (run [Select "c1"] (exec (handleSubmit "c3" 3000) sampleChat)))
    = [text "How do I stay focused for a wh..."; text "Breaks"].
Proof.
  destruct (answer_goes_to_asking_conversation "c3" 3000 4000 ["c1"%string] (text "Plan breaks.")
              sampleChat "c2"
              (mkChatConversation "c2" (text "New Conversation") [getInitialWelcomeMessage 2000] 2000))
    as (p & P & _ & _ & C & _).
  - reflexivity.
  - discriminate.
  - reflexivity.
  - vm_compute. discriminate.
  - exists p. split; [exact P |]. cbv zeta in C.
    change (Select <$> ["c1"%string]) with [Select "c1"] in C. rewrite C. vm_compute. reflexivity.
Defined.

End ChatInterfaceFacts.
(** *** The API key and the requests to OpenAI *)

Module OpenAIFacts.
Import ChatInterface OpenAI EffFacts.

Local Open Scope Z_scope.

(** Unfolds the functions of the module. *)
Ltac ai_step := cbv beta iota zeta delta
  [mbind mret Eff_bind Eff_ret gets modify when exec
   send toast getOpenAIApiKeyFromFirestore getApiKey setApiKey clearApiKey setApiKeyValidated
   fetchApiKeyFromFirestore useUserApiKey getAIResponse validateApiKey handleSaveKey
   set_cachedApiKey set_lastFetchTime set_localStorage
   cachedApiKey lastFetchTime localStorage requests toasts fst snd].

Ltac not_sent :=
  let H := fresh in
  intros H; repeat (apply elem_of_cons in H as [H | H]; [discriminate H |]);
  by apply elem_of_nil in H.

(** Settles the description of the requests once they are known. *)
Ltac shape :=
  rewrite <- ?app_assoc, drop_app_length; cbn;
  split; [reflexivity |]; split; [repeat constructor |]; split; [lia |];
  split;
  [ let T := fresh in intros T; first [discriminate T | split; [discriminate | not_sent]]
  | let T := fresh in intros T; first [discriminate T | reflexivity] ].

Section Facts.

Variable firestore : nat -> option string.
Variable openai : nat -> option Text.
Variable models : nat -> option bool.
Variable server : nat -> option (option Text).
Variable getFallbackResponse : Text -> Text.

Lemma truthy_cases (k : option string) :
  (exists a r, k = Some (String a r) /\ truthy k = true) \/
  (truthy k = false /\ (k = None \/ k = Some EmptyString)).
Proof. destruct k as [[|a r]|]; eauto 6. Qed.

(** X25. Which key goes to OpenAI.  [getAIResponse] first reads the key
    from Firestore.  Every request it then sends to OpenAI, two at most,
    carries the same key: the one from Firestore if there is one; if not,
    the one cached from an earlier read; the user's own key only when there
    is neither.  The retry after a failed request uses that same key again.
    The server is asked if and only if there is no key at all. *)
Theorem own_key_is_last_resort (message : Text) (now : Z) (c : Client) :
  let n := length (requests c) in
  let rs := sentBy (getAIResponse firestore openai server getFallbackResponse message now) c in
  let chosen := chosenKey (firestore n) c in
  head rs = Some FirestoreRead /\
  Forall (fun k => Some k = chosen) (keysSent rs) /\
  (length (keysSent rs) <= 2)%nat /\
  (truthy chosen = true -> keysSent rs <> [] /\ ServerChat message ∉ rs) /\
  (truthy chosen = false -> rs = [FirestoreRead; ServerChat message]).
Proof.
  destruct c as [cached last ls rs0 ts]. cbv zeta. unfold sentBy, chosenKey.
  cbn [requests cachedApiKey localStorage].
  unfold getAIResponse, fetchApiKeyFromFirestore, getOpenAIApiKeyFromFirestore, useUserApiKey, getApiKey.
  ai_step. rewrite andb_false_r.
  destruct (firestore (length rs0)) as [[|a k]|];
    destruct cached as [[|b u]|];
    destruct (ls !! "openai_api_key"%string) as [[|b' u']|] eqn:U;
    repeat first
      [ progress cbn [truthy]
      | progress ai_step
      | rewrite U
      | match goal with
        | |- context [openai ?n] => destruct (openai n)
        | |- context [server ?n] => destruct (server n) as [[?|]|]
        end ];
    shape.
Qed.

(** X26. A key entered in the dialog is stored before it is checked, and
    stays stored when the check fails.  With a key in Firestore the check
    succeeds without any request to OpenAI, so the key entered is marked as
    validated unseen and the dialog closes; the key that is otherwise sent
    to OpenAI for the check is the cached one if there is one, else the key
    entered, and the dialog closes exactly when OpenAI lists its models for
    it. *)
Theorem entered_key_is_stored_unchecked (a : ascii) (rest : string) (now : Z) (c : Client) :
  let entered := String a rest in
  let n := length (requests c) in
  let closes := (handleSaveKey firestore models entered now c).1 in
  let c' := exec (handleSaveKey firestore models entered now) c in
  let rs := sentBy (handleSaveKey firestore models entered now) c in
  localStorage c' !! "openai_api_key"%string = Some entered /\
  (truthy (firestore n) = true ->
   closes = true /\ keysSent rs = [] /\ isApiKeyValidated c' = true) /\
  (truthy (firestore n) = false ->
   keysSent rs = [if truthy (cachedApiKey c) then default entered (cachedApiKey c) else entered] /\
   closes = bool_decide (models (S n) = Some true) /\
   isApiKeyValidated c' = closes).
Proof.
  destruct c as [cached last ls rs0 ts]. cbv zeta. unfold sentBy, isApiKeyValidated.
  cbn [requests cachedApiKey localStorage].
  assert (N : length (rs0 ++ [FirestoreRead]) = S (length rs0)).
  { rewrite length_app. cbn. lia. }
  unfold handleSaveKey, validateApiKey, fetchApiKeyFromFirestore, getOpenAIApiKeyFromFirestore,
    getApiKey, setApiKey, setApiKeyValidated.
  ai_step. rewrite andb_false_r.
  destruct (firestore (length rs0)) as [[|a' k]|];
    destruct cached as [[|b u]|];
    repeat first
      [ progress cbn [truthy]
      | progress ai_step
      | rewrite lookup_insert_eq
      | rewrite lookup_insert_ne by discriminate
      | rewrite N
      | match goal with
        | |- context [models ?n] => destruct (models n) as [[|]|]
        end ];
    rewrite <- ?app_assoc, ?drop_app_length; cbn;
    (split; [reflexivity |]);
    (split; intros T; first [discriminate T | done]).
Qed.

End Facts.

(** **** Examples *)

(** Firestore has a key, the first request with it fails, the second one is
    answered; the user's own key stays at home. *)
Lemma own_key_is_last_resort_witness :
  let firestore := fun _ : nat => Some "sk-shared"%string in
  let openai := fun n : nat => if (n =? 1)%nat then None else Some (text "Take a break.") in
  let rs := sentBy (getAIResponse firestore openai (fun _ => None) (fun m => m) (text "hello") 5000)
              sampleClient in
  Forall (fun k => Some k = Some "sk-shared"%string) (keysSent rs) /\
  ServerChat (text "hello") ∉ rs.
Proof.
  cbv zeta.
  destruct (own_key_is_last_resort (fun _ : nat => Some "sk-shared"%string)
              (fun n : nat => if (n =? 1)%nat then None else Some (text "Take a break."))
              (fun _ => None) (fun m => m) (text "hello") 5000 sampleClient)
    as (_ & K & _ & H & _).
  destruct (H eq_refl) as [_ N]. split; [exact K | exact N].
Defined.

(** A key that OpenAI does not accept is entered while Firestore has none:
    it is stored all the same. *)
Lemma entered_key_is_stored_unchecked_witness :
  let c' := exec (handleSaveKey (fun _ => None) (fun _ => Some false) "sk-wrong" 5000)
              (mkClient None 0 ∅ [] []) in
  localStorage c' !! "openai_api_key"%string = Some "sk-wrong"%string /\
  isApiKeyValidated c' = false.
Proof.
  cbv zeta.
  destruct (entered_key_is_stored_unchecked (fun _ => None) (fun _ => Some false)
              "s" "k-wrong" 5000 (mkClient None 0 ∅ [] [])) as (S & _ & F).
  destruct (F eq_refl) as (_ & C & V).
  split; [exact S |]. rewrite V, C. reflexivity.
Defined.

End OpenAIFacts.
